(** * Métis Prairie islands: station interaction and progress store

    A shallow embedding of the progress store of [islandMain.js] (and of its
    crystal and diorama copies) and of [IslandInteractionManager], followed by
    the properties of the station dialogue flow that were checked on it.

    JavaScript strings are kept as Rocq strings (their byte view), numbers
    that index stations as [nat], the DOM as finite maps from element ids to
    the properties the code reads and writes. *)

From Stdlib Require Import String Ascii List ZArith QArith Lia Bool DecimalString.
From Stdlib Require DecimalNat Decimal.
From stdpp Require Import base gmap strings.
Import ListNotations.
Open Scope string_scope.
Set Warnings "-register-all".

(** ** Completions

    A call either returns, throws (the state reached at the throw is kept:
    JavaScript does not roll back), or leaves the fragment of JavaScript
    values that this development describes. *)

Inductive JsError := TypeError | SyntaxError.

Inductive Outcome (A : Type) :=
| Value (a : A)
| Raise (e : JsError)
| Outside.
Arguments Value {A} a.
Arguments Raise {A} e.
Arguments Outside {A}.

Inductive Completion (S A : Type) :=
| Normal (a : A) (s : S)
| Throw (e : JsError) (s : S)
| Unmodelled.
Arguments Normal {S A} a s.
Arguments Throw {S A} e s.
Arguments Unmodelled {S A}.

Definition M (S A : Type) : Type := S -> Completion S A.

Definition ret {S A} (a : A) : M S A := fun s => Normal a s.

Definition bind {S A B} (m : M S A) (k : A -> M S B) : M S B :=
  fun s => match m s with
           | Normal a s' => k a s'
           | Throw e s' => Throw e s'
           | Unmodelled => Unmodelled
           end.

Definition throw {S A} (e : JsError) : M S A := fun s => Throw e s.
Definition get {S} : M S S := fun s => Normal s s.
Definition modify {S} (f : S -> S) : M S unit := fun s => Normal tt (f s).

Definition lift {S A} (o : Outcome A) : M S A :=
  fun s => match o with
           | Value a => Normal a s
           | Raise e => Throw e s
           | Outside => Unmodelled
           end.

Notation "x <- m ;; k" := (bind m (fun x => k))
  (at level 100, m at next level, right associativity).
Notation "m ;;; k" := (bind m (fun _ => k))
  (at level 100, right associativity).

Definition when {S} (b : bool) (m : M S unit) : M S unit :=
  if b then m else ret tt.

(** ** JSON texts

    [JSON.parse] and [JSON.stringify] are built into the language; the
    progress store only ever writes arrays of strings.  The reader below
    accepts the whole JSON grammar, so that it separates texts that make
    [JSON.parse] throw from texts that it accepts.  Numbers are kept as
    their lexeme, and an escape [\uXXXX] above the ASCII range is outside
    the byte view of strings. *)

Module JSON.

Inductive json :=
| JNull
| JBool (b : bool)
| JNumber (lexeme : string)
| JString (s : string)
| JArray (items : list json)
| JObject (members : list (string * json)).

Inductive parse (A : Type) :=
| Parsed (a : A) (rest : string)
| Malformed
| Foreign.
Arguments Parsed {A} a rest.
Arguments Malformed {A}.
Arguments Foreign {A}.

Definition andThen {A B} (p : parse A) (k : A -> string -> parse B) : parse B :=
  match p with
  | Parsed a rest => k a rest
  | Malformed => Malformed
  | Foreign => Foreign
  end.

Definition dquote : ascii := "034"%char.

Definition is_ws (c : ascii) : bool :=
  match c with
  | " " | "009" | "010" | "013" => true
  | _ => false
  end%char.

Fixpoint skip_ws (s : string) : string :=
  match s with
  | String c rest => if is_ws c then skip_ws rest else s
  | EmptyString => s
  end.

Definition is_digit (c : ascii) : bool :=
  let n := nat_of_ascii c in (48 <=? n)%nat && (n <=? 57)%nat.

Definition hex_digit (c : ascii) : option nat :=
  let n := nat_of_ascii c in
  if is_digit c then Some (n - 48)%nat
  else if (97 <=? n)%nat && (n <=? 102)%nat then Some (n - 87)%nat
  else if (65 <=? n)%nat && (n <=? 70)%nat then Some (n - 55)%nat
  else None.

Definition hex4 (a b c d : ascii) : option nat :=
  match hex_digit a, hex_digit b, hex_digit c, hex_digit d with
  | Some x, Some y, Some z, Some w => Some (((x * 16 + y) * 16 + z) * 16 + w)%nat
  | _, _, _, _ => None
  end.

Definition simple_escape (e : ascii) : option ascii :=
  match e with
  | "034" => Some dquote
  | "\" => Some "\"
  | "/" => Some "/"
  | "b" => Some "008"
  | "f" => Some "012"
  | "n" => Some "010"
  | "r" => Some "013"
  | "t" => Some "009"
  | _ => None
  end%char.

(** The characters of a string literal, after its opening quote. *)
Fixpoint parse_chars (s : string) : parse string :=
  match s with
  | EmptyString => Malformed
  | String c rest =>
      if Ascii.eqb c dquote then Parsed "" rest
      else if Ascii.eqb c "\" then
        match rest with
        | EmptyString => Malformed
        | String e rest1 =>
            match simple_escape e with
            | Some d => andThen (parse_chars rest1) (fun t r => Parsed (String d t) r)
            | None =>
                if Ascii.eqb e "u" then
                  match rest1 with
                  | String h1 (String h2 (String h3 (String h4 rest2))) =>
                      match hex4 h1 h2 h3 h4 with
                      | Some n =>
                          if (n <? 128)%nat
                          then andThen (parse_chars rest2)
                                 (fun t r => Parsed (String (ascii_of_nat n) t) r)
                          else Foreign
                      | None => Malformed
                      end
                  | _ => Malformed
                  end
                else Malformed
            end
        end
      else if (nat_of_ascii c <? 32)%nat then Malformed
      else andThen (parse_chars rest) (fun t r => Parsed (String c t) r)
  end.

Fixpoint span_digits (s : string) : string * string :=
  match s with
  | String c rest =>
      if is_digit c
      then let (d, r) := span_digits rest in (String c d, r)
      else ("", s)
  | EmptyString => ("", "")
  end.

Definition scan_fraction (s : string) : parse string :=
  match s with
  | String "." rest =>
      match span_digits rest with
      | ("", _) => Malformed
      | (d, r) => Parsed (String "." d) r
      end
  | _ => Parsed "" s
  end.

Definition scan_exponent (s : string) : parse string :=
  match s with
  | String e rest =>
      if Ascii.eqb e "e" || Ascii.eqb e "E" then
        let (sign, rest1) :=
          match rest with
          | String g r => if Ascii.eqb g "+" || Ascii.eqb g "-"
                          then (String g "", r) else ("", rest)
          | EmptyString => ("", rest)
          end in
        match span_digits rest1 with
        | ("", _) => Malformed
        | (d, r) => Parsed (String e (sign ++ d)) r
        end
      else Parsed "" s
  | EmptyString => Parsed "" s
  end.

Definition scan_number (s : string) : parse string :=
  let (sign, s1) :=
    match s with
    | String "-" r => ("-", r)
    | _ => ("", s)
    end in
  match span_digits s1 with
  | ("", _) => Malformed
  | (String "0" (String _ _), _) => Malformed
  | (int, s2) =>
      andThen (scan_fraction s2) (fun frac s3 =>
      andThen (scan_exponent s3) (fun exp s4 =>
      Parsed (sign ++ int ++ frac ++ exp) s4))
  end.

Definition keyword (word : string) (v : json) (s : string) : parse json :=
  if String.prefix word s
  then Parsed v (String.substring (String.length word)
                   (String.length s - String.length word) s)
  else Malformed.

Fixpoint parse_value (fuel : nat) (s : string) : parse json :=
  match fuel with
  | O => Foreign
  | S fuel =>
      match skip_ws s with
      | EmptyString => Malformed
      | String c rest =>
          if Ascii.eqb c dquote then
            andThen (parse_chars rest) (fun t r => Parsed (JString t) r)
          else if Ascii.eqb c "[" then
            match skip_ws rest with
            | String "]" r => Parsed (JArray []) r
            | _ => andThen (parse_items fuel rest) (fun l r => Parsed (JArray l) r)
            end
          else if Ascii.eqb c "{" then
            match skip_ws rest with
            | String "}" r => Parsed (JObject []) r
            | _ => andThen (parse_members fuel rest) (fun l r => Parsed (JObject l) r)
            end
          else if Ascii.eqb c "-" || is_digit c then
            andThen (scan_number (String c rest)) (fun t r => Parsed (JNumber t) r)
          else if Ascii.eqb c "n" then keyword "null" JNull (String c rest)
          else if Ascii.eqb c "t" then keyword "true" (JBool true) (String c rest)
          else if Ascii.eqb c "f" then keyword "false" (JBool false) (String c rest)
          else Malformed
      end
  end
with parse_items (fuel : nat) (s : string) : parse (list json) :=
  match fuel with
  | O => Foreign
  | S fuel =>
      andThen (parse_value fuel s) (fun v r =>
        match skip_ws r with
        | String "," r1 => andThen (parse_items fuel r1) (fun l r2 => Parsed (v :: l) r2)
        | String "]" r1 => Parsed [v] r1
        | _ => Malformed
        end)
  end
with parse_members (fuel : nat) (s : string) : parse (list (string * json)) :=
  match fuel with
  | O => Foreign
  | S fuel =>
      match skip_ws s with
      | String "034" r =>
          andThen (parse_chars r) (fun k r1 =>
            match skip_ws r1 with
            | String ":" r2 =>
                andThen (parse_value fuel r2) (fun v r3 =>
                  match skip_ws r3 with
                  | String "," r4 =>
                      andThen (parse_members fuel r4)
                        (fun l r5 => Parsed ((k, v) :: l) r5)
                  | String "}" r4 => Parsed [(k, v)] r4
                  | _ => Malformed
                  end)
            | _ => Malformed
            end)
      | _ => Malformed
      end
  end.

(** [JSON.parse(text)]: a value, a [SyntaxError], or a text outside the
    fragment. *)
Definition JSON_parse (text : string) : Outcome json :=
  match parse_value (2 * String.length text + 2) text with
  | Parsed v rest =>
      match skip_ws rest with
      | EmptyString => Value v
      | _ => Raise SyntaxError
      end
  | Malformed => Raise SyntaxError
  | Foreign => Outside
  end.

Definition hex_char (n : nat) : ascii :=
  if (n <? 10)%nat then ascii_of_nat (48 + n) else ascii_of_nat (87 + n).

(** What [JSON.stringify] writes for one character of a string. *)
Definition escape_char (c : ascii) : string :=
  if Ascii.eqb c dquote then String "\" (String dquote "")
  else if Ascii.eqb c "\" then "\\"
  else if Ascii.eqb c "008" then "\b"
  else if Ascii.eqb c "012" then "\f"
  else if Ascii.eqb c "010" then "\n"
  else if Ascii.eqb c "013" then "\r"
  else if Ascii.eqb c "009" then "\t"
  else if (nat_of_ascii c <? 32)%nat then
    "\u00" ++ String (hex_char (nat_of_ascii c / 16))
                (String (hex_char (nat_of_ascii c mod 16)) "")
  else String c "".

Fixpoint escape (s : string) : string :=
  match s with
  | EmptyString => ""
  | String c rest => escape_char c ++ escape rest
  end.

Definition quote (s : string) : string :=
  String dquote (escape s ++ String dquote "").

Fixpoint join_items (items : list string) : string :=
  match items with
  | [] => ""
  | [x] => x
  | x :: rest => x ++ "," ++ join_items rest
  end.

Definition stringify_item (v : json) : option string :=
  match v with
  | JNull => Some "null"
  | JBool true => Some "true"
  | JBool false => Some "false"
  | JString s => Some (quote s)
  | _ => None
  end.

(** [JSON.stringify(v)] for an array of strings, booleans and nulls; the
    other shapes (numbers, objects, nesting) are not needed by the store. *)
Definition JSON_stringify (v : json) : Outcome string :=
  match v with
  | JArray items =>
      match mapM stringify_item items with
      | Some texts => Value ("[" ++ join_items texts ++ "]")
      | None => Outside
      end
  | _ => Outside
  end.

End JSON.
Import JSON.

(** ** The progress store (islandMain.js, and its crystal and diorama copies)

    The three entry scripts install the same [window.metisPrairieProgress]
    API over the same storage key; only the island script shows the
    completion notice. *)

Inductive Variant := Island | Crystal | Diorama.

Record Window := {
  progressItem : option string;       (* localStorage item 'metisPrairieProgress' *)
  completionShown : bool;             (* window.completionShown *)
  progressApi : option Variant;       (* window.metisPrairieProgress, once installed *)
  progressBar : option (option Q);    (* #progress-bar, if present: style.width in percent *)
  progressCount : option (option nat);(* #progress-count, if present: textContent *)
  notices : nat;                      (* #completion-message elements appended so far *)
  completionStyles : bool;            (* #completion-styles is in the document *)
  href : option string                (* window.location.href, once assigned *)
}.

Definition setItem (text : string) (w : Window) : Window :=
  {| progressItem := Some text; completionShown := completionShown w;
     progressApi := progressApi w; progressBar := progressBar w;
     progressCount := progressCount w; notices := notices w;
     completionStyles := completionStyles w; href := href w |}.

Definition publish (percentage : Q) (count : nat) (w : Window) : Window :=
  {| progressItem := progressItem w; completionShown := completionShown w;
     progressApi := progressApi w;
     progressBar := (fun _ => Some percentage) <$> progressBar w;
     progressCount := (fun _ => Some count) <$> progressCount w;
     notices := notices w;
     completionStyles := completionStyles w; href := href w |}.

Definition appendNotice (w : Window) : Window :=
  {| progressItem := progressItem w; completionShown := true;
     progressApi := progressApi w; progressBar := progressBar w;
     progressCount := progressCount w; notices := S (notices w);
     completionStyles := true; href := href w |}.

Definition install (v : option Variant) (w : Window) : Window :=
  {| progressItem := progressItem w; completionShown := completionShown w;
     progressApi := v; progressBar := progressBar w;
     progressCount := progressCount w; notices := notices w;
     completionStyles := completionStyles w; href := href w |}.

Definition navigate (url : string) (w : Window) : Window :=
  {| progressItem := progressItem w; completionShown := completionShown w;
     progressApi := progressApi w; progressBar := progressBar w;
     progressCount := progressCount w; notices := notices w;
     completionStyles := completionStyles w; href := Some url |}.

Definition TOTAL_STATIONS : nat := 18.

Definition string_of_nat (n : nat) : string := NilZero.string_of_uint (Nat.to_uint n).

(** [visited.includes(key)], [visited.push(key)] and [visited.length] on what
    [JSON.parse] returned.  On an array they are the array methods; [null]
    has no properties, and a boolean, a number or a parsed object has no
    callable [includes].  What a string or a non-array [length] would do is
    left out. *)
Definition is_key (key : string) (v : json) : bool :=
  match v with
  | JString s => String.eqb s key
  | _ => false
  end.

Definition includes (visited : json) (key : string) : Outcome bool :=
  match visited with
  | JArray items => Value (existsb (is_key key) items)
  | JString _ => Outside
  | _ => Raise TypeError
  end.

Definition push (visited : json) (key : string) : Outcome json :=
  match visited with
  | JArray items => Value (JArray (items ++ [JString key]))
  | _ => Raise TypeError
  end.

Definition js_length (visited : json) : Outcome nat :=
  match visited with
  | JArray items => Value (length items)
  | JNull => Raise TypeError
  | _ => Outside
  end.

(** [saved ? JSON.parse(saved) : []]: a missing item and the empty string
    are falsy. *)
Definition getVisitedStations : M Window json :=
  w <- get ;;
  match progressItem w with
  | Some (String c rest) => lift (JSON_parse (String c rest))
  | _ => ret (JArray [])
  end.

Definition showCompletionMessage : M Window unit :=
  w <- get ;;
  if completionShown w then ret tt else modify appendNotice.

Definition updateProgressUI (v : Variant) : M Window unit :=
  visited <- getVisitedStations ;;
  count <- lift (js_length visited) ;;
  let percentage := ((Z.of_nat count # 1) / (Z.of_nat TOTAL_STATIONS # 1) * 100)%Q in
  modify (publish percentage count) ;;;
  match v with
  | Island => when (TOTAL_STATIONS <=? count)%nat showCompletionMessage
  | Crystal | Diorama => ret tt
  end.

(** The template literal [`${stationType}-${stationId}`]. *)
Definition stationKey (stationType : string) (stationId : nat) : string :=
  stationType ++ "-" ++ string_of_nat stationId.

Definition markStationVisited (v : Variant) (stationType : string) (stationId : nat)
  : M Window unit :=
  let key := stationKey stationType stationId in
  visited <- getVisitedStations ;;
  found <- lift (includes visited key) ;;
  when (negb found)
    (visited' <- lift (push visited key) ;;
     text <- lift (JSON_stringify visited') ;;
     modify (setItem text) ;;;
     updateProgressUI v).

(** The entry script: the progress widgets are looked up, the bar is drawn
    once, and the API is installed.  A throw on the way is caught by the
    script's [try]/[catch], which reports it and installs nothing. *)
Definition loadProgress (v : Variant) (w : Window) : option Window :=
  match updateProgressUI v w with
  | Normal _ w' => Some (install (Some v) w')
  | Throw _ w' => Some w'
  | Unmodelled => None
  end.

(** The keys of the durable VisitedSet, when the item holds an array of
    strings (or is missing). *)
Definition as_key (v : json) : option string :=
  match v with
  | JString s => Some s
  | _ => None
  end.

Definition visitedKeys (w : Window) : option (list string) :=
  match getVisitedStations w with
  | Normal (JArray items) _ => mapM as_key items
  | _ => None
  end.

Definition visitedCount (w : Window) : nat :=
  match visitedKeys w with
  | Some keys => length keys
  | None => 0
  end.

(** The text [JSON.stringify] produces for an array of keys. *)
Definition keysText (keys : list string) : string :=
  "[" ++ join_items (map quote keys) ++ "]".

(** What [updateProgressUI] leaves behind when the store holds [keys]. *)
Definition published (v : Variant) (keys : list string) (w : Window) : Window :=
  let count := length keys in
  let w1 := publish ((Z.of_nat count # 1) / (Z.of_nat TOTAL_STATIONS # 1) * 100)%Q count w in
  match v with
  | Island =>
      if (TOTAL_STATIONS <=? count)%nat && negb (completionShown w1)
      then appendNotice w1 else w1
  | Crystal | Diorama => w1
  end.

Definition markAll (v : Variant) (calls : list (string * nat)) : M Window unit :=
  foldr (fun call rest => markStationVisited v call.1 call.2 ;;; rest) (ret tt) calls.

(** ** Static tables of the interaction manager *)

Module ElderVisits.

Record MathOption := { text : string; correct : bool }.

Record MathChallenge := {
  label : string;
  question : string;
  options : list MathOption;
  success : string
}.

(** One entry of the table [elderVisits] of ElderVisits.js. *)
Record ElderVisit := {
  id : nat;
  name : string;
  location : string;
  greeting : list string;
  math : MathChallenge
}.

End ElderVisits.
Import ElderVisits(ElderVisit, MathOption, MathChallenge).

Module Fire.

Record Experience := {
  title : string;
  url : string;
  message : option string;        (* null for the first fire *)
  buttonText : option string      (* not given for the first fire *)
}.

End Fire.

Module Station.

Record Experience := {
  title : string;
  subtitle : string;
  url : string;
  message : string;
  buttonText : string
}.

End Station.

Inductive StationKind := Herb | LogPile | Garden | Cart | Fishing | Memorial.

Inductive Category := Cabin | Fireplace | Single (k : StationKind).

#[global] Instance StationKind_eq_dec : EqDecision StationKind.
Proof. solve_decision. Defined.

#[global] Instance Category_eq_dec : EqDecision Category.
Proof. solve_decision. Defined.

Definition fireplaceExperiences : list Fire.Experience := [
  {| Fire.title := "The Infinite Loom";
     Fire.url := "experiences/infinite-loom.html";
     Fire.message := None;
     Fire.buttonText := None |};
  {| Fire.title := "L'esprit de Michif";
     Fire.url := "experiences/language-game.html";
     Fire.message := Some
       "Around the fire, young ones would sit with their Elders and learn the words of their ancestors. The Michif language—a beautiful blend of Cree, French, and other tongues—was passed down through stories, songs, and everyday conversation.<br><br>Step into this tradition and learn the spirit of the language.";
     Fire.buttonText := Some "Learn Michif →" |};
  {| Fire.title := "Sacred Medicines";
     Fire.url := "experiences/medicine-wheel.html";
     Fire.message := Some
       "The Métis people have always understood that the land provides everything needed for healing. Around fires like this, knowledge keepers would share the sacred gifts of Sage, Sweetgrass, Cedar, and Tobacco—each plant carrying its own spirit and purpose.";
     Fire.buttonText := Some "Discover the Medicines →" |};
  {| Fire.title := "Li Perlaj Michif";
     Fire.url := "experiences/beadwork.html";
     Fire.message := Some
       "Around the fire, nimble fingers would thread beads into intricate patterns—each design carrying mathematical precision and cultural meaning. The Métis were master beadworkers, creating the stunning floral designs that earned them the name 'The Flower Beadwork People.'";
     Fire.buttonText := Some "Explore Beadwork Math →" |};
  {| Fire.title := "Li Nòmb dan la Natiir";
     Fire.url := "experiences/nature-math.html";
     Fire.message := Some
       "The Elders knew that the Creator's wisdom was written in the patterns of nature. In the spiral of a sunflower, the branching of rivers, and the symmetry of flowers, they saw the same sacred mathematics that guided their beadwork and designs.";
     Fire.buttonText := Some "Explore Nature's Math →" |};
  {| Fire.title := "Li Serkl di Achimowin";
     Fire.url := "experiences/circle-of-stories.html";
     Fire.message := Some
       "In Métis tradition, knowledge is never held alone—it flows in circles, connecting all things. The Elders teach that every story links to another, every skill supports its neighbor, and every person is part of a greater web of kinship.";
     Fire.buttonText := Some "Enter the Circle →" |}
].

Definition herbExperiences : list Station.Experience := [
  {| Station.title := "Li Jardaen di Michinn";
     Station.subtitle := "The Medicine Garden";
     Station.url := "experiences/medicine-garden.html";
     Station.message :=
       "Hidden among the wild grasses lies a sacred gathering of healing plants. The Métis people knew every root, leaf, and flower—their gifts passed down through whispered teachings and careful observation.";
     Station.buttonText := "Enter the Garden →" |}
].

Definition logPileExperiences : list Station.Experience := [
  {| Station.title := "Li Bâtimân";
     Station.subtitle := "The Buildings of the Métis";
     Station.url := "experiences/architecture.html";
     Station.message :=
       "Among these carefully stacked logs lies the knowledge of generations of Métis builders. Our ancestors crafted homes that blended French-Canadian techniques with the practical wisdom needed for prairie life.";
     Station.buttonText := "Explore Architecture →" |}
].

Definition gardenExperiences : list Station.Experience := [
  {| Station.title := "Li Loo di Rivyair";
     Station.subtitle := "The River Lot System";
     Station.url := "experiences/farming.html";
     Station.message :=
       "The Métis developed a unique system of land division called the river lot. These long, narrow strips of land stretched back from the riverbank, ensuring every family had access to water, timber, and fertile soil.";
     Station.buttonText := "Plant the Fields →" |}
].

Definition cartExperiences : list Station.Experience := [
  {| Station.title := "La Sharette di Rivyair Roozh";
     Station.subtitle := "The Red River Cart";
     Station.url := "experiences/cart.html";
     Station.message :=
       "The Red River Cart was the heartbeat of Métis trade and travel. Its distinctive squeaking wheels could be heard for miles across the prairie—a sound that announced the arrival of traders, hunters, and families on the move.";
     Station.buttonText := "Explore the Cart →" |}
].

Definition fishingExperiences : list Station.Experience := [
  {| Station.title := "La Sizon di Pwason";
     Station.subtitle := "The Fishing Season";
     Station.url := "experiences/fishing.html";
     Station.message :=
       "Fishing was central to Métis life along the rivers and lakes of the prairies. The knowledge of when and where to fish—passed down through generations—ensured that communities thrived even in the harshest seasons.";
     Station.buttonText := "Cast Your Line →" |}
].

Definition memorialExperiences : list Station.Experience := [
  {| Station.title := "Li Mimwayr";
     Station.subtitle := "Remembering & Resilience";
     Station.url := "experiences/remembering.html";
     Station.message :=
       "In this quiet place, we pause to remember the history that shaped Métis communities—the trauma of residential schools, the loss of language and culture, and the incredible resilience that carried our people through.";
     Station.buttonText := "Enter with Care →" |}
].


(** ** The interaction manager: its fields and the widgets it builds *)

Inductive Handler :=
| HAdvance                     (* () => this.advanceDialogue() *)
| HClose                       (* () => this.closeDialogue() *)
| HComplete                    (* () => this.completeVisit() *)
| HExplore (stationType : string) (stationId : nat) (url : string).

Inductive Deferred :=
| ShowSuccess                  (* () => this.showSuccess() *)
| RemoveWrong (btn : nat).     (* () => btn.classList.remove('wrong') *)

Record OptionBtn := {
  textContent : string;
  classList : list string;
  isCorrect : bool               (* opt.correct, captured by the button's onclick *)
}.

Record Pointer := {
  clientX : Z; clientY : Z;
  rectLeft : Z; rectTop : Z; rectWidth : Z; rectHeight : Z
}.

(** [zone.userData]: the station type and its index under that type. *)
Record UserData := { type : string; index : nat }.

Record Manager := {
  controls : option bool;   (* this.controls, when given: controls.enabled *)
  mouse : option Pointer;   (* the pointer sample this.mouse was last set from *)
  currentVisit : option ElderVisit;
  currentCabinNumber : option nat;
  dialogueStep : nat;
  isDialogueOpen : bool;
  completedVisits : gset nat;   (* new Set() *)
  content : gmap string string;   (* textContent / innerHTML, by element id *)
  display : gmap string string;   (* style.display, by element id; unset when absent *)
  onclick : gmap string Handler;   (* onclick properties, by element id *)
  buttons : list OptionBtn;   (* every option button created so far *)
  optionsGrid : list nat;   (* the children of #options-grid, as indices into buttons *)
  timers : list Deferred   (* pending setTimeout callbacks, oldest first (all armed for 500 ms) *)
}.

Record Page := { win : Window; mgr : Manager }.

Definition set_controls (v : option bool) (m : Manager) : Manager :=
  {| controls := v;
     mouse := mouse m;
     currentVisit := currentVisit m;
     currentCabinNumber := currentCabinNumber m;
     dialogueStep := dialogueStep m;
     isDialogueOpen := isDialogueOpen m;
     completedVisits := completedVisits m;
     content := content m;
     display := display m;
     onclick := onclick m;
     buttons := buttons m;
     optionsGrid := optionsGrid m;
     timers := timers m |}.

Definition set_mouse (v : option Pointer) (m : Manager) : Manager :=
  {| controls := controls m;
     mouse := v;
     currentVisit := currentVisit m;
     currentCabinNumber := currentCabinNumber m;
     dialogueStep := dialogueStep m;
     isDialogueOpen := isDialogueOpen m;
     completedVisits := completedVisits m;
     content := content m;
     display := display m;
     onclick := onclick m;
     buttons := buttons m;
     optionsGrid := optionsGrid m;
     timers := timers m |}.

Definition set_currentVisit (v : option ElderVisit) (m : Manager) : Manager :=
  {| controls := controls m;
     mouse := mouse m;
     currentVisit := v;
     currentCabinNumber := currentCabinNumber m;
     dialogueStep := dialogueStep m;
     isDialogueOpen := isDialogueOpen m;
     completedVisits := completedVisits m;
     content := content m;
     display := display m;
     onclick := onclick m;
     buttons := buttons m;
     optionsGrid := optionsGrid m;
     timers := timers m |}.

Definition set_currentCabinNumber (v : option nat) (m : Manager) : Manager :=
  {| controls := controls m;
     mouse := mouse m;
     currentVisit := currentVisit m;
     currentCabinNumber := v;
     dialogueStep := dialogueStep m;
     isDialogueOpen := isDialogueOpen m;
     completedVisits := completedVisits m;
     content := content m;
     display := display m;
     onclick := onclick m;
     buttons := buttons m;
     optionsGrid := optionsGrid m;
     timers := timers m |}.

Definition set_dialogueStep (v : nat) (m : Manager) : Manager :=
  {| controls := controls m;
     mouse := mouse m;
     currentVisit := currentVisit m;
     currentCabinNumber := currentCabinNumber m;
     dialogueStep := v;
     isDialogueOpen := isDialogueOpen m;
     completedVisits := completedVisits m;
     content := content m;
     display := display m;
     onclick := onclick m;
     buttons := buttons m;
     optionsGrid := optionsGrid m;
     timers := timers m |}.

Definition set_isDialogueOpen (v : bool) (m : Manager) : Manager :=
  {| controls := controls m;
     mouse := mouse m;
     currentVisit := currentVisit m;
     currentCabinNumber := currentCabinNumber m;
     dialogueStep := dialogueStep m;
     isDialogueOpen := v;
     completedVisits := completedVisits m;
     content := content m;
     display := display m;
     onclick := onclick m;
     buttons := buttons m;
     optionsGrid := optionsGrid m;
     timers := timers m |}.

Definition set_completedVisits (v : gset nat) (m : Manager) : Manager :=
  {| controls := controls m;
     mouse := mouse m;
     currentVisit := currentVisit m;
     currentCabinNumber := currentCabinNumber m;
     dialogueStep := dialogueStep m;
     isDialogueOpen := isDialogueOpen m;
     completedVisits := v;
     content := content m;
     display := display m;
     onclick := onclick m;
     buttons := buttons m;
     optionsGrid := optionsGrid m;
     timers := timers m |}.

Definition set_content (v : gmap string string) (m : Manager) : Manager :=
  {| controls := controls m;
     mouse := mouse m;
     currentVisit := currentVisit m;
     currentCabinNumber := currentCabinNumber m;
     dialogueStep := dialogueStep m;
     isDialogueOpen := isDialogueOpen m;
     completedVisits := completedVisits m;
     content := v;
     display := display m;
     onclick := onclick m;
     buttons := buttons m;
     optionsGrid := optionsGrid m;
     timers := timers m |}.

Definition set_display (v : gmap string string) (m : Manager) : Manager :=
  {| controls := controls m;
     mouse := mouse m;
     currentVisit := currentVisit m;
     currentCabinNumber := currentCabinNumber m;
     dialogueStep := dialogueStep m;
     isDialogueOpen := isDialogueOpen m;
     completedVisits := completedVisits m;
     content := content m;
     display := v;
     onclick := onclick m;
     buttons := buttons m;
     optionsGrid := optionsGrid m;
     timers := timers m |}.

Definition set_onclick (v : gmap string Handler) (m : Manager) : Manager :=
  {| controls := controls m;
     mouse := mouse m;
     currentVisit := currentVisit m;
     currentCabinNumber := currentCabinNumber m;
     dialogueStep := dialogueStep m;
     isDialogueOpen := isDialogueOpen m;
     completedVisits := completedVisits m;
     content := content m;
     display := display m;
     onclick := v;
     buttons := buttons m;
     optionsGrid := optionsGrid m;
     timers := timers m |}.

Definition set_buttons (v : list OptionBtn) (m : Manager) : Manager :=
  {| controls := controls m;
     mouse := mouse m;
     currentVisit := currentVisit m;
     currentCabinNumber := currentCabinNumber m;
     dialogueStep := dialogueStep m;
     isDialogueOpen := isDialogueOpen m;
     completedVisits := completedVisits m;
     content := content m;
     display := display m;
     onclick := onclick m;
     buttons := v;
     optionsGrid := optionsGrid m;
     timers := timers m |}.

Definition set_optionsGrid (v : list nat) (m : Manager) : Manager :=
  {| controls := controls m;
     mouse := mouse m;
     currentVisit := currentVisit m;
     currentCabinNumber := currentCabinNumber m;
     dialogueStep := dialogueStep m;
     isDialogueOpen := isDialogueOpen m;
     completedVisits := completedVisits m;
     content := content m;
     display := display m;
     onclick := onclick m;
     buttons := buttons m;
     optionsGrid := v;
     timers := timers m |}.

Definition set_timers (v : list Deferred) (m : Manager) : Manager :=
  {| controls := controls m;
     mouse := mouse m;
     currentVisit := currentVisit m;
     currentCabinNumber := currentCabinNumber m;
     dialogueStep := dialogueStep m;
     isDialogueOpen := isDialogueOpen m;
     completedVisits := completedVisits m;
     content := content m;
     display := display m;
     onclick := onclick m;
     buttons := buttons m;
     optionsGrid := optionsGrid m;
     timers := v |}.

Definition enableControls (b : bool) (m : Manager) : Manager :=
  set_controls ((fun _ => b) <$> controls m) m.

Definition set_content_of (elem txt : string) (m : Manager) : Manager :=
  set_content (<[elem := txt]> (content m)) m.

Definition set_display_of (elem value : string) (m : Manager) : Manager :=
  set_display (<[elem := value]> (display m)) m.

Definition set_onclick_of (elem : string) (h : Handler) (m : Manager) : Manager :=
  set_onclick (<[elem := h]> (onclick m)) m.

Definition classList_add (c : string) (b : OptionBtn) : OptionBtn :=
  {| textContent := textContent b;
     classList := if bool_decide (c ∈ classList b) then classList b else classList b ++ [c];
     isCorrect := isCorrect b |}.

Definition classList_remove (c : string) (b : OptionBtn) : OptionBtn :=
  {| textContent := textContent b;
     classList := filter (fun x => x ≠ c) (classList b);
     isCorrect := isCorrect b |}.

Definition on_button (btn : nat) (f : OptionBtn -> OptionBtn) (m : Manager) : Manager :=
  set_buttons (alter f btn (buttons m)) m.

Definition setTimeout (d : Deferred) (m : Manager) : Manager :=
  set_timers (timers m ++ [d]) m.

(** [document.createElement('div')] for one option, appended to the grid. *)
Definition optionBtn (opt : MathOption) : OptionBtn :=
  {| textContent := ElderVisits.text opt;
     classList := ["option-btn"];
     isCorrect := ElderVisits.correct opt |}.

Definition createOption (m : Manager) (opt : MathOption) : Manager :=
  set_optionsGrid (optionsGrid m ++ [length (buttons m)])
    (set_buttons (buttons m ++ [optionBtn opt]) m).

Definition kindName (k : StationKind) : string :=
  match k with
  | Herb => "herb"
  | LogPile => "logpile"
  | Garden => "garden"
  | Cart => "cart"
  | Fishing => "fishing"
  | Memorial => "memorial"
  end.

Definition experiencesOf (k : StationKind) : list Station.Experience :=
  match k with
  | Herb => herbExperiences
  | LogPile => logPileExperiences
  | Garden => gardenExperiences
  | Cart => cartExperiences
  | Fishing => fishingExperiences
  | Memorial => memorialExperiences
  end.

Definition overlayOf (c : Category) : string :=
  match c with
  | Cabin => "dialogue-overlay"
  | Fireplace => "fireplace-overlay"
  | Single k => kindName k ++ "-overlay"
  end.

Definition exploreBtnOf (c : Category) : string :=
  match c with
  | Cabin => "continue-btn"
  | Fireplace => "fire-explore-btn"
  | Single k => kindName k ++ "-explore-btn"
  end.

Definition experienceOverlays : list Category :=
  [Fireplace; Single Herb; Single LogPile; Single Garden; Single Cart;
   Single Fishing; Single Memorial].

Definition shown (m : Manager) (c : Category) : bool :=
  bool_decide (display m !! overlayOf c = Some "flex").

Definition WELCOME_BACK : string := "Welcome back, friend! It's good to see you again.".

(** The manager as its constructor leaves it: the widgets hold the text of
    their templates, and only #math-section has an inline display. *)
Definition newManager (controls : option bool) : Manager :=
  {| controls := controls;
     mouse := None;
     currentVisit := None;
     currentCabinNumber := None;
     dialogueStep := 0;
     isDialogueOpen := false;
     completedVisits := ∅;
     content := list_to_map [
       ("speaker-name", ""); ("speaker-location", ""); ("story-text", "");
       ("math-label", ""); ("math-question", ""); ("continue-btn", "Continue →");
       ("fire-title", "Experience Station");
       ("fire-text", "Explore this station to learn more.");
       ("fire-explore-btn", "Explore →");
       ("herb-title", "Medicine Garden"); ("herb-subtitle", "Healing Traditions");
       ("herb-text", "Explore the healing plants."); ("herb-explore-btn", "Enter →");
       ("logpile-title", "Architecture"); ("logpile-subtitle", "Building Traditions");
       ("logpile-text", "Explore architecture."); ("logpile-explore-btn", "Explore →");
       ("garden-title", "River Lot"); ("garden-subtitle", "Farming Traditions");
       ("garden-text", "Learn about farming."); ("garden-explore-btn", "Plant →");
       ("cart-title", "Red River Cart"); ("cart-subtitle", "Trade & Travel");
       ("cart-text", "Explore the cart."); ("cart-explore-btn", "Explore →");
       ("fishing-title", "Fishing Season"); ("fishing-subtitle", "River Traditions");
       ("fishing-text", "Learn fishing traditions."); ("fishing-explore-btn", "Cast →");
       ("memorial-title", "Memorial"); ("memorial-subtitle", "Remembering & Resilience");
       ("memorial-text", "A space for reflection."); ("memorial-explore-btn", "Enter →")];
     display := {[ "math-section" := "none" ]};
     onclick := ∅;
     buttons := [];
     optionsGrid := [];
     timers := [] |}.

Definition set_win (w : Window) (p : Page) : Page := {| win := w; mgr := mgr p |}.

Definition onMgr (f : Manager -> Manager) : M Page unit :=
  modify (fun p => {| win := win p; mgr := f (mgr p) |}).

Definition inWindow {A} (m : M Window A) : M Page A :=
  fun p => match m (win p) with
           | Normal a w => Normal a (set_win w p)
           | Throw e w => Throw e (set_win w p)
           | Unmodelled => Unmodelled
           end.

Definition this : M Page Manager := fun p => Normal (mgr p) p.

(** [a || b] on strings: the empty string is falsy. *)
Definition js_or (a : option string) (b : string) : string :=
  match a with
  | Some (String c rest) => String c rest
  | _ => b
  end.

(** [table[i]] followed by a property read: a TypeError when out of range. *)
Definition entry {S A} (table : list A) (i : nat) : M S A :=
  match table !! i with
  | Some a => ret a
  | None => throw TypeError
  end.

(** ** The methods of IslandInteractionManager *)

Section Manager.

Variable elderVisits : list ElderVisit.

(** [this.currentVisit.<property>]: a TypeError while no visit is current. *)
Definition theVisit : M Page ElderVisit :=
  m <- this ;;
  match currentVisit m with
  | Some visit => ret visit
  | None => throw TypeError
  end.

Definition displayCurrentStep : M Page unit :=
  visit <- theVisit ;;
  m <- this ;;
  match ElderVisits.greeting visit !! dialogueStep m with
  | Some line =>
      onMgr (set_content_of "story-text" line) ;;;
      onMgr (set_content_of "continue-btn" "Continue →")
  | None => ret tt
  end.

Definition closeDialogue : M Page unit :=
  onMgr (set_display_of "dialogue-overlay" "none") ;;;
  onMgr (set_isDialogueOpen false) ;;;
  onMgr (set_currentVisit None) ;;;
  onMgr (enableControls true).

Definition showMathQuestion : M Page unit :=
  onMgr (set_content_of "story-text" "") ;;;
  onMgr (set_display_of "math-section" "block") ;;;
  visit <- theVisit ;;
  onMgr (set_content_of "math-label" (ElderVisits.label (ElderVisits.math visit))) ;;;
  onMgr (set_content_of "math-question" (ElderVisits.question (ElderVisits.math visit))) ;;;
  onMgr (set_display_of "continue-btn" "none") ;;;
  onMgr (set_optionsGrid []) ;;;
  onMgr (fun m => foldl createOption m (ElderVisits.options (ElderVisits.math visit))).

Definition advanceDialogue : M Page unit :=
  onMgr (fun m => set_dialogueStep (S (dialogueStep m)) m) ;;;
  visit <- theVisit ;;
  m <- this ;;
  if (dialogueStep m <? length (ElderVisits.greeting visit))%nat then displayCurrentStep
  else if (dialogueStep m =? length (ElderVisits.greeting visit))%nat then showMathQuestion
  else ret tt.

Definition startVisit (visitId : nat) : M Page unit :=
  onMgr (set_currentVisit (elderVisits !! visitId)) ;;;
  onMgr (set_currentCabinNumber (Some (visitId + 1)%nat)) ;;;
  onMgr (set_dialogueStep 0) ;;;
  onMgr (set_isDialogueOpen true) ;;;
  onMgr (enableControls false) ;;;
  visit <- theVisit ;;
  onMgr (set_content_of "speaker-name" (ElderVisits.name visit)) ;;;
  onMgr (set_content_of "speaker-location" (ElderVisits.location visit)) ;;;
  onMgr (set_display_of "math-section" "none") ;;;
  onMgr (set_display_of "continue-btn" "block") ;;;
  m <- this ;;
  (if bool_decide (visitId ∈ completedVisits m) then
     onMgr (set_content_of "story-text" WELCOME_BACK) ;;;
     onMgr (set_content_of "continue-btn" "Leave →") ;;;
     onMgr (set_onclick_of "continue-btn" HClose)
   else
     displayCurrentStep ;;;
     onMgr (set_onclick_of "continue-btn" HAdvance)) ;;;
  onMgr (set_display_of "dialogue-overlay" "flex").

Definition handleAnswer (btn : nat) (isCorrect : bool) : M Page unit :=
  if isCorrect then
    onMgr (on_button btn (classList_add "correct")) ;;;
    onMgr (setTimeout ShowSuccess)
  else
    onMgr (on_button btn (classList_add "wrong")) ;;;
    onMgr (setTimeout (RemoveWrong btn)).

Definition showSuccess : M Page unit :=
  onMgr (set_display_of "math-section" "none") ;;;
  visit <- theVisit ;;
  onMgr (set_content_of "story-text" (ElderVisits.success (ElderVisits.math visit))) ;;;
  onMgr (set_display_of "continue-btn" "block") ;;;
  onMgr (set_content_of "continue-btn" "Thank you →") ;;;
  onMgr (set_onclick_of "continue-btn" HComplete).

(** [if (window.metisPrairieProgress) window.metisPrairieProgress.markVisited(..)] *)
Definition markVisited (stationType : string) (stationId : nat) : M Page unit :=
  p <- get ;;
  match progressApi (win p) with
  | Some v => inWindow (markStationVisited v stationType stationId)
  | None => ret tt
  end.

(** [currentCabinNumber] is a number whenever a visit is current: both are
    set by [startVisit] and nothing else sets [currentVisit] to a visit. *)
Definition completeVisit : M Page unit :=
  visit <- theVisit ;;
  onMgr (fun m => set_completedVisits ({[ElderVisits.id visit]} ∪ completedVisits m) m) ;;;
  m <- this ;;
  match currentCabinNumber m with
  | Some n => markVisited "cabin" n
  | None => fun _ => Unmodelled
  end ;;;
  closeDialogue.

Definition openFireplacePopup (fireId : nat) : M Page unit :=
  onMgr (enableControls false) ;;;
  fire <- entry fireplaceExperiences fireId ;;
  onMgr (set_content_of "fire-title" (js_or (Some (Fire.title fire)) "Experience Station")) ;;;
  onMgr (set_content_of "fire-text"
           (js_or (Fire.message fire) "Explore this station to learn more.")) ;;;
  onMgr (set_content_of "fire-explore-btn" (js_or (Fire.buttonText fire) "Explore →")) ;;;
  onMgr (set_onclick_of "fire-explore-btn" (HExplore "fire" fireId (Fire.url fire))) ;;;
  onMgr (set_display_of "fireplace-overlay" "flex").

Definition closeFireplacePopup : M Page unit :=
  onMgr (set_display_of "fireplace-overlay" "none") ;;;
  onMgr (enableControls true).

(** The six single-station popups ([openHerbPopup], [openLogPilePopup],
    [openGardenPopup], [openCartPopup], [openFishingPopup],
    [openMemorialPopup]) are the same method over different widgets. *)
Definition openPopup (k : StationKind) (stationId : nat) : M Page unit :=
  onMgr (enableControls false) ;;;
  item <- entry (experiencesOf k) stationId ;;
  onMgr (set_content_of (kindName k ++ "-title") (Station.title item)) ;;;
  onMgr (set_content_of (kindName k ++ "-subtitle") (Station.subtitle item)) ;;;
  onMgr (set_content_of (kindName k ++ "-text") (Station.message item)) ;;;
  onMgr (set_content_of (kindName k ++ "-explore-btn") (Station.buttonText item)) ;;;
  onMgr (set_onclick_of (kindName k ++ "-explore-btn")
           (HExplore (kindName k) stationId (Station.url item))) ;;;
  onMgr (set_display_of (kindName k ++ "-overlay") "flex").

Definition closePopup (k : StationKind) : M Page unit :=
  onMgr (set_display_of (kindName k ++ "-overlay") "none") ;;;
  onMgr (enableControls true).

Definition openHerbPopup := openPopup Herb.
Definition openLogPilePopup := openPopup LogPile.
Definition openGardenPopup := openPopup Garden.
Definition openCartPopup := openPopup Cart.
Definition openFishingPopup := openPopup Fishing.
Definition openMemorialPopup := openPopup Memorial.
Definition closeHerbPopup := closePopup Herb.
Definition closeLogPilePopup := closePopup LogPile.
Definition closeGardenPopup := closePopup Garden.
Definition closeCartPopup := closePopup Cart.
Definition closeFishingPopup := closePopup Fishing.
Definition closeMemorialPopup := closePopup Memorial.

Definition open (c : Category) (stationId : nat) : M Page unit :=
  match c with
  | Cabin => startVisit stationId
  | Fireplace => openFireplacePopup stationId
  | Single k => openPopup k stationId
  end.

Definition close (c : Category) : M Page unit :=
  match c with
  | Cabin => closeDialogue
  | Fireplace => closeFireplacePopup
  | Single k => closePopup k
  end.

(** The pick itself is the ray caster's: [intersects] is what
    [raycaster.intersectObjects(this.interactables)] returned, nearest
    first, as the [userData] of the zones that were hit. *)
Definition onCanvasClick (event : Pointer) (intersects : list UserData) : M Page unit :=
  m <- this ;;
  if isDialogueOpen m then ret tt
  else if existsb (shown m) experienceOverlays then ret tt
  else
    onMgr (set_mouse (Some event)) ;;;
    match intersects with
    | [] => ret tt
    | userData :: _ =>
        if String.eqb (type userData) "cabin" then startVisit (index userData)
        else if String.eqb (type userData) "fireplace" then openFireplacePopup (index userData)
        else if String.eqb (type userData) "herb" then openHerbPopup (index userData)
        else if String.eqb (type userData) "logpile" then openLogPilePopup (index userData)
        else if String.eqb (type userData) "garden" then openGardenPopup (index userData)
        else if String.eqb (type userData) "cart" then openCartPopup (index userData)
        else if String.eqb (type userData) "fishing" then openFishingPopup (index userData)
        else if String.eqb (type userData) "memorial" then openMemorialPopup (index userData)
        else ret tt
    end.

Definition runHandler (h : Handler) : M Page unit :=
  match h with
  | HAdvance => advanceDialogue
  | HClose => closeDialogue
  | HComplete => completeVisit
  | HExplore stationType stationId url =>
      markVisited stationType stationId ;;;
      inWindow (modify (navigate url))
  end.

(** The element's [onclick] property, read when the click reaches it. *)
Definition clickProperty (elem : string) : M Page unit :=
  m <- this ;;
  match onclick m !! elem with
  | Some h => runHandler h
  | None => ret tt
  end.

Definition clickOption (btn : nat) : M Page unit :=
  m <- this ;;
  match buttons m !! btn with
  | Some b => handleAnswer btn (isCorrect b)
  | None => ret tt
  end.

(** The oldest pending callback runs. *)
Definition fireTimer : M Page unit :=
  m <- this ;;
  match timers m with
  | [] => ret tt
  | d :: rest =>
      onMgr (set_timers rest) ;;;
      match d with
      | ShowSuccess => showSuccess
      | RemoveWrong btn => onMgr (on_button btn (classList_remove "wrong"))
      end
  end.

Definition onEscape : M Page unit :=
  closeDialogue ;;;
  closeFireplacePopup ;;;
  closeHerbPopup ;;;
  closeLogPilePopup ;;;
  closeGardenPopup ;;;
  closeCartPopup ;;;
  closeFishingPopup ;;;
  closeMemorialPopup.

(** ** Events (setupEvents)

    Each event runs the listeners registered for it, in registration
    order; an exception in one listener is reported and the next one still
    runs.  The Continue button carries the listener added in [setupEvents]
    and, after it, whatever its [onclick] property holds. *)

Inductive Event :=
| CanvasClick (event : Pointer) (intersects : list UserData)
| ContinueClick
| Dismiss (c : Category)          (* close button, or a click on the backdrop *)
| OptionClick (btn : nat)
| ExploreClick (c : Category)
| EscapeKey
| TimerFires.

Definition listeners (ev : Event) : list (M Page unit) :=
  match ev with
  | CanvasClick event intersects => [onCanvasClick event intersects]
  | ContinueClick => [advanceDialogue; clickProperty "continue-btn"]
  | Dismiss c => [close c]
  | OptionClick btn => [clickOption btn]
  | ExploreClick Cabin => []
  | ExploreClick c => [clickProperty (exploreBtnOf c)]
  | EscapeKey => [onEscape]
  | TimerFires => [fireTimer]
  end.

Record Reaction := { reported : list JsError; after : Page }.

Fixpoint dispatch (ls : list (M Page unit)) (errors : list JsError) (p : Page)
  : option Reaction :=
  match ls with
  | [] => Some {| reported := errors; after := p |}
  | l :: rest =>
      match l p with
      | Normal _ p' => dispatch rest errors p'
      | Throw e p' => dispatch rest (errors ++ [e]) p'
      | Unmodelled => None
      end
  end.

Definition deliver (ev : Event) (p : Page) : option Reaction :=
  dispatch (listeners ev) [] p.

Fixpoint run (evs : list Event) (p : Page) : option Reaction :=
  match evs with
  | [] => Some {| reported := []; after := p |}
  | ev :: rest =>
      match deliver ev p with
      | Some r =>
          match run rest (after r) with
          | Some r' => Some {| reported := reported r ++ reported r'; after := after r' |}
          | None => None
          end
      | None => None
      end
  end.

(** The page once the entry script of variant [v] has run: the manager is
    constructed first, then the progress bar is drawn and the API
    installed. *)
Definition loadPage (v : Variant) (controls : option bool) (w : Window) : option Page :=
  match loadProgress v w with
  | Some w' => Some {| win := w'; mgr := newManager controls |}
  | None => None
  end.

(** ** The dialogue state machine read off the manager *)

Inductive Phase :=
| Closed
| Greeting (step : nat)
| MathChallenge
| Success
| AlreadyVisited.

Definition phase (m : Manager) : Phase :=
  if negb (isDialogueOpen m) then Closed
  else match onclick m !! "continue-btn" with
       | Some HClose => AlreadyVisited
       | Some HComplete => Success
       | _ => if bool_decide (display m !! "math-section" = Some "block")
              then MathChallenge else Greeting (dialogueStep m)
       end.

Definition openOverlays (m : Manager) : nat :=
  length (filter (fun c => shown m c = true) (Cabin :: experienceOverlays)).

(** An id under which the tables hold a station of category [c]. *)
Definition validStation (c : Category) (stationId : nat) : Prop :=
  match c with
  | Cabin => is_Some (elderVisits !! stationId)
  | Fireplace => is_Some (fireplaceExperiences !! stationId)
  | Single k => is_Some (experiencesOf k !! stationId)
  end.

Fixpoint times (n : nat) (m : M Page unit) : M Page unit :=
  match n with
  | O => ret tt
  | S n => m ;;; times n m
  end.

(** The complete cabin flow: start, one advance per greeting line, pick
    option button [btn], let the feedback timer fire, acknowledge. *)
Definition cabinFlow (advances localId btn : nat) : M Page unit :=
  startVisit localId ;;;
  times advances advanceDialogue ;;;
  clickOption btn ;;;
  fireTimer ;;;
  clickProperty "continue-btn".

End Manager.

(** A window at page load: nothing shown, nothing installed yet. *)
Definition freshWindow (item : option string) (widgets : bool) : Window :=
  {| progressItem := item;
     completionShown := false;
     progressApi := None;
     progressBar := if widgets then Some None else None;
     progressCount := if widgets then Some None else None;
     notices := 0;
     completionStyles := false;
     href := None |}.

(** The window between two calls of the API of variant [v], in a session
    whose store holds [keys]: on the island page the completion flag is up
    and one notice has been appended exactly when all stations are in. *)
Definition settled (v : Variant) (keys : list string) (w : Window) : Prop :=
  visitedKeys w = Some keys /\
  match v with
  | Island =>
      completionShown w = (TOTAL_STATIONS <=? length keys)%nat /\
      notices w = (if (TOTAL_STATIONS <=? length keys)%nat then 1 else 0)%nat
  | Crystal | Diorama => notices w = 0%nat
  end.

(** The marks the manager makes for the stations of a world: five cabins
    (numbered from one), six fires and the six single stations. *)
Definition worldStations : list (string * nat) :=
  [("cabin", 1); ("cabin", 2); ("cabin", 3); ("cabin", 4); ("cabin", 5);
   ("fire", 0); ("fire", 1); ("fire", 2); ("fire", 3); ("fire", 4); ("fire", 5);
   ("herb", 0); ("logpile", 0); ("garden", 0); ("cart", 0); ("fishing", 0);
   ("memorial", 0)]%nat.

(** Eighteen marks through [window.metisPrairieProgress]: the stations of a
    world and one more key. *)
Definition eighteenMarks : list (string * nat) :=
  worldStations ++ [("cabin", 6%nat)].

(** What the user sees in the story field: nothing while the dialogue
    overlay is hidden. *)
Definition visibleStory (m : Manager) : option string :=
  if shown m Cabin then content m !! "story-text" else None.

(** ** A page to run examples on

    A table with one visit of two greeting lines and a challenge with one
    correct option among two, on the island page of a first-time visitor. *)

Definition sampleVisit : ElderVisit :=
  {| ElderVisits.id := 0;
     ElderVisits.name := "Elder Marie";
     ElderVisits.location := "Red River";
     ElderVisits.greeting := ["Taanshi!"; "Sit with me by the fire."];
     ElderVisits.math :=
       {| ElderVisits.label := "Counting";
          ElderVisits.question := "2 + 3 = ?";
          ElderVisits.options :=
            [ {| ElderVisits.text := "5"; ElderVisits.correct := true |};
              {| ElderVisits.text := "6"; ElderVisits.correct := false |} ];
          ElderVisits.success := "Marsii!" |} |}.

Definition sampleVisits : list ElderVisit := [sampleVisit].

Definition samplePage : Page :=
  {| win := install (Some Island) (published Island [] (freshWindow None true));
     mgr := newManager (Some true) |}.

Definition samplePointer : Pointer :=
  {| clientX := 400; clientY := 300;
     rectLeft := 0; rectTop := 0; rectWidth := 800; rectHeight := 600 |}.

Definition hit (type : string) (index : nat) : Event :=
  CanvasClick samplePointer [{| type := type; index := index |}].

(** ** Retrying the math challenge *)

Definition unmark : OptionBtn -> OptionBtn := classList_remove "wrong".

(** The events of a visitor who keeps picking incorrect options of the
    challenge shown by manager [m], while the feedback timers run out. *)
Definition isRetry (m : Manager) (ev : Event) : Prop :=
  match ev with
  | TimerFires => True
  | OptionClick btn => exists b, buttons m !! btn = Some b /\ isCorrect b = false
  | _ => False
  end.

(** [p'] is [p] up to the marks on the option buttons and the timers that
    will take them off. *)
Definition retrying (p p' : Page) : Prop :=
  win p' = win p /\
  set_timers [] (set_buttons [] (mgr p')) = set_timers [] (set_buttons [] (mgr p)) /\
  unmark <$> buttons (mgr p') = buttons (mgr p) /\
  Forall (fun d => exists btn, d = RemoveWrong btn) (timers (mgr p')) /\
  forall btn b, buttons (mgr p') !! btn = Some b -> "wrong" ∈ classList b ->
                RemoveWrong btn ∈ timers (mgr p').

(** The sample page once the challenge of the sample visit is shown. *)
Definition sampleChallenge : Page :=
  match run sampleVisits [hit "cabin" 0; ContinueClick] samplePage with
  | Some r => after r
  | None => samplePage
  end.

(** A visit in progress on page [p], started from page [p0]: the session
    fields are those of the visit, [extra] option buttons have been created,
    and nothing else that the rest of the flow reads has moved. *)
Definition visiting (visit : ElderVisit) (localId step : nat) (extra : list OptionBtn)
  (p0 p : Page) : Prop :=
  win p = win p0 /\
  currentVisit (mgr p) = Some visit /\
  currentCabinNumber (mgr p) = Some (localId + 1)%nat /\
  dialogueStep (mgr p) = step /\
  timers (mgr p) = timers (mgr p0) /\
  completedVisits (mgr p) = completedVisits (mgr p0) /\
  controls (mgr p) = (fun _ => false) <$> controls (mgr p0) /\
  buttons (mgr p) = (buttons (mgr p0) ++ extra)%list.

(** The page a method call returns, for examples on concrete pages. *)
Definition returned (c : Completion Page unit) : Page :=
  match c with
  | Normal _ p | Throw _ p => p
  | Unmodelled => samplePage
  end.

Definition fireReopened : Page :=
  returned ((open sampleVisits Fireplace 1 ;;; close Fireplace) samplePage).

Definition cabinReopened : Page :=
  returned ((open sampleVisits Cabin 0 ;;; close Cabin) samplePage).

Definition closedDuringDelay : option Reaction :=
  run sampleVisits
    [hit "cabin" 0; ContinueClick; OptionClick 0; Dismiss Cabin; TimerFires] samplePage.

(** ** Pages and runs for the examples on picking and on the completed set *)

(** The reaction to a run of events on the sample page. *)
Definition sampleRun (evs : list Event) : Reaction :=
  default {| reported := []; after := samplePage |} (run sampleVisits evs samplePage).

(** The island page loaded over a store that already holds the key of the
    first cabin. *)
Definition storedWindow : Window := freshWindow (Some (keysText ["cabin-1"])) true.

Definition storedPage : Page :=
  {| win := install (Some Island) (published Island ["cabin-1"] storedWindow);
     mgr := newManager (Some true) |}.

(** ** Relations between the page before and after a listener *)

(** Every exit of [m], normal or by a throw, is related to its entry. *)
Definition respects {A} (R : Page -> Page -> Prop) (m : M Page A) : Prop :=
  forall p, match m p with
            | Normal _ p' | Throw _ p' => R p p'
            | Unmodelled => True
            end.

(** No overlay appears, and the dialogue flag stays up under a dialogue
    overlay that stays. *)
Definition calm (p p' : Page) : Prop :=
  (forall c, shown (mgr p') c = true -> shown (mgr p) c = true) /\
  (isDialogueOpen (mgr p) = true -> shown (mgr p') Cabin = true ->
   isDialogueOpen (mgr p') = true).

(** At most one overlay is displayed, and the flag [isDialogueOpen] is up
    whenever it is the dialogue overlay. *)
Definition exclusive (p : Page) : Prop :=
  (openOverlays (mgr p) <= 1)%nat /\
  (shown (mgr p) Cabin = true -> isDialogueOpen (mgr p) = true).

(** The explore buttons are bound to explore actions only. *)
Definition tidy (m : Manager) : Prop :=
  forall c h, c ≠ Cabin -> onclick m !! exploreBtnOf c = Some h ->
              exists stationType stationId url, h = HExplore stationType stationId url.

Definition sameCompleted (p p' : Page) : Prop :=
  completedVisits (mgr p') = completedVisits (mgr p) /\
  (tidy (mgr p) -> tidy (mgr p')).

Definition sameSession (p p' : Page) : Prop :=
  completedVisits (mgr p') = completedVisits (mgr p) /\
  onclick (mgr p') = onclick (mgr p) /\
  currentVisit (mgr p') = currentVisit (mgr p).

(** ** The stations of a world (getStationPositions, setupInteractables) *)

Module World.

Record Position := { x : Z; y : Z; z : Z }.

(** [getStationPositions().cabins] of IslandWorld, CrystalWorld and
    DioramaWorld. *)
Definition islandCabins : list Position :=
  [ {| x := -60; y := 15; z := -40 |}; {| x := 60; y := 10; z := -40 |};
    {| x := -80; y := 5; z := 40 |}; {| x := 80; y := 8; z := 40 |};
    {| x := 0; y := 20; z := -80 |} ]%Z.

Definition crystalCabins : list Position :=
  [ {| x := -50; y := 8; z := -30 |}; {| x := 50; y := 8; z := -30 |};
    {| x := -70; y := 8; z := 30 |}; {| x := 70; y := 8; z := 30 |};
    {| x := 0; y := 8; z := -60 |} ]%Z.

Definition dioramaCabins : list Position :=
  [ {| x := -35; y := 5; z := -25 |}; {| x := 35; y := 5; z := -25 |};
    {| x := -45; y := 5; z := 25 |}; {| x := 45; y := 5; z := 25 |};
    {| x := 0; y := 5; z := -45 |} ]%Z.

End World.

(** The [userData] of the zones a [forEach] over [table] creates. *)
Definition zonesOf {A} (type : string) (table : list A) : list UserData :=
  imap (fun index _ => {| type := type; index := index |}) table.

(** [this.interactables] as [setupInteractables] fills it: one zone per
    cabin position and per entry of the experience tables. *)
Definition setupInteractables (cabinPositions : list World.Position) : list UserData :=
  (zonesOf "cabin" cabinPositions ++
   zonesOf "fireplace" fireplaceExperiences ++
   zonesOf "herb" herbExperiences ++
   zonesOf "logpile" logPileExperiences ++
   zonesOf "garden" gardenExperiences ++
   zonesOf "cart" cartExperiences ++
   zonesOf "fishing" fishingExperiences ++
   zonesOf "memorial" memorialExperiences)%list.

(** The events a page with these zones can see: the ray caster only
    returns zones of [this.interactables]. *)
Definition fromZones (zones : list UserData) (ev : Event) : Prop :=
  match ev with
  | CanvasClick _ intersects => Forall (fun userData => userData ∈ zones) intersects
  | _ => True
  end.

(** The category a zone opens, and the type under which its station is
    marked: cabins by their number from one, fires as [fire]. *)
Definition categoryOf (type : string) : option Category :=
  if String.eqb type "cabin" then Some Cabin
  else if String.eqb type "fireplace" then Some Fireplace
  else if String.eqb type "herb" then Some (Single Herb)
  else if String.eqb type "logpile" then Some (Single LogPile)
  else if String.eqb type "garden" then Some (Single Garden)
  else if String.eqb type "cart" then Some (Single Cart)
  else if String.eqb type "fishing" then Some (Single Fishing)
  else if String.eqb type "memorial" then Some (Single Memorial)
  else None.

Definition markOf (c : Category) (stationId : nat) : string :=
  match c with
  | Cabin => stationKey "cabin" (stationId + 1)
  | Fireplace => stationKey "fire" stationId
  | Single k => stationKey (kindName k) stationId
  end.

Definition zoneKey (userData : UserData) : string :=
  match categoryOf (type userData) with
  | Some c => markOf c (index userData)
  | None => ""
  end.

Definition urlOf (c : Category) (stationId : nat) : option string :=
  match c with
  | Cabin => None
  | Fireplace => Fire.url <$> fireplaceExperiences !! stationId
  | Single k => Station.url <$> experiencesOf k !! stationId
  end.

(** ** The welcome modal of the entry scripts *)

Record Welcome := {
  visitedItem : option string;     (* localStorage item 'metisPrairieVisited' *)
  welcomeModal : option (list string);   (* #welcome-modal, if present: its class list *)
  beginBtn : bool;                 (* #welcome-begin-btn is present *)
  worldControls : bool             (* world.controls.enabled *)
}.

Definition truthy (item : option string) : bool :=
  match item with
  | Some (String _ _) => true
  | _ => false
  end.

Definition tokens_add (c : string) (classes : list string) : list string :=
  if bool_decide (c ∈ classes) then classes else (classes ++ [c])%list.

Definition tokens_remove (c : string) (classes : list string) : list string :=
  filter (fun x => x ≠ c) classes.

Definition onModal (f : list string -> list string) (s : Welcome) : Welcome :=
  {| visitedItem := visitedItem s; welcomeModal := f <$> welcomeModal s;
     beginBtn := beginBtn s; worldControls := worldControls s |}.

Definition setVisited (text : string) (s : Welcome) : Welcome :=
  {| visitedItem := Some text; welcomeModal := welcomeModal s;
     beginBtn := beginBtn s; worldControls := worldControls s |}.

Definition setWorldControls (b : bool) (s : Welcome) : Welcome :=
  {| visitedItem := visitedItem s; welcomeModal := welcomeModal s;
     beginBtn := beginBtn s; worldControls := b |}.

(** [if (!hasVisited && welcomeModal) { ... }] at page load. *)
Definition welcomeOnLoad : M Welcome unit :=
  s <- get ;;
  if negb (truthy (visitedItem s)) && bool_decide (is_Some (welcomeModal s)) then
    modify (onModal (tokens_remove "hidden")) ;;;
    modify (setWorldControls false)
  else ret tt.

(** The click listener of the Begin button; it is registered only when the
    button exists, and [welcomeModal.classList] throws on a missing modal. *)
Definition beginClick : M Welcome unit :=
  s <- get ;;
  if beginBtn s then
    match welcomeModal s with
    | Some _ =>
        modify (onModal (tokens_add "hidden")) ;;;
        modify (setVisited "true") ;;;
        modify (setWorldControls true)
    | None => throw TypeError
    end
  else ret tt.

(** ** A session that records stations of the world only *)

(** [h] records nothing but a key of [allowed]. *)
Definition goodHandler (allowed : list string) (h : Handler) : Prop :=
  match h with
  | HExplore stationType stationId _ => stationKey stationType stationId ∈ allowed
  | _ => True
  end.

(** The store holds keys of [allowed], each once, and no notice has been
    shown. *)
Definition storeWithin (allowed : list string) (w : Window) : Prop :=
  exists keys,
    visitedKeys w = Some keys /\
    NoDup keys /\
    (forall key, key ∈ keys -> key ∈ allowed) /\
    notices w = 0%nat /\
    completionShown w = false.

(** The page can only record keys of [allowed]: the store holds such keys,
    the bound handlers and the cabin number on file would record such
    keys. *)
Definition withinWorld (allowed : list string) (p : Page) : Prop :=
  storeWithin allowed (win p) /\
  (forall elem h, onclick (mgr p) !! elem = Some h -> goodHandler allowed h) /\
  (forall n, currentCabinNumber (mgr p) = Some n -> stationKey "cabin" n ∈ allowed).

(** A listener that leaves the window alone and binds or files nothing
    that would record a key outside [allowed]. *)
Definition zoned (allowed : list string) (p p' : Page) : Prop :=
  win p' = win p /\
  (forall elem h, onclick (mgr p') !! elem = Some h ->
                  onclick (mgr p) !! elem = Some h \/ goodHandler allowed h) /\
  (forall n, currentCabinNumber (mgr p') = Some n ->
             currentCabinNumber (mgr p) = Some n \/ stationKey "cabin" n ∈ allowed).


(** ** Relations and invariants of the further properties *)

Definition percentageOf (count : nat) : Q :=
  ((Z.of_nat count # 1) / (Z.of_nat TOTAL_STATIONS # 1) * 100)%Q.

(** The counter and the bar show the stored keys of [w], over the widgets
    that [w0] has. *)
Definition inStep (w0 : Window) (keys : list string) (w : Window) : Prop :=
  visitedKeys w = Some keys /\
  progressCount w = (fun _ => Some (length keys)) <$> progressCount w0 /\
  progressBar w = (fun _ => Some (percentageOf (length keys))) <$> progressBar w0.

(** The window is the same up to the address navigated to. *)
Definition awayFrom (w w' : Window) : Prop :=
  w' = w \/ exists url, w' = navigate url w.

Definition storeKept (p p' : Page) : Prop :=
  progressApi (win p) = None -> awayFrom (win p) (win p').

Definition windowKept (p p' : Page) : Prop := win p' = win p.

Definition sameWindow (p p' : Page) : Prop :=
  win p' = win p /\ onclick (mgr p') = onclick (mgr p).

Definition flagKept (p p' : Page) : Prop :=
  isDialogueOpen (mgr p') = isDialogueOpen (mgr p).

(** What [advanceDialogue] leaves alone. *)
Definition sessionKept (p p' : Page) : Prop :=
  win p' = win p /\
  onclick (mgr p') = onclick (mgr p) /\
  currentVisit (mgr p') = currentVisit (mgr p) /\
  currentCabinNumber (mgr p') = currentCabinNumber (mgr p) /\
  completedVisits (mgr p') = completedVisits (mgr p) /\
  controls (mgr p') = controls (mgr p) /\
  isDialogueOpen (mgr p') = isDialogueOpen (mgr p).

Definition keeps (I : Page -> Prop) (l : M Page unit) : Prop :=
  forall p, I p -> match l p with
                   | Normal _ p' | Throw _ p' => I p'
                   | Unmodelled => True
                   end.

(** The arguments with which the station of category [c] at [stationId]
    calls [markVisited]. *)
Definition markArgs (c : Category) (stationId : nat) : string * nat :=
  match c with
  | Cabin => ("cabin", (stationId + 1)%nat)
  | Fireplace => ("fire", stationId)
  | Single k => (kindName k, stationId)
  end.

Definition zoneMark (userData : UserData) : string * nat :=
  match categoryOf (type userData) with
  | Some c => markArgs c (index userData)
  | None => (type userData, index userData)
  end.

(** ** Pages for the examples of the further properties *)

Definition runOn (p : Page) (evs : list Event) : Reaction :=
  default {| reported := []; after := p |} (run sampleVisits evs p).

(** The island page loaded over an item that is not JSON: the entry script
    has caught the error and the progress API is not installed. *)
Definition corruptPage : Page :=
  {| win := freshWindow (Some "oops") true; mgr := newManager (Some true) |}.

(** The sample page on the first greeting line, on the success screen, and
    after the overlay was closed while the success callback was pending. *)
Definition greetingPage : Page := after (sampleRun [hit "cabin" 0]).

Definition successPage : Page :=
  after (sampleRun [hit "cabin" 0; ContinueClick; OptionClick 0; TimerFires]).

Definition delayPage : Page :=
  after (sampleRun [hit "cabin" 0; ContinueClick; OptionClick 0; Dismiss Cabin]).

(** A table with a visit for each of the five cabins of a world. *)
Definition fiveVisits : list ElderVisit :=
  map (fun i => {| ElderVisits.id := i;
                   ElderVisits.name := ElderVisits.name sampleVisit;
                   ElderVisits.location := ElderVisits.location sampleVisit;
                   ElderVisits.greeting := ElderVisits.greeting sampleVisit;
                   ElderVisits.math := ElderVisits.math sampleVisit |}) (seq 0 5).

Definition gardenZone : UserData := {| type := "garden"; index := 0 |}.

Definition tourEvents : list Event :=
  [hit "cabin" 0; ContinueClick; OptionClick 0; TimerFires; ContinueClick;
   hit "fireplace" 1; ExploreClick Fireplace].

(** A first-time visitor on a page whose modal starts hidden. *)
Definition firstVisit : Welcome :=
  {| visitedItem := None; welcomeModal := Some ["modal"; "hidden"];
     beginBtn := true; worldControls := true |}.

(** A visit without greeting lines. *)
Definition silentVisit : ElderVisit :=
  {| ElderVisits.id := 0;
     ElderVisits.name := ElderVisits.name sampleVisit;
     ElderVisits.location := ElderVisits.location sampleVisit;
     ElderVisits.greeting := [];
     ElderVisits.math := ElderVisits.math sampleVisit |}.

(** * Properties *)

(** ** JSON: what the store writes, it reads back *)

Lemma append_cons (x : ascii) (a b : string) : String x a ++ b = String x (a ++ b).
Proof. reflexivity. Qed.

Lemma append_empty (b : string) : "" ++ b = b.
Proof. reflexivity. Qed.

Lemma append_assoc (a b c : string) : (a ++ b) ++ c = a ++ (b ++ c).
Proof.
  induction a as [|x a IH]; [reflexivity|].
  rewrite !append_cons. f_equal. exact IH.
Qed.

Lemma length_append (a b : string) :
  String.length (a ++ b) = (String.length a + String.length b)%nat.
Proof.
  induction a as [|x a IH]; [reflexivity|].
  rewrite append_cons. cbn [String.length]. now rewrite IH.
Qed.

Lemma parse_chars_escape_char (c : ascii) (tail : string) :
  parse_chars (escape_char c ++ tail)
  = andThen (parse_chars tail) (fun t r => Parsed (String c t) r).
Proof.
  destruct c as [[] [] [] [] [] [] [] []]; reflexivity.
Qed.

Lemma parse_chars_escape (s rest : string) :
  parse_chars (escape s ++ String dquote rest) = Parsed s rest.
Proof.
  induction s as [|c s IH]; [reflexivity|].
  cbn [escape]. rewrite append_assoc, parse_chars_escape_char, IH. reflexivity.
Qed.

Lemma quote_append (s tail : string) :
  quote s ++ tail = String dquote (escape s ++ String dquote tail).
Proof. unfold quote. now rewrite append_cons, append_assoc. Qed.

Lemma parse_value_quote (fuel : nat) (s tail : string) :
  parse_value (S fuel) (quote s ++ tail) = Parsed (JString s) tail.
Proof.
  rewrite quote_append. cbn [parse_value skip_ws].
  change (is_ws dquote) with false. cbn iota.
  change (Ascii.eqb dquote dquote) with true. cbn iota.
  rewrite parse_chars_escape. reflexivity.
Qed.

Lemma parse_items_step (fuel : nat) (s : string) :
  parse_items (S fuel) s
  = andThen (parse_value fuel s) (fun v r =>
      match skip_ws r with
      | String "," r1 => andThen (parse_items fuel r1) (fun l r2 => Parsed (v :: l) r2)
      | String "]" r1 => Parsed [v] r1
      | _ => Malformed
      end).
Proof. reflexivity. Qed.

Lemma parse_items_keys (keys : list string) :
  forall (fuel : nat) (k : string) (tail : string),
    (length keys < fuel)%nat ->
    parse_items (S fuel) (join_items (map quote (k :: keys)) ++ String "]" tail)
    = Parsed (map JString (k :: keys)) tail.
Proof.
  induction keys as [|k' keys IH]; intros fuel k tail Hfuel;
    (destruct fuel as [|fuel]; [simpl in Hfuel; lia|]);
    rewrite parse_items_step.
  - cbn [map join_items]. rewrite parse_value_quote. reflexivity.
  - change (join_items (map quote (k :: k' :: keys)))
      with (quote k ++ "," ++ join_items (map quote (k' :: keys))).
    rewrite !append_assoc, parse_value_quote.
    rewrite append_cons, append_empty.
    cbn [andThen skip_ws]. change (is_ws ",") with false. cbn iota.
    rewrite IH by (simpl in Hfuel; lia). reflexivity.
Qed.

Lemma mapM_stringify_keys (keys : list string) :
  mapM stringify_item (map JString keys) = Some (map quote keys).
Proof.
  induction keys as [|k keys IH]; [reflexivity|].
  cbn. rewrite IH. reflexivity.
Qed.

Lemma stringify_keys (keys : list string) :
  JSON_stringify (JArray (map JString keys)) = Value (keysText keys).
Proof. unfold JSON_stringify. now rewrite mapM_stringify_keys. Qed.

Lemma length_join_keys (keys : list string) :
  (length keys <= String.length (join_items (map quote keys)))%nat.
Proof.
  induction keys as [|k [|k' keys] IH]; [simpl; lia | |].
  - cbn [map join_items]. unfold quote. cbn [String.length length]. lia.
  - change (join_items (map quote (k :: k' :: keys)))
      with (quote k ++ "," ++ join_items (map quote (k' :: keys))).
    rewrite !length_append. unfold quote at 1. cbn [String.length]. 
    cbn [length] in *. lia.
Qed.

Lemma parse_keys (keys : list string) :
  JSON_parse (keysText keys) = Value (JArray (map JString keys)).
Proof.
  destruct keys as [|k keys]; [reflexivity|].
  unfold JSON_parse, keysText.
  pose proof (length_join_keys (k :: keys)) as Hlen.
  set (body := join_items (map quote (k :: keys))) in *.
  assert (Hfuel : exists f, (2 * String.length ("[" ++ body ++ "]") + 2)%nat = S (S f)
                            /\ (length keys < f)%nat).
  { exists (2 * String.length ("[" ++ body ++ "]"))%nat. split; [lia|].
    rewrite !length_append. cbn [length] in Hlen. lia. }
  destruct Hfuel as (f & -> & Hf).
  rewrite append_cons, append_empty.
  cbn [parse_value skip_ws]. change (is_ws "[") with false. cbn iota.
  change (Ascii.eqb "[" dquote) with false. change (Ascii.eqb "[" "[") with true. cbn iota.
  assert (Hhead : exists rest, body ++ "]" = String dquote rest).
  { subst body. cbn [map]. destruct keys; cbn [map join_items];
      rewrite ?append_assoc, quote_append; eauto. }
  destruct Hhead as [rest Hrest]. rewrite Hrest.
  cbn [skip_ws]. change (is_ws dquote) with false. cbn iota.
  rewrite <- Hrest. subst body.
  rewrite parse_items_keys by exact Hf. reflexivity.
Qed.

(** *** Examples *)

Example parse_two_keys :
  JSON_parse ("[" ++ quote "fire-2" ++ ", " ++ quote "cabin-1" ++ " ]")
  = Value (JArray [JString "fire-2"; JString "cabin-1"]).
Proof. reflexivity. Qed.

Example parse_escapes :
  JSON_parse ("[" ++ String dquote ("a\\b\u0041\n" ++ String dquote "]"))
  = Value (JArray [JString (String "a" (String "\" (String "b" (String "A" (String "010" "")))))]).
Proof. reflexivity. Qed.

Example parse_object :
  JSON_parse ("{" ++ quote "a" ++ ": [1, -2.5e3, true, null], " ++ quote "b" ++ ": {}}")
  = Value (JObject [("a", JArray [JNumber "1"; JNumber "-2.5e3"; JBool true; JNull]);
                    ("b", JObject [])]).
Proof. reflexivity. Qed.

Example parse_rejects_garbage : JSON_parse "oops" = Raise SyntaxError.
Proof. reflexivity. Qed.

Example parse_rejects_open_array : JSON_parse ("[" ++ quote "fire-2") = Raise SyntaxError.
Proof. reflexivity. Qed.

Example parse_rejects_trailing : JSON_parse "[] x" = Raise SyntaxError.
Proof. reflexivity. Qed.

Example parse_rejects_leading_zero : JSON_parse "[01]" = Raise SyntaxError.
Proof. reflexivity. Qed.

Example stringify_two_keys :
  JSON_stringify (JArray [JString "fire-2"; JString (String "a" (String dquote "b"))])
  = Value ("[" ++ quote "fire-2" ++ "," ++ String dquote ("a\" ++ String dquote ("b" ++ String dquote "]"))).
Proof. reflexivity. Qed.

(** ** The progress store *)

Lemma as_key_strings (items : list json) (keys : list string) :
  mapM as_key items = Some keys <-> items = map JString keys.
Proof.
  split.
  - intros H. symmetry. apply (mapM_fmap_Some_inv as_key JString _ _ H).
    intros [] y; simpl; congruence.
  - intros ->. apply mapM_fmap_Some. reflexivity.
Qed.

Lemma getVisitedStations_pure (w : Window) :
  match getVisitedStations w with
  | Normal _ w' | Throw _ w' => w' = w
  | Unmodelled => True
  end.
Proof.
  unfold getVisitedStations, bind, get, lift, ret.
  destruct (progressItem w) as [[|c rest]|]; try reflexivity.
  destruct (JSON_parse (String c rest)); reflexivity || exact I.
Qed.

Lemma visitedKeys_read (w : Window) (keys : list string) :
  visitedKeys w = Some keys <->
  getVisitedStations w = Normal (JArray (map JString keys)) w.
Proof.
  unfold visitedKeys. pose proof (getVisitedStations_pure w) as Hpure.
  destruct (getVisitedStations w) as [[] w'| |]; subst;
    try (split; [discriminate | intros [=]]).
  rewrite as_key_strings. split; [intros -> | intros [=]]; congruence.
Qed.

Lemma visitedKeys_stored (w : Window) (keys : list string) :
  progressItem w = Some (keysText keys) -> visitedKeys w = Some keys.
Proof.
  intros Hitem. apply visitedKeys_read.
  unfold getVisitedStations, bind, get. rewrite Hitem.
  change (lift (JSON_parse (keysText keys)) w = Normal (JArray (map JString keys)) w).
  unfold lift. rewrite parse_keys. reflexivity.
Qed.

Lemma visitedKeys_frame (w w' : Window) :
  progressItem w' = progressItem w -> visitedKeys w' = visitedKeys w.
Proof.
  intros H. unfold visitedKeys, getVisitedStations, bind, get, lift, ret. rewrite H.
  destruct (progressItem w) as [[|c rest]|]; try reflexivity.
  destruct (JSON_parse (String c rest)) as [[]| |]; reflexivity.
Qed.

Lemma includes_keys (keys : list string) (key : string) :
  includes (JArray (map JString keys)) key = Value (bool_decide (key ∈ keys)).
Proof.
  unfold includes. f_equal. induction keys as [|k keys IH]; [reflexivity|].
  cbn [map existsb is_key]. rewrite IH.
  destruct (String.eqb_spec k key) as [->|Hne].
  - cbn [orb]. symmetry. apply bool_decide_eq_true_2. constructor.
  - cbn [orb]. apply bool_decide_ext. rewrite elem_of_cons. intuition congruence.
Qed.

Lemma updateProgressUI_keys (v : Variant) (w : Window) (keys : list string) :
  visitedKeys w = Some keys ->
  updateProgressUI v w = Normal tt (published v keys w).
Proof.
  intros Hkeys. apply visitedKeys_read in Hkeys.
  unfold updateProgressUI, bind at 1. rewrite Hkeys.
  unfold published, bind, lift, js_length, modify, when, showCompletionMessage, bind, get, ret.
  rewrite length_map.
  destruct v; try reflexivity.
  destruct (TOTAL_STATIONS <=? length keys)%nat; [|reflexivity].
  cbn [publish completionShown andb]. destruct (completionShown w); reflexivity.
Qed.

Lemma published_keys (v : Variant) (keys : list string) (w : Window) :
  visitedKeys (published v keys w) = visitedKeys w.
Proof.
  apply visitedKeys_frame. unfold published.
  destruct v; try reflexivity.
  destruct (_ && _); reflexivity.
Qed.

Lemma mark_present (v : Variant) (c : string) (n : nat) (w : Window) (keys : list string) :
  visitedKeys w = Some keys ->
  stationKey c n ∈ keys ->
  markStationVisited v c n w = Normal tt w.
Proof.
  intros Hkeys Hin. apply visitedKeys_read in Hkeys.
  unfold markStationVisited, bind at 1. rewrite Hkeys.
  unfold bind, lift. rewrite includes_keys, bool_decide_eq_true_2 by exact Hin.
  reflexivity.
Qed.

Lemma mark_fresh (v : Variant) (c : string) (n : nat) (w : Window) (keys : list string) :
  visitedKeys w = Some keys ->
  stationKey c n ∉ keys ->
  let keys' := (keys ++ [stationKey c n])%list in
  markStationVisited v c n w = Normal tt (published v keys' (setItem (keysText keys') w)).
Proof.
  intros Hkeys Hin keys'. pose proof Hkeys as Hread. apply visitedKeys_read in Hread.
  unfold markStationVisited, bind at 1. rewrite Hread.
  unfold bind at 1, lift at 1. rewrite includes_keys, bool_decide_eq_false_2 by exact Hin.
  cbn [negb when]. unfold bind at 1, lift at 1, push.
  replace (map JString keys ++ [JString (stationKey c n)])%list
    with (map JString keys') by (subst keys'; now rewrite map_app).
  unfold bind at 1, lift at 1. rewrite stringify_keys.
  unfold bind at 1, modify at 1.
  apply updateProgressUI_keys, visitedKeys_stored. reflexivity.
Qed.

Lemma mark_keys (v : Variant) (c : string) (n : nat) (w : Window) (keys : list string) :
  visitedKeys w = Some keys ->
  exists w',
    markStationVisited v c n w = Normal tt w' /\
    visitedKeys w' = Some (if bool_decide (stationKey c n ∈ keys)
                           then keys else (keys ++ [stationKey c n])%list).
Proof.
  intros Hkeys. case_bool_decide as Hin.
  - exists w. split; [eapply mark_present; eassumption | exact Hkeys].
  - eexists. split; [eapply mark_fresh; eassumption|].
    rewrite published_keys. apply visitedKeys_stored. reflexivity.
Qed.

Lemma mark_NoDup (keys : list string) (key : string) :
  NoDup keys ->
  NoDup (if bool_decide (key ∈ keys) then keys else (keys ++ [key])%list).
Proof.
  intros Hnd. case_bool_decide as Hin; [exact Hnd|].
  apply NoDup_app. repeat split; [exact Hnd| |apply NoDup_singleton].
  intros x Hx Hx'. apply list_elem_of_singleton in Hx'. congruence.
Qed.

Lemma mark_member (keys : list string) (key : string) :
  key ∈ (if bool_decide (key ∈ keys) then keys else (keys ++ [key])%list).
Proof.
  case_bool_decide as Hin; [exact Hin|].
  apply elem_of_app. right. constructor.
Qed.

(** C5. Marking a station twice is the same as marking it once: for every
    station type [c], number [n] and stored set of keys, after
    [markVisited(c, n)] the stored set holds the key [c-n] exactly once, and
    a second [markVisited(c, n)] returns with the whole window — the stored
    item, the progress bar and the counter — as the first call left it. *)
Theorem markVisited_idempotent
  (v : Variant) (c : string) (n : nat) (w : Window) (keys : list string) :
  visitedKeys w = Some keys ->
  NoDup keys ->
  exists w1 keys1,
    markStationVisited v c n w = Normal tt w1 /\
    visitedKeys w1 = Some keys1 /\
    count_occ string_dec keys1 (stationKey c n) = 1%nat /\
    markStationVisited v c n w1 = Normal tt w1 /\
    progressItem w1 = (if bool_decide (stationKey c n ∈ keys)
                       then progressItem w
                       else Some (keysText keys1)).
Proof.
  intros Hkeys Hnd.
  destruct (mark_keys v c n w keys Hkeys) as (w1 & Hcall & Hkeys1).
  exists w1. eexists. split; [exact Hcall|]. split; [exact Hkeys1|].
  pose proof (mark_member keys (stationKey c n)) as Hin.
  pose proof (mark_NoDup keys (stationKey c n) Hnd) as Hnd1.
  repeat split.
  - apply NoDup_count_occ'; [apply NoDup_ListNoDup, Hnd1 | apply list_elem_of_In, Hin].
  - eapply mark_present; eassumption.
  - case_bool_decide as Hold.
    + rewrite (mark_present v c n w keys Hkeys Hold) in Hcall. congruence.
    + rewrite (mark_fresh v c n w keys Hkeys Hold) in Hcall.
      injection Hcall as <-. unfold published.
      destruct v; try reflexivity. destruct (_ && _); reflexivity.
Qed.

Lemma markVisited_idempotent_witness :
  exists w1 keys1,
    markStationVisited Island "fire" 2 (freshWindow (Some (keysText ["cabin-1"])) true)
      = Normal tt w1 /\
    visitedKeys w1 = Some keys1 /\
    count_occ string_dec keys1 (stationKey "fire" 2) = 1%nat /\
    markStationVisited Island "fire" 2 w1 = Normal tt w1 /\
    progressItem w1 = (if bool_decide (stationKey "fire" 2 ∈ ["cabin-1"])
                       then Some (keysText ["cabin-1"])
                       else Some (keysText keys1)).
Proof.
  apply (markVisited_idempotent Island "fire" 2
           (freshWindow (Some (keysText ["cabin-1"])) true) ["cabin-1"]).
  - vm_compute. reflexivity.
  - apply NoDup_singleton.
Defined.

Example mark_fire_2_twice :
  let w := freshWindow None true in
  exists w1, markStationVisited Island "fire" 2 w = Normal tt w1 /\
             markStationVisited Island "fire" 2 w1 = Normal tt w1 /\
             progressItem w1 = Some ("[" ++ quote "fire-2" ++ "]") /\
             progressBar w1 = Some (Some (100 # 18)) /\
             progressCount w1 = Some (Some 1%nat).
Proof.
  eexists. split; [vm_compute; reflexivity|].
  repeat split; vm_compute; reflexivity.
Qed.

(** C2, as the code has it. When the progress item is missing or is the
    empty string, [getVisited] returns the empty array and [markVisited]
    records its key as the only one; when the item holds the text of an
    array of keys, [getVisited] returns these keys.  In none of these states
    does either call throw. *)
Theorem getVisited_fails_open_when_absent (w : Window) (keys : list string) :
  (progressItem w = None \/ progressItem w = Some "") /\ keys = [] \/
  progressItem w = Some (keysText keys) ->
  getVisitedStations w = Normal (JArray (map JString keys)) w /\
  forall (v : Variant) (c : string) (n : nat),
    exists w',
      markStationVisited v c n w = Normal tt w' /\
      visitedKeys w' = Some (if bool_decide (stationKey c n ∈ keys)
                             then keys else (keys ++ [stationKey c n])%list).
Proof.
  intros Hstate.
  assert (Hkeys : visitedKeys w = Some keys).
  { destruct Hstate as [[[H|H] ->]|H].
    - unfold visitedKeys, getVisitedStations, bind, get. now rewrite H.
    - unfold visitedKeys, getVisitedStations, bind, get. now rewrite H.
    - now apply visitedKeys_stored. }
  split; [now apply visitedKeys_read|].
  intros v c n. now apply mark_keys.
Qed.

Lemma getVisited_fails_open_when_absent_witness :
  getVisitedStations (freshWindow None true)
    = Normal (JArray (map JString [])) (freshWindow None true) /\
  forall (v : Variant) (c : string) (n : nat),
    exists w',
      markStationVisited v c n (freshWindow None true) = Normal tt w' /\
      visitedKeys w' = Some (if bool_decide (stationKey c n ∈ [])
                             then [] else ([] ++ [stationKey c n])%list).
Proof.
  apply (getVisited_fails_open_when_absent (freshWindow None true) []).
  left. split; [left; reflexivity | reflexivity].
Defined.

(** C2 fails on a corrupt item: with the text [oops] under the progress key,
    [getVisited] does not return the empty set and [markVisited] does not
    proceed; both throw the [SyntaxError] of [JSON.parse], and at page load
    the script's [catch] leaves the progress API uninstalled. *)
Lemma getVisited_throws_on_corrupt_item :
  let w := freshWindow (Some "oops") true in
  getVisitedStations w = Throw SyntaxError w /\
  markStationVisited Island "fire" 2 w = Throw SyntaxError w /\
  (progressApi <$> loadProgress Island w) = Some None.
Proof. repeat split; vm_compute; reflexivity. Qed.

Lemma published_settled (v : Variant) (keys : list string) (w : Window) :
  visitedKeys w = Some keys ->
  match v with
  | Island =>
      (completionShown w = false /\ notices w = 0%nat) \/
      (completionShown w = true /\ notices w = 1%nat /\ (TOTAL_STATIONS <= length keys)%nat)
  | Crystal | Diorama => notices w = 0%nat
  end ->
  settled v keys (published v keys w).
Proof.
  intros Hkeys Hflags. split; [now rewrite published_keys|].
  unfold published. destruct v; try exact Hflags.
  cbn [publish completionShown].
  destruct (Nat.leb_spec TOTAL_STATIONS (length keys)) as [Hfull|Hpart].
  - destruct Hflags as [[Hc Hn]|(Hc & Hn & _)]; rewrite Hc; cbn; auto.
  - destruct Hflags as [[Hc Hn]|(_ & _ & Hfull)]; [rewrite Hc; cbn; auto | lia].
Qed.

Lemma settled_flags (v : Variant) (keys keys' : list string) (w w' : Window) :
  settled v keys w ->
  (length keys <= length keys')%nat ->
  completionShown w' = completionShown w ->
  notices w' = notices w ->
  match v with
  | Island =>
      (completionShown w' = false /\ notices w' = 0%nat) \/
      (completionShown w' = true /\ notices w' = 1%nat /\ (TOTAL_STATIONS <= length keys')%nat)
  | Crystal | Diorama => notices w' = 0%nat
  end.
Proof.
  intros [_ Hflags] Hle -> ->. destruct v; try exact Hflags.
  destruct Hflags as [-> ->].
  destruct (Nat.leb_spec TOTAL_STATIONS (length keys)); [right | left]; auto with lia.
Qed.

Lemma load_settled (v : Variant) (w : Window) (keys : list string) :
  visitedKeys w = Some keys ->
  completionShown w = false ->
  notices w = 0%nat ->
  exists w1, loadProgress v w = Some w1 /\ settled v keys w1 /\ progressApi w1 = Some v.
Proof.
  intros Hkeys Hflag Hn. unfold loadProgress.
  rewrite (updateProgressUI_keys v w keys Hkeys).
  eexists. split; [reflexivity|]. split; [|reflexivity].
  assert (Hs : settled v keys (published v keys w)).
  { apply published_settled; [exact Hkeys|]. destruct v; auto. }
  destruct Hs as [Hk Hf]. split; [|exact Hf].
  rewrite <- Hk. now apply visitedKeys_frame.
Qed.

Lemma mark_settled (v : Variant) (c : string) (n : nat) (w : Window) (keys : list string) :
  settled v keys w ->
  exists w',
    markStationVisited v c n w = Normal tt w' /\
    settled v (if bool_decide (stationKey c n ∈ keys)
               then keys else (keys ++ [stationKey c n])%list) w'.
Proof.
  intros Hs. pose proof Hs as [Hkeys _]. case_bool_decide as Hin.
  - exists w. split; [eapply mark_present; eassumption | exact Hs].
  - eexists. split; [eapply mark_fresh; eassumption|].
    apply published_settled; [apply visitedKeys_stored; reflexivity|].
    eapply settled_flags; [exact Hs | | reflexivity | reflexivity].
    rewrite length_app. lia.
Qed.

Lemma markAll_settled (v : Variant) (calls : list (string * nat)) :
  forall (w : Window) (keys : list string),
    settled v keys w ->
    exists w' keys',
      markAll v calls w = Normal tt w' /\ settled v keys' w' /\
      (NoDup keys -> NoDup keys') /\ (length keys <= length keys')%nat.
Proof.
  induction calls as [|[c n] calls IH]; intros w keys Hs.
  - exists w, keys. split; [reflexivity|]. split; [exact Hs|]. split; [tauto | lia].
  - destruct (mark_settled v c n w keys Hs) as (w1 & Hcall & Hs1).
    destruct (IH w1 _ Hs1) as (w2 & keys2 & Hrest & Hs2 & Hnd & Hlen).
    exists w2, keys2. split.
    + cbn [markAll foldr fst snd]. unfold bind. rewrite Hcall. exact Hrest.
    + split; [exact Hs2|]. split.
      * intros H. apply Hnd. now apply mark_NoDup.
      * etransitivity; [|exact Hlen]. case_bool_decide; rewrite ?length_app; lia.
Qed.

(** C3, as the code has it. On the island page, in a session that starts
    with a readable store, every sequence of [markVisited] calls returns,
    and the completion notice has then been appended once if the store
    holds [TOTAL_STATIONS] keys or more and not at all otherwise: it is shown
    at load or by the call that adds the eighteenth key, and never again,
    whatever is marked afterwards.  The crystal and diorama pages show no
    notice. *)
Theorem completion_notice_once
  (v : Variant) (item : option string) (widgets : bool)
  (keys0 : list string) (calls : list (string * nat)) :
  visitedKeys (freshWindow item widgets) = Some keys0 ->
  exists w1 w2 keys2,
    loadProgress v (freshWindow item widgets) = Some w1 /\
    markAll v calls w1 = Normal tt w2 /\
    visitedKeys w2 = Some keys2 /\
    (NoDup keys0 -> NoDup keys2) /\
    notices w2 = match v with
                 | Island => if (TOTAL_STATIONS <=? length keys2)%nat then 1 else 0
                 | Crystal | Diorama => 0
                 end%nat.
Proof.
  intros Hkeys.
  destruct (load_settled v _ keys0 Hkeys eq_refl eq_refl) as (w1 & Hload & Hs1 & _).
  destruct (markAll_settled v calls w1 keys0 Hs1) as (w2 & keys2 & Hrun & Hs2 & Hnd & _).
  exists w1, w2, keys2. repeat split; try assumption.
  - apply Hs2.
  - destruct Hs2 as [_ Hflags]. destruct v; try exact Hflags. apply Hflags.
Qed.

Lemma completion_notice_once_witness :
  exists w1 w2 keys2,
    loadProgress Island (freshWindow None true) = Some w1 /\
    markAll Island (eighteenMarks ++ [("fire", 2%nat)]) w1 = Normal tt w2 /\
    visitedKeys w2 = Some keys2 /\
    (NoDup (@nil string) -> NoDup keys2) /\
    notices w2 = (if (TOTAL_STATIONS <=? length keys2)%nat then 1 else 0)%nat.
Proof.
  apply (completion_notice_once Island None true [] (eighteenMarks ++ [("fire", 2%nat)])).
  reflexivity.
Defined.

Example island_notice_after_eighteen :
  exists w1 w2,
    loadProgress Island (freshWindow None true) = Some w1 /\
    markAll Island (eighteenMarks ++ [("fire", 2%nat)]) w1 = Normal tt w2 /\
    visitedCount w2 = 18%nat /\ notices w2 = 1%nat.
Proof.
  eexists. eexists. split; [vm_compute; reflexivity|].
  split; [vm_compute; reflexivity|]. split; vm_compute; reflexivity.
Qed.

(** C3 fails on the crystal page (and on the diorama page, whose script is
    the same): after all eighteen stations are marked no notice has been
    shown. *)
Lemma crystal_shows_no_notice :
  exists w1 w2,
    loadProgress Crystal (freshWindow None true) = Some w1 /\
    markAll Crystal eighteenMarks w1 = Normal tt w2 /\
    visitedCount w2 = TOTAL_STATIONS /\
    notices w2 = 0%nat /\ completionShown w2 = false.
Proof.
  eexists. eexists. split; [vm_compute; reflexivity|].
  split; [vm_compute; reflexivity|]. repeat split; vm_compute; reflexivity.
Qed.

(** ** The interaction manager *)

(** Symbolic execution of a method on a page: unfold the sequencing and
    read the fields through the updates. *)
Ltac exec :=
  repeat (progress
    (unfold bind, onMgr, modify, this, theVisit, ret, throw, get, when, entry in *;
     cbn [mgr win currentVisit controls mouse currentCabinNumber dialogueStep
          isDialogueOpen completedVisits content display onclick buttons
          optionsGrid timers
          set_currentVisit set_controls set_mouse set_currentCabinNumber
          set_dialogueStep set_isDialogueOpen set_completedVisits set_content
          set_display set_onclick set_buttons set_optionsGrid set_timers
          enableControls set_content_of set_display_of set_onclick_of
          on_button setTimeout set_win reported after] in *)).

(** Lookups in a widget map after updates under literal element ids. *)
Ltac maps :=
  repeat (rewrite lookup_insert_eq || (rewrite lookup_insert_ne by discriminate)).

(** The same for the overlay of a category, case by case. *)
Ltac overlay_maps :=
  cbn [overlayOf exploreBtnOf kindName];
  try change ("herb" ++ "-overlay") with "herb-overlay";
  try change ("logpile" ++ "-overlay") with "logpile-overlay";
  try change ("garden" ++ "-overlay") with "garden-overlay";
  try change ("cart" ++ "-overlay") with "cart-overlay";
  try change ("fishing" ++ "-overlay") with "fishing-overlay";
  try change ("memorial" ++ "-overlay") with "memorial-overlay";
  maps.

Ltac overlay_lookups :=
  repeat match goal with
         | c : Category |- _ => destruct c as [| |[]]
         | k : StationKind |- _ => destruct k
         end;
  cbn [overlayOf exploreBtnOf kindName] in *;
  try change ("herb" ++ "-overlay") with "herb-overlay" in *;
  try change ("logpile" ++ "-overlay") with "logpile-overlay" in *;
  try change ("garden" ++ "-overlay") with "garden-overlay" in *;
  try change ("cart" ++ "-overlay") with "cart-overlay" in *;
  try change ("fishing" ++ "-overlay") with "fishing-overlay" in *;
  try change ("memorial" ++ "-overlay") with "memorial-overlay" in *;
  maps.

Lemma createOptions (opts : list MathOption) :
  forall m : Manager,
    foldl createOption m opts
    = set_optionsGrid (optionsGrid m ++ seq (length (buttons m)) (length opts))
        (set_buttons (buttons m ++ map optionBtn opts) m).
Proof.
  induction opts as [|opt opts IH]; intros m.
  - destruct m. cbn. now rewrite !app_nil_r.
  - cbn [foldl]. rewrite IH. unfold createOption. exec.
    rewrite length_app. cbn [length map seq].
    rewrite <- !app_assoc. cbn [app].
    replace (length (buttons m) + 1)%nat with (S (length (buttons m))) by lia.
    reflexivity.
Qed.

Lemma controls_restored (c : option bool) :
  (fun _ => true) <$> ((fun _ => false) <$> c) = (fun _ : bool => true) <$> c.
Proof. destruct c; reflexivity. Qed.

(** *** What a listener may change *)

Section Respects.

Context (R : Page -> Page -> Prop) `{!Reflexive R} `{!Transitive R}.

Lemma respects_ret {A} (a : A) : respects R (ret a).
Proof. intros p. cbn. reflexivity. Qed.

Lemma respects_throw {A} (e : JsError) : respects R (throw (A := A) e).
Proof. intros p. cbn. reflexivity. Qed.

Lemma respects_unmodelled {A} : respects R (fun _ => Unmodelled (A := A)).
Proof. intros p. exact I. Qed.

Lemma respects_this : respects R this.
Proof. intros p. cbn. reflexivity. Qed.

Lemma respects_get : respects R get.
Proof. intros p. cbn. reflexivity. Qed.

Lemma respects_bind {A B} (m : M Page A) (k : A -> M Page B) :
  respects R m -> (forall a, respects R (k a)) -> respects R (bind m k).
Proof.
  intros Hm Hk p. unfold bind. specialize (Hm p).
  destruct (m p) as [a p1|e p1|]; [|exact Hm|exact I].
  specialize (Hk a p1). destruct (k a p1); [| |exact I]; etransitivity; eassumption.
Qed.

Lemma respects_onMgr (f : Manager -> Manager) :
  (forall p, R p {| win := win p; mgr := f (mgr p) |}) -> respects R (onMgr f).
Proof. intros Hf p. apply Hf. Qed.

Lemma respects_inWindow {A} (m : M Window A) :
  (forall p w, R p (set_win w p)) -> respects R (inWindow m).
Proof. intros Hw p. unfold inWindow. destruct (m (win p)); try apply Hw. exact I. Qed.

End Respects.

(** One step through a method, by the shape of the call: sequencing, reads,
    branches; [leaf] deals with a single update, [known] with the calls of
    methods already dealt with, and any other method is unfolded. *)
Ltac head_of t :=
  lazymatch t with
  | ?f _ => head_of f
  | _ => t
  end.

Ltac respects_step known leaf :=
  lazymatch goal with
  | |- respects _ (bind _ _) => apply respects_bind; [apply _| |intros]
  | |- respects _ (ret _) => apply respects_ret; apply _
  | |- respects _ (throw _) => apply respects_throw; apply _
  | |- respects _ this => apply respects_this; apply _
  | |- respects _ get => apply respects_get; apply _
  | |- respects _ (inWindow _) => apply respects_inWindow; leaf
  | |- respects _ (onMgr _) => apply respects_onMgr; intros; leaf
  | |- respects _ (fun _ => Unmodelled) => apply respects_unmodelled
  | |- respects _ (match ?x with _ => _ end) => destruct x
  | |- respects _ (when ?b _) => destruct b; cbn [when]
  | |- respects _ ?m => first [ known | let h := head_of m in unfold h ]
  end.

Ltac respects_auto known leaf := repeat respects_step known leaf.

Section Dialogue.

Variable elderVisits : list ElderVisit.

(** C7. A visit that is in the completed set is not replayed: [startVisit]
    opens the overlay on the welcome-back line with the math section hidden
    and the Continue button turned into Leave, and one click on it returns
    to Closed with nothing of the narrative visible, nothing recorded and
    the controls enabled. *)
Theorem already_visited_shortcut (p : Page) (localId : nat) (visit : ElderVisit) :
  elderVisits !! localId = Some visit ->
  localId ∈ completedVisits (mgr p) ->
  exists p1,
    startVisit elderVisits localId p = Normal tt p1 /\
    phase (mgr p1) = AlreadyVisited /\
    visibleStory (mgr p1) = Some WELCOME_BACK /\
    display (mgr p1) !! "math-section" = Some "none" /\
    content (mgr p1) !! "continue-btn" = Some "Leave →" /\
    onclick (mgr p1) !! "continue-btn" = Some HClose /\
    exists p2,
      deliver elderVisits ContinueClick p1 = Some {| reported := []; after := p2 |} /\
      phase (mgr p2) = Closed /\
      visibleStory (mgr p2) = None /\
      currentVisit (mgr p2) = None /\
      controls (mgr p2) = (fun _ => true) <$> controls (mgr p) /\
      win p2 = win p /\
      completedVisits (mgr p2) = completedVisits (mgr p).
Proof.
  intros Hv Hc. unfold startVisit. exec. rewrite Hv. exec.
  rewrite bool_decide_eq_true_2 by exact Hc. exec.
  eexists. split; [reflexivity|].
  unfold phase, visibleStory, shown, overlayOf. exec. maps.
  repeat (split; [reflexivity|]).
  unfold deliver, listeners, dispatch, advanceDialogue, clickProperty. exec. maps.
  destruct (ElderVisits.greeting visit) as [|g0 [|g1 gs]] eqn:Hg;
    cbn [length Nat.ltb Nat.leb Nat.eqb].
  - unfold runHandler, closeDialogue. exec. maps.
    eexists. split; [reflexivity|]. exec. maps.
    repeat split. apply controls_restored.
  - unfold showMathQuestion. exec. rewrite createOptions. exec. maps.
    unfold runHandler, closeDialogue. exec.
    eexists. split; [reflexivity|]. exec. maps.
    repeat split. apply controls_restored.
  - unfold displayCurrentStep. exec. rewrite Hg. cbn [lookup list_lookup]. exec. maps.
    unfold runHandler, closeDialogue. exec.
    eexists. split; [reflexivity|]. exec. maps.
    repeat split. apply controls_restored.
Qed.

(** The deferred [showSuccess] without a current visit: the math section is
    hidden, then reading [this.currentVisit.math] throws. *)
Lemma showSuccess_after_close (p : Page) (rest : list Deferred) :
  currentVisit (mgr p) = None ->
  timers (mgr p) = ShowSuccess :: rest ->
  exists p',
    deliver elderVisits TimerFires p = Some {| reported := [TypeError]; after := p' |} /\
    display (mgr p') !! "math-section" = Some "none".
Proof.
  intros Hvisit Htimers.
  unfold deliver, listeners, dispatch, fireTimer. exec. rewrite Htimers.
  unfold showSuccess. exec. rewrite Hvisit. exec.
  eexists. split; [reflexivity|]. exec. now maps.
Qed.

(** *** Incorrect answers *)

Lemma filter_absent (c : string) (l : list string) :
  c ∉ l -> filter (fun x => x ≠ c) l = l.
Proof.
  induction l as [|x l IH]; intros Hc; [reflexivity|].
  apply not_elem_of_cons in Hc as [Hx Hl].
  rewrite filter_cons_True by congruence. now rewrite IH.
Qed.

Lemma unmark_clean (b : OptionBtn) : "wrong" ∉ classList b -> unmark b = b.
Proof.
  intros H. destruct b as [t cl ok]. unfold unmark, classList_remove. cbn in *.
  now rewrite filter_absent.
Qed.

Lemma unmark_unmarked (b : OptionBtn) : "wrong" ∉ classList (unmark b).
Proof.
  unfold unmark, classList_remove. cbn. rewrite list_elem_of_filter. tauto.
Qed.

Lemma unmark_add (b : OptionBtn) : unmark (classList_add "wrong" b) = unmark b.
Proof.
  destruct b as [t cl ok]. unfold unmark, classList_remove, classList_add. cbn.
  f_equal. case_bool_decide; [reflexivity|].
  rewrite filter_app, filter_cons_False, filter_nil, app_nil_r by tauto. reflexivity.
Qed.

Lemma unmark_twice (b : OptionBtn) : unmark (unmark b) = unmark b.
Proof. apply unmark_clean, unmark_unmarked. Qed.

Lemma unmark_alter (g : OptionBtn -> OptionBtn) (btn : nat) (bs : list OptionBtn) :
  (forall b, unmark (g b) = unmark b) ->
  unmark <$> alter g btn bs = unmark <$> bs.
Proof.
  intros Hg. rewrite (list_fmap_alter unmark g id).
  - apply list_alter_id. reflexivity.
  - apply Forall_forall. intros b _. apply Hg.
Qed.

Lemma retrying_refl (p : Page) :
  timers (mgr p) = [] ->
  (forall btn b, buttons (mgr p) !! btn = Some b -> "wrong" ∉ classList b) ->
  retrying p p.
Proof.
  intros Htimers Hclean. repeat split.
  - apply list_eq. intros i. rewrite list_lookup_fmap.
    destruct (buttons (mgr p) !! i) as [b|] eqn:Hb; [|reflexivity].
    cbn. f_equal. apply unmark_clean. eauto.
  - rewrite Htimers. constructor.
  - intros btn b Hb Hw. exfalso. eapply Hclean; eassumption.
Qed.

Lemma retrying_phase (p p' : Page) :
  retrying p p' -> phase (mgr p') = phase (mgr p).
Proof.
  intros (_ & Hsame & _).
  assert (Hd : display (mgr p') = display (mgr p))
    by exact (f_equal display Hsame).
  assert (Ho : onclick (mgr p') = onclick (mgr p))
    by exact (f_equal onclick Hsame).
  assert (Hi : isDialogueOpen (mgr p') = isDialogueOpen (mgr p))
    by exact (f_equal isDialogueOpen Hsame).
  assert (Hs : dialogueStep (mgr p') = dialogueStep (mgr p))
    by exact (f_equal dialogueStep Hsame).
  unfold phase. now rewrite Hd, Ho, Hi, Hs.
Qed.

Lemma retrying_done (p p' : Page) :
  timers (mgr p) = [] -> retrying p p' -> timers (mgr p') = [] -> p' = p.
Proof.
  intros Htimers (Hwin & Hsame & Hbtns & _ & Hpending) Hdone.
  assert (Hclean : buttons (mgr p') = buttons (mgr p)).
  { rewrite <- Hbtns. apply list_eq. intros i. rewrite list_lookup_fmap.
    destruct (buttons (mgr p') !! i) as [b|] eqn:Hb; [|reflexivity].
    cbn. f_equal. symmetry. apply unmark_clean. intros Hw.
    specialize (Hpending i b Hb Hw). rewrite Hdone in Hpending.
    now apply not_elem_of_nil in Hpending. }
  destruct p as [w m], p' as [w' m']. cbn in *. subst w'. f_equal.
  destruct m, m'. cbn in *. injection Hsame as -> -> -> -> -> -> -> -> -> -> ->.
  now rewrite Hclean, Hdone, Htimers.
Qed.

Lemma retrying_step (p p' : Page) (ev : Event) :
  retrying p p' ->
  isRetry (mgr p) ev ->
  exists p'', deliver elderVisits ev p' = Some {| reported := []; after := p'' |} /\
              retrying p p''.
Proof.
  intros (Hwin & Hsame & Hbtns & Hqueue & Hpending) Hev.
  destruct ev as [| | |btn| | |]; try contradiction.
  - (* an incorrect option is clicked *)
    destruct Hev as (b & Hb & Hwrong).
    assert (Hb' : exists b', buttons (mgr p') !! btn = Some b' /\ isCorrect b' = false).
    { rewrite <- Hbtns, list_lookup_fmap in Hb.
      destruct (buttons (mgr p') !! btn) as [b'|]; [|discriminate].
      exists b'. split; [reflexivity|]. injection Hb as <-. exact Hwrong. }
    destruct Hb' as (b' & Hb' & Hwrong').
    unfold deliver, listeners, dispatch, clickOption. exec.
    rewrite Hb', Hwrong'. unfold handleAnswer. exec.
    eexists. split; [reflexivity|].
    unfold retrying. exec. repeat split; try assumption.
    + rewrite unmark_alter by apply unmark_add. exact Hbtns.
    + apply Forall_app. split; [exact Hqueue|]. repeat constructor. eauto.
    + intros j bj Hj Hw. apply elem_of_app.
      destruct (decide (btn = j)) as [->|Hne]; [right; constructor|left].
      rewrite list_lookup_alter_ne in Hj by exact Hne. eauto.
  - (* the oldest timer fires *)
    unfold deliver, listeners, dispatch, fireTimer. exec.
    destruct (timers (mgr p')) as [|d rest] eqn:Htimers.
    { eexists. split; [reflexivity|]. unfold retrying. rewrite Htimers. auto. }
    apply Forall_cons_1 in Hqueue as [[btn ->] Hrest]. exec.
    eexists. split; [reflexivity|].
    unfold retrying. exec. repeat split; try assumption.
    + rewrite unmark_alter by apply unmark_twice. exact Hbtns.
    + intros j bj Hj Hw.
      destruct (decide (btn = j)) as [->|Hne].
      * rewrite list_lookup_alter_eq in Hj.
        destruct (buttons (mgr p') !! j) as [b0|]; [|discriminate].
        injection Hj as <-. now apply unmark_unmarked in Hw.
      * rewrite list_lookup_alter_ne in Hj by exact Hne.
        specialize (Hpending j bj Hj Hw).
        apply elem_of_cons in Hpending as [Heq|Hin]; [congruence | exact Hin].
Qed.

Lemma retrying_run (p : Page) (evs : list Event) :
  Forall (isRetry (mgr p)) evs ->
  forall p', retrying p p' ->
    exists p'', run elderVisits evs p' = Some {| reported := []; after := p'' |} /\
                retrying p p''.
Proof.
  induction evs as [|ev evs IH]; intros Hevs p' Hp'.
  - exists p'. split; [reflexivity | exact Hp'].
  - apply Forall_cons_1 in Hevs as [Hev Hevs].
    destruct (retrying_step p p' ev Hp' Hev) as (p1 & Hstep & Hp1).
    destruct (IH Hevs p1 Hp1) as (p2 & Hrun & Hp2).
    exists p2. split; [|exact Hp2].
    cbn [run]. rewrite Hstep. cbn [after reported]. rewrite Hrun. reflexivity.
Qed.

(** C8. Incorrect answers are free and can be retried without limit.  In
    the math challenge, with no feedback pending and no option marked, any
    run of clicks on incorrect options and of timer firings raises no error
    and leaves the machine in MathChallenge with the window (so the stored
    keys), the completed set and the option grid as they were; an option
    marked wrong has a pending timer that takes the mark off; and once the
    timers have run out the page is exactly the page before the first click,
    so every option can be picked again.  One click marks the option and arms
    one timer, whose firing gives that page back. *)
Theorem wrong_answer_retry (p : Page) :
  phase (mgr p) = MathChallenge ->
  timers (mgr p) = [] ->
  (forall btn b, buttons (mgr p) !! btn = Some b -> "wrong" ∉ classList b) ->
  (forall evs, Forall (isRetry (mgr p)) evs ->
     exists p',
       run elderVisits evs p = Some {| reported := []; after := p' |} /\
       phase (mgr p') = MathChallenge /\
       win p' = win p /\
       completedVisits (mgr p') = completedVisits (mgr p) /\
       optionsGrid (mgr p') = optionsGrid (mgr p) /\
       (forall btn b, buttons (mgr p') !! btn = Some b -> "wrong" ∈ classList b ->
                      RemoveWrong btn ∈ timers (mgr p')) /\
       (timers (mgr p') = [] -> p' = p)) /\
  (forall btn b, buttons (mgr p) !! btn = Some b -> isCorrect b = false ->
     exists p1 b1,
       deliver elderVisits (OptionClick btn) p = Some {| reported := []; after := p1 |} /\
       buttons (mgr p1) !! btn = Some b1 /\
       "wrong" ∈ classList b1 /\
       timers (mgr p1) = [RemoveWrong btn] /\
       deliver elderVisits TimerFires p1 = Some {| reported := []; after := p |}).
Proof.
  intros Hphase Htimers Hclean.
  pose proof (retrying_refl p Htimers Hclean) as Hstart.
  split.
  - intros evs Hevs.
    destruct (retrying_run p evs Hevs p Hstart) as (p' & Hrun & Hp').
    exists p'. split; [exact Hrun|].
    split; [rewrite (retrying_phase p p' Hp'); exact Hphase|].
    pose proof Hp' as (Hwin & Hsame & _ & _ & Hpending).
    split; [exact Hwin|].
    split; [exact (f_equal completedVisits Hsame)|].
    split; [exact (f_equal optionsGrid Hsame)|].
    split; [exact Hpending|].
    intros Hdone. eapply retrying_done; eassumption.
  - intros btn b Hb Hwrong.
    assert (Hev : isRetry (mgr p) (OptionClick btn)) by (cbn; eauto).
    destruct (retrying_step p p _ Hstart Hev) as (p1 & Hclick & Hp1).
    assert (Hq : timers (mgr p1) = [RemoveWrong btn]).
    { revert Hclick. unfold deliver, listeners, dispatch, clickOption. exec.
      rewrite Hb, Hwrong. unfold handleAnswer. exec. intros [= <-]. exec.
      now rewrite Htimers. }
    assert (Hb1 : exists b1, buttons (mgr p1) !! btn = Some b1 /\ "wrong" ∈ classList b1).
    { revert Hclick. unfold deliver, listeners, dispatch, clickOption. exec.
      rewrite Hb, Hwrong. unfold handleAnswer. exec. intros [= <-]. exec.
      rewrite list_lookup_alter_eq, Hb. eexists. split; [reflexivity|].
      unfold classList_add. cbn. case_bool_decide; [assumption|].
      apply elem_of_app. right. constructor. }
    destruct Hb1 as (b1 & Hb1 & Hmark).
    exists p1, b1. repeat (split; [assumption|]).
    destruct (retrying_step p p1 TimerFires Hp1 I) as (p2 & Hfire & Hp2).
    rewrite Hfire. do 2 f_equal.
    eapply retrying_done; [exact Htimers | exact Hp2 |].
    revert Hfire. unfold deliver, listeners, dispatch, fireTimer. exec.
    rewrite Hq. exec. now intros [= <-].
Qed.

(** *** Opening and closing *)

Lemma shown_display (m m' : Manager) (c : Category) :
  display m' !! overlayOf c = display m !! overlayOf c -> shown m' c = shown m c.
Proof. unfold shown. now intros ->. Qed.


Lemma close_spec (c : Category) (q : Page) :
  exists q',
    close c q = Normal tt q' /\
    controls (mgr q') = (fun _ => true) <$> controls (mgr q) /\
    shown (mgr q') c = false /\
    (forall c', c' ≠ c -> shown (mgr q') c' = shown (mgr q) c') /\
    win q' = win q /\
    completedVisits (mgr q') = completedVisits (mgr q) /\
    timers (mgr q') = timers (mgr q) /\
    buttons (mgr q') = buttons (mgr q) /\
    optionsGrid (mgr q') = optionsGrid (mgr q) /\
    mouse (mgr q') = mouse (mgr q) /\
    isDialogueOpen (mgr q') = (if c is Cabin then false else isDialogueOpen (mgr q)) /\
    currentVisit (mgr q') = (if c is Cabin then None else currentVisit (mgr q)).
Proof.
  destruct c as [| |k]; [| |destruct k];
    unfold close, closeDialogue, closeFireplacePopup, closePopup; exec;
    (eexists; split; [reflexivity|]); exec;
    (split; [reflexivity|]);
    (split; [unfold shown; cbn; now maps|]);
    (split; [|repeat split]);
    intros c' Hc'; apply shown_display; exec;
    overlay_lookups; congruence.
Qed.

Lemma open_spec (c : Category) (stationId : nat) (p : Page) :
  validStation elderVisits c stationId ->
  exists p1,
    open elderVisits c stationId p = Normal tt p1 /\
    controls (mgr p1) = (fun _ => false) <$> controls (mgr p) /\
    shown (mgr p1) c = true /\
    (forall c', c' ≠ c -> shown (mgr p1) c' = shown (mgr p) c') /\
    win p1 = win p /\
    completedVisits (mgr p1) = completedVisits (mgr p) /\
    timers (mgr p1) = timers (mgr p) /\
    buttons (mgr p1) = buttons (mgr p) /\
    optionsGrid (mgr p1) = optionsGrid (mgr p) /\
    mouse (mgr p1) = mouse (mgr p).
Proof.
  intros Hvalid. destruct c as [| |k]; cbn [validStation open] in *;
    destruct Hvalid as [x Hx].
  - unfold startVisit. exec. rewrite Hx. exec.
    case_bool_decide; exec.
    + eexists. split; [reflexivity|]. exec.
      split; [reflexivity|]. split; [unfold shown; cbn; now maps|].
      split; [|repeat split].
      intros c' Hc'. apply shown_display. exec. overlay_lookups; congruence.
    + unfold displayCurrentStep. exec.
      destruct (ElderVisits.greeting x !! 0%nat); exec;
        (eexists; split; [reflexivity|]); exec;
        (split; [reflexivity|]); (split; [unfold shown; cbn; now maps|]);
        (split; [|repeat split]);
        intros c' Hc'; apply shown_display; exec; overlay_lookups; congruence.
  - unfold openFireplacePopup. exec. rewrite Hx. exec.
    eexists. split; [reflexivity|]. exec.
    split; [reflexivity|]. split; [unfold shown; cbn; now maps|].
    split; [|repeat split].
    intros c' Hc'. apply shown_display. exec. overlay_lookups; congruence.
  - unfold openPopup. exec. rewrite Hx. exec.
    eexists. split; [reflexivity|]. exec.
    split; [reflexivity|]. split; [unfold shown; cbn; destruct k; now maps|].
    split; [|repeat split].
    intros c' Hc'. apply shown_display. exec. overlay_lookups; congruence.
Qed.

Lemma bind_ret_unit {S} (m : M S unit) (s : S) : (m ;;; ret tt) s = m s.
Proof. unfold bind, ret. destruct (m s) as [[] s'| |]; reflexivity. Qed.

Lemma bind_ext {S A B} (m : M S A) (k k' : A -> M S B) :
  (forall a s, k a s = k' a s) -> forall s, bind m k s = bind m k' s.
Proof. intros H s. unfold bind. destruct (m s); auto. Qed.

Lemma close_all (cs : list Category) :
  forall q, exists q',
    foldr (fun c k => close c ;;; k) (ret tt) cs q = Normal tt q' /\
    controls (mgr q') = (if cs is [] then controls (mgr q)
                         else (fun _ => true) <$> controls (mgr q)) /\
    (forall c, c ∈ cs -> shown (mgr q') c = false) /\
    (forall c, c ∉ cs -> shown (mgr q') c = shown (mgr q) c).
Proof.
  induction cs as [|c cs IH]; intros q.
  - exists q. repeat split. intros c Hc. now apply not_elem_of_nil in Hc.
  - destruct (close_spec c q) as (q1 & Hclose & Hctl & Hshown & Hothers & _).
    destruct (IH q1) as (q' & Hrest & Hctl' & Hclosed & Hkept).
    exists q'. cbn [foldr]. unfold bind at 1. rewrite Hclose.
    split; [exact Hrest|]. split; [|split].
    + rewrite Hctl', Hctl. destruct cs, (controls (mgr q)); reflexivity.
    + intros c' Hc'. destruct (decide (c' ∈ cs)) as [Hin|Hout]; [auto|].
      apply elem_of_cons in Hc' as [->|Hin]; [|contradiction].
      now rewrite Hkept.
    + intros c' Hc'. apply not_elem_of_cons in Hc' as [Hne Hout].
      rewrite Hkept by exact Hout. now apply Hothers.
Qed.

Lemma onEscape_spec (q : Page) :
  exists q',
    onEscape q = Normal tt q' /\
    controls (mgr q') = (fun _ => true) <$> controls (mgr q) /\
    openOverlays (mgr q') = 0%nat.
Proof.
  destruct (close_all (Cabin :: experienceOverlays) q) as (q' & Hrun & Hctl & Hclosed & _).
  exists q'. split; [|split; [exact Hctl|]].
  - rewrite <- Hrun. clear. unfold onEscape, experienceOverlays. cbn [foldr]. revert q.
    repeat match goal with
           | |- forall s, bind ?m ?k s = bind _ ?k' s => apply (bind_ext m k k'); intros _
           end.
    intros q. symmetry. apply (bind_ret_unit closeMemorialPopup).
  - unfold openOverlays. clear Hrun. revert Hclosed.
    generalize (Cabin :: experienceOverlays). intros cs.
    induction cs as [|c cs IH]; intros Hclosed; [reflexivity|].
    rewrite filter_cons_False.
    + apply IH. intros c' Hc'. apply Hclosed. now right.
    + rewrite Hclosed by now left. discriminate.
Qed.

(** C9, as the code has it. Opening the overlay of a station and closing it
    at once returns with the controls enabled, the window (and so the stored
    keys and the progress bar) untouched, that overlay hidden, the other
    overlays, the completed set, the timers, the option buttons and the
    pointer as before, and no dialogue session left behind.  What [open]
    wrote into the widgets and into the other fields of the manager stays
    there.  Every close method, and the Escape key, leave the controls
    enabled. *)
Theorem open_then_close (p : Page) (c : Category) (stationId : nat) :
  validStation elderVisits c stationId ->
  (exists p',
     (open elderVisits c stationId ;;; close c) p = Normal tt p' /\
     controls (mgr p') = (fun _ => true) <$> controls (mgr p) /\
     win p' = win p /\
     shown (mgr p') c = false /\
     (forall c', c' ≠ c -> shown (mgr p') c' = shown (mgr p) c') /\
     completedVisits (mgr p') = completedVisits (mgr p) /\
     timers (mgr p') = timers (mgr p) /\
     buttons (mgr p') = buttons (mgr p) /\
     optionsGrid (mgr p') = optionsGrid (mgr p) /\
     mouse (mgr p') = mouse (mgr p) /\
     isDialogueOpen (mgr p') = (if c is Cabin then false else isDialogueOpen (mgr p)) /\
     currentVisit (mgr p') = (if c is Cabin then None else currentVisit (mgr p))) /\
  (forall c' q, exists q',
     close c' q = Normal tt q' /\
     controls (mgr q') = (fun _ => true) <$> controls (mgr q) /\
     shown (mgr q') c' = false) /\
  (forall q, exists q',
     onEscape q = Normal tt q' /\
     controls (mgr q') = (fun _ => true) <$> controls (mgr q) /\
     openOverlays (mgr q') = 0%nat).
Proof.
  intros Hvalid. split; [|split].
  - destruct (open_spec c stationId p Hvalid)
      as (p1 & Hopen & Hc1 & _ & Hothers1 & Hw1 & Hcv1 & Ht1 & Hb1 & Hg1 & Hm1).
    destruct (close_spec c p1)
      as (p' & Hclose & Hc & Hshown & Hothers & Hw & Hcv & Ht & Hb & Hg & Hm & Hopen' & Hvisit).
    exists p'. unfold bind. rewrite Hopen.
    split; [exact Hclose|].
    split; [rewrite Hc, Hc1; apply controls_restored|].
    split; [congruence|]. split; [exact Hshown|].
    split; [intros c' Hc'; rewrite Hothers, Hothers1 by exact Hc'; reflexivity|].
    repeat (split; [congruence|]).
    assert (Hkeep : c ≠ Cabin -> isDialogueOpen (mgr p1) = isDialogueOpen (mgr p) /\
                                 currentVisit (mgr p1) = currentVisit (mgr p)).
    { intros Hc0. destruct c as [| |k]; [congruence| |]; cbn [validStation open] in *;
        destruct Hvalid as [x Hx]; revert Hopen;
        unfold openFireplacePopup, openPopup; exec; rewrite Hx; exec;
        intros [= <-]; split; reflexivity. }
    destruct c; [split; assumption| |];
      (destruct Hkeep as [Hsame1 Hsame2]; [discriminate|split; congruence]).
  - intros c' q. destruct (close_spec c' q) as (q' & H1 & H2 & H3 & _). eauto.
  - apply onEscape_spec.
Qed.

(** *** The complete cabin flow *)

Lemma start_visiting (p : Page) (localId : nat) (visit : ElderVisit) :
  elderVisits !! localId = Some visit ->
  exists p1,
    startVisit elderVisits localId p = Normal tt p1 /\
    visiting visit localId 0 [] p p1.
Proof.
  intros Hv. unfold startVisit. exec. rewrite Hv. exec.
  case_bool_decide; exec.
  - eexists. split; [reflexivity|]. unfold visiting. exec.
    rewrite app_nil_r. repeat split.
  - unfold displayCurrentStep. exec.
    destruct (ElderVisits.greeting visit !! 0%nat); exec;
      (eexists; split; [reflexivity|]); unfold visiting; exec;
      rewrite app_nil_r; repeat split.
Qed.

Lemma advance_visiting
  (p0 p1 : Page) (localId step : nat) (visit : ElderVisit) (extra : list OptionBtn) :
  visiting visit localId step extra p0 p1 ->
  exists p2,
    advanceDialogue p1 = Normal tt p2 /\
    visiting visit localId (S step)
      (extra ++ if (S step =? length (ElderVisits.greeting visit))%nat
                then map optionBtn (ElderVisits.options (ElderVisits.math visit))
                else []) p0 p2.
Proof.
  intros (Hw & Hv & Hn & Hs & Ht & Hc & Hctl & Hb).
  unfold advanceDialogue. exec. rewrite Hv, Hs. exec.
  destruct (Nat.ltb_spec (S step) (length (ElderVisits.greeting visit))) as [Hlt|Hge].
  - replace (S step =? _)%nat with false by (symmetry; apply Nat.eqb_neq; lia).
    unfold displayCurrentStep. exec. rewrite Hv. exec.
    destruct (ElderVisits.greeting visit !! S step); exec;
      (eexists; split; [reflexivity|]); unfold visiting; exec;
      rewrite app_nil_r; repeat split; assumption.
  - destruct (Nat.eqb_spec (S step) (length (ElderVisits.greeting visit))) as [Heq|Hne].
    + unfold showMathQuestion. exec. rewrite Hv. exec. rewrite createOptions. exec.
      eexists. split; [reflexivity|]. unfold visiting. exec.
      rewrite Hb, app_assoc. repeat split; assumption.
    + eexists. split; [reflexivity|]. unfold visiting. exec.
      rewrite app_nil_r. repeat split; assumption.
Qed.

Lemma advance_to_challenge (visit : ElderVisit) (localId : nat) (p0 : Page) (n : nat) :
  forall (step : nat) (p1 : Page),
    visiting visit localId step [] p0 p1 ->
    (step + S n = length (ElderVisits.greeting visit))%nat ->
    exists p2,
      times (S n) advanceDialogue p1 = Normal tt p2 /\
      visiting visit localId (length (ElderVisits.greeting visit))
        (map optionBtn (ElderVisits.options (ElderVisits.math visit))) p0 p2.
Proof.
  induction n as [|n IH]; intros step p1 Hp1 Hlen;
    destruct (advance_visiting p0 p1 localId step visit [] Hp1) as (p2 & Hadv & Hp2);
    cbn [times]; unfold bind; rewrite Hadv.
  - replace (S step =? _)%nat with true in Hp2 by (symmetry; apply Nat.eqb_eq; lia).
    replace (S step) with (length (ElderVisits.greeting visit)) in Hp2 by lia.
    exists p2. split; [reflexivity | exact Hp2].
  - replace (S step =? _)%nat with false in Hp2 by (symmetry; apply Nat.eqb_neq; lia).
    apply (IH (S step) p2 Hp2). lia.
Qed.

Lemma acknowledge_visiting
  (p0 p2 : Page) (v : Variant) (keys : list string) (localId i : nat)
  (visit : ElderVisit) (opt : MathOption) :
  visiting visit localId (length (ElderVisits.greeting visit))
    (map optionBtn (ElderVisits.options (ElderVisits.math visit))) p0 p2 ->
  ElderVisits.options (ElderVisits.math visit) !! i = Some opt ->
  ElderVisits.correct opt = true ->
  timers (mgr p0) = [] ->
  progressApi (win p0) = Some v ->
  visitedKeys (win p0) = Some keys ->
  exists p' keys',
    (clickOption (length (buttons (mgr p0)) + i) ;;;
     fireTimer ;;;
     clickProperty "continue-btn") p2 = Normal tt p' /\
    visitedKeys (win p') = Some keys' /\
    stationKey "cabin" (localId + 1) ∈ keys' /\
    phase (mgr p') = Closed /\
    shown (mgr p') Cabin = false /\
    currentVisit (mgr p') = None /\
    controls (mgr p') = (fun _ => true) <$> controls (mgr p0) /\
    ElderVisits.id visit ∈ completedVisits (mgr p').
Proof.
  intros (Hw & Hv & Hn & Hs & Ht & Hc & Hctl & Hb) Hopt Hcorrect Htimers Hapi Hkeys.
  assert (Hbtn : buttons (mgr p2) !! (length (buttons (mgr p0)) + i)%nat
                 = Some (optionBtn opt)).
  { rewrite Hb, lookup_app_r by lia.
    replace (length (buttons (mgr p0)) + i - length (buttons (mgr p0)))%nat with i by lia.
    rewrite list_lookup_fmap, Hopt. reflexivity. }
  destruct (mark_keys v "cabin" (localId + 1) (win p0) keys Hkeys) as (w' & Hmark & Hkeys').
  unfold clickOption. exec. rewrite Hbtn. cbn [optionBtn isCorrect]. rewrite Hcorrect.
  unfold handleAnswer. exec.
  unfold fireTimer. exec. rewrite Ht, Htimers. cbn [app].
  unfold showSuccess. exec. rewrite Hv. exec.
  unfold clickProperty. exec. maps.
  unfold runHandler, completeVisit. exec. rewrite Hv. exec. rewrite Hn.
  unfold markVisited. exec. rewrite Hw, Hapi.
  unfold inWindow. exec. rewrite ?Hw, Hmark.
  unfold closeDialogue. exec.
  eexists. eexists. split; [reflexivity|]. exec.
  split; [exact Hkeys'|]. split; [apply mark_member|].
  unfold phase, shown. exec. maps.
  repeat split.
  - rewrite Hctl. apply controls_restored.
  - apply elem_of_union_l, elem_of_singleton. reflexivity.
Qed.

(** C6. The complete cabin flow records the cabin under its 1-based number
    and ends in Closed.  For every visit of the table with at least one
    greeting line and a correct option, on a page with the progress API
    installed, a readable store and no feedback timer pending: starting the
    visit, advancing once per greeting line, picking the correct option,
    letting the feedback timer fire and acknowledging returns with the key
    [cabin-(localId+1)] in the stored set, the overlay hidden, no current
    visit, the dialogue closed, the controls enabled and the visit in the
    completed set. *)
Theorem full_cabin_flow
  (p : Page) (v : Variant) (keys : list string) (localId i : nat)
  (visit : ElderVisit) (opt : MathOption) :
  elderVisits !! localId = Some visit ->
  ElderVisits.greeting visit ≠ [] ->
  ElderVisits.options (ElderVisits.math visit) !! i = Some opt ->
  ElderVisits.correct opt = true ->
  timers (mgr p) = [] ->
  progressApi (win p) = Some v ->
  visitedKeys (win p) = Some keys ->
  exists p' keys',
    cabinFlow elderVisits (length (ElderVisits.greeting visit)) localId
      (length (buttons (mgr p)) + i) p = Normal tt p' /\
    visitedKeys (win p') = Some keys' /\
    stationKey "cabin" (localId + 1) ∈ keys' /\
    phase (mgr p') = Closed /\
    shown (mgr p') Cabin = false /\
    currentVisit (mgr p') = None /\
    controls (mgr p') = (fun _ => true) <$> controls (mgr p) /\
    ElderVisits.id visit ∈ completedVisits (mgr p').
Proof.
  intros Hvisit Hgreeting Hopt Hcorrect Htimers Hapi Hkeys.
  destruct (start_visiting p localId visit Hvisit) as (p1 & Hstart & Hp1).
  destruct (length (ElderVisits.greeting visit)) as [|n] eqn:Hlen.
  { destruct (ElderVisits.greeting visit); [congruence | discriminate]. }
  destruct (advance_to_challenge visit localId p n 0%nat p1 Hp1) as (p2 & Hadv & Hp2);
    [rewrite Hlen; reflexivity|].
  rewrite Hlen in Hp2. rewrite <- Hlen in Hp2.
  destruct (acknowledge_visiting p p2 v keys localId i visit opt
              Hp2 Hopt Hcorrect Htimers Hapi Hkeys) as (p' & keys' & Hack & Hrest).
  exists p', keys'. split; [|exact Hrest].
  unfold cabinFlow. unfold bind at 1. rewrite Hstart.
  unfold bind at 1. rewrite Hadv. exact Hack.
Qed.

End Dialogue.

Section Picking.

Variable elderVisits : list ElderVisit.

(** *** One overlay at a time *)

#[local] Instance calm_refl : Reflexive calm.
Proof. intros p. split; auto. Qed.

#[local] Instance calm_trans : Transitive calm.
Proof.
  intros p q r [Hpq1 Hpq2] [Hqr1 Hqr2]. split; [auto|].
  intros Hopen Hr. apply Hqr2; [|exact Hr]. apply Hpq2; auto.
Qed.

Lemma filter_shown_le (f g : Category -> bool) (cs : list Category) :
  (forall c, f c = true -> g c = true) ->
  (length (filter (fun c => f c = true) cs) <= length (filter (fun c => g c = true) cs))%nat.
Proof.
  intros Hfg. induction cs as [|c cs IH]; [reflexivity|].
  rewrite !filter_cons. destruct (decide (f c = true)) as [Hf|Hf].
  - rewrite decide_True by auto. cbn [length]. lia.
  - destruct (decide (g c = true)); cbn [length]; lia.
Qed.

Lemma calm_exclusive (p p' : Page) : calm p p' -> exclusive p -> exclusive p'.
Proof.
  intros [Hshown Hflag] [Hone Hdialogue]. split.
  - etransitivity; [|exact Hone]. unfold openOverlays. now apply filter_shown_le.
  - intros Hc. apply Hflag; [|exact Hc]. apply Hdialogue, Hshown, Hc.
Qed.

(** A single update that writes neither an overlay's display nor the
    dialogue flag. *)
Ltac calm_leaf :=
  idtac;
  unfold calm, shown, set_win; rewrite ?createOptions; exec;
  split; [|tauto];
  let c := fresh "c" in
  intros c; try exact (fun H => H);
  destruct c as [| |[]]; overlay_maps; exact (fun H => H).

Lemma calm_close (c : Category) : respects calm (close c).
Proof.
  intros q.
  destruct (close_spec c q) as (q' & -> & _ & Hshown & Hothers & _ & _ & _ & _ & _ & _ & Hopen & _).
  split.
  - intros c' Hc'. destruct (decide (c' = c)) as [->|Hne]; [congruence|].
    now rewrite <- Hothers.
  - intros Hflag Hcabin. destruct c; [congruence | exact (eq_trans Hopen Hflag)..].
Qed.

Ltac calm_known :=
  idtac;
  lazymatch goal with
  | |- respects calm closeDialogue => apply (calm_close Cabin)
  | |- respects calm closeFireplacePopup => apply (calm_close Fireplace)
  | |- respects calm (closePopup ?k) => apply (calm_close (Single k))
  end.

Ltac calm_auto := respects_auto calm_known calm_leaf.

Lemma calm_advanceDialogue : respects calm advanceDialogue.
Proof. calm_auto. Qed.

Lemma calm_clickProperty (elem : string) : respects calm (clickProperty elem).
Proof. calm_auto. Qed.

Lemma calm_clickOption (btn : nat) : respects calm (clickOption btn).
Proof. calm_auto. Qed.

Lemma calm_fireTimer : respects calm fireTimer.
Proof. calm_auto. Qed.

Lemma calm_onEscape : respects calm onEscape.
Proof. calm_auto. Qed.

Lemma open_effect (c : Category) (stationId : nat) (p : Page) :
  match open elderVisits c stationId p with
  | Normal _ p' | Throw _ p' =>
      (forall c', shown (mgr p') c' = true -> c' = c \/ shown (mgr p) c' = true) /\
      isDialogueOpen (mgr p') = (if c is Cabin then true else isDialogueOpen (mgr p))
  | Unmodelled => True
  end.
Proof.
  assert (Hsame : forall m m' : Manager, display m' = display m ->
            forall c', shown m' c' = true -> c' = c \/ shown m c' = true).
  { intros m m' Hd c'. unfold shown. rewrite Hd. auto. }
  destruct c as [| |k]; cbn [open].
  - unfold startVisit. exec.
    destruct (elderVisits !! stationId) as [visit|]; exec;
      [|split; [now apply Hsame | reflexivity]].
    case_bool_decide; exec.
    + split; [|reflexivity]. intros c'. unfold shown. exec.
      destruct c' as [| |[]]; overlay_maps; auto.
    + unfold displayCurrentStep. exec.
      destruct (ElderVisits.greeting visit !! 0%nat); exec;
        (split; [|reflexivity]); intros c'; unfold shown; exec;
        destruct c' as [| |[]]; overlay_maps; auto.
  - unfold openFireplacePopup. exec.
    destruct (fireplaceExperiences !! stationId) as [fire|]; exec;
      [|split; [now apply Hsame | reflexivity]].
    split; [|reflexivity]. intros c'. unfold shown. exec.
    destruct c' as [| |[]]; overlay_maps; auto.
  - unfold openPopup. exec.
    destruct (experiencesOf k !! stationId) as [item|]; exec;
      [|split; [now apply Hsame | reflexivity]].
    split; [|reflexivity]. intros c'. unfold shown. exec.
    destruct k, c' as [| |[]]; overlay_maps; auto.
Qed.

Lemma only_one (m : Manager) (c : Category) :
  (forall c', shown m c' = true -> c' = c) -> (openOverlays m <= 1)%nat.
Proof.
  intros Honly. unfold openOverlays, experienceOverlays.
  destruct c as [| |[]];
    repeat (rewrite filter_cons;
            match goal with
            | |- context [decide (shown m ?c' = true)] =>
                destruct (decide (shown m c' = true)) as [Hc|Hc];
                [apply Honly in Hc; try discriminate Hc; clear Hc|clear Hc]
            end);
    rewrite filter_nil; cbn [length]; lia.
Qed.

Lemma canvas_exclusive (event : Pointer) (intersects : list UserData) (p : Page) :
  exclusive p ->
  match onCanvasClick elderVisits event intersects p with
  | Normal _ p' | Throw _ p' => exclusive p'
  | Unmodelled => True
  end.
Proof.
  intros Hp. pose proof Hp as [Hone Hflag]. unfold onCanvasClick. exec.
  destruct (isDialogueOpen (mgr p)) eqn:Hopen; [exact Hp|].
  destruct (existsb (shown (mgr p)) experienceOverlays) eqn:Hex; [exact Hp|]. exec.
  set (p1 := {| win := win p; mgr := set_mouse (Some event) (mgr p) |}).
  assert (Hhidden : forall c, shown (mgr p1) c = false).
  { intros c. change (shown (mgr p) c = false).
    destruct (shown (mgr p) c) eqn:Hc; [|reflexivity].
    destruct c as [| |k].
    - apply Hflag in Hc. congruence.
    - cbn in Hex. rewrite Hc in Hex. discriminate.
    - cbn in Hex. destruct k; rewrite Hc, ?orb_true_r in Hex; discriminate. }
  assert (Hopening : forall c stationId,
            match open elderVisits c stationId p1 with
            | Normal _ p' | Throw _ p' => exclusive p'
            | Unmodelled => True
            end).
  { intros c stationId. pose proof (open_effect c stationId p1) as Heff.
    destruct (open elderVisits c stationId p1) as [[] p'|e p'|]; [| |exact I];
      destruct Heff as [Hshown Hdialogue];
      (assert (Honly : forall c', shown (mgr p') c' = true -> c' = c)
         by (intros c' Hc'; destruct (Hshown c' Hc') as [->|Hc0];
             [reflexivity | rewrite Hhidden in Hc0; discriminate]));
      (split; [exact (only_one _ c Honly)|]);
      intros Hcabin; apply Honly in Hcabin; subst c; exact Hdialogue. }
  destruct intersects as [|userData rest].
  { split; [exact Hone|]. intros Hc. change (shown (mgr p) Cabin = true) in Hc.
    apply Hflag in Hc. congruence. }
  repeat match goal with
         | |- context [if String.eqb ?a ?b then _ else _] => destruct (String.eqb a b)
         end.
  - exact (Hopening Cabin _).
  - exact (Hopening Fireplace _).
  - exact (Hopening (Single Herb) _).
  - exact (Hopening (Single LogPile) _).
  - exact (Hopening (Single Garden) _).
  - exact (Hopening (Single Cart) _).
  - exact (Hopening (Single Fishing) _).
  - exact (Hopening (Single Memorial) _).
  - split; [exact Hone|]. intros Hc. change (shown (mgr p) Cabin = true) in Hc.
    apply Hflag in Hc. congruence.
Qed.

Lemma dispatch_invariant (I : Page -> Prop) (ls : list (M Page unit)) :
  Forall (fun l => forall p, I p -> match l p with
                                    | Normal _ p' | Throw _ p' => I p'
                                    | Unmodelled => True
                                    end) ls ->
  forall errors p r, I p -> dispatch ls errors p = Some r -> I (after r).
Proof.
  induction 1 as [|l ls Hl _ IH]; intros errors p r Hp Hrun; cbn [dispatch] in Hrun.
  - injection Hrun as <-. exact Hp.
  - specialize (Hl p Hp). destruct (l p) as [[] p'|e p'|]; [eauto..|discriminate].
Qed.

Lemma calm_listener (l : M Page unit) :
  respects calm l ->
  forall p, exclusive p -> match l p with
                           | Normal _ p' | Throw _ p' => exclusive p'
                           | Unmodelled => True
                           end.
Proof.
  intros Hl p Hp. specialize (Hl p).
  destruct (l p); [| |exact I]; eapply calm_exclusive; eassumption.
Qed.

Lemma deliver_exclusive (ev : Event) (p : Page) (r : Reaction) :
  exclusive p -> deliver elderVisits ev p = Some r -> exclusive (after r).
Proof.
  intros Hp. apply dispatch_invariant; [|exact Hp].
  destruct ev as [event intersects| |c|btn|c| |]; cbn [listeners];
    try destruct c;
    repeat (apply Forall_cons_2; [|try apply Forall_nil_2]);
    try apply Forall_nil_2;
    first [ apply canvas_exclusive | apply calm_listener ].
  - apply calm_advanceDialogue.
  - apply calm_clickProperty.
  - apply (calm_close Cabin).
  - apply (calm_close Fireplace).
  - apply (calm_close (Single _)).
  - apply calm_clickOption.
  - apply calm_clickProperty.
  - apply calm_clickProperty.
  - apply calm_onEscape.
  - apply calm_fireTimer.
Qed.

Lemma run_exclusive (evs : list Event) :
  forall p r, exclusive p -> run elderVisits evs p = Some r -> exclusive (after r).
Proof.
  induction evs as [|ev evs IH]; intros p r Hp Hrun; cbn [run] in Hrun.
  - injection Hrun as <-. exact Hp.
  - destruct (deliver elderVisits ev p) as [r0|] eqn:Hev; [|discriminate].
    destruct (run elderVisits evs (after r0)) as [r1|] eqn:Hrest; [|discriminate].
    injection Hrun as <-. cbn [after].
    eapply IH; [|exact Hrest]. eapply deliver_exclusive; eassumption.
Qed.

Lemma loadPage_exclusive (v : Variant) (controls : option bool) (w : Window) (p : Page) :
  loadPage v controls w = Some p -> exclusive p.
Proof.
  unfold loadPage. destruct (loadProgress v w); [|discriminate].
  intros [= <-]. split.
  - assert (E : openOverlays (newManager controls) = 0%nat) by (vm_compute; reflexivity).
    cbn [mgr]. rewrite E. lia.
  - assert (E : shown (newManager controls) Cabin = false) by (vm_compute; reflexivity).
    cbn [mgr]. rewrite E. discriminate.
Qed.

(** C4. Picking is gated on every overlay.  A canvas click that arrives
    while [isDialogueOpen] is true or while one of the seven experience
    overlays is displayed returns at once with the page as it was: the
    pointer is not read, no ray is cast, nothing opens.  In every run of
    events from page load at most one of the eight overlays is displayed,
    and the dialogue overlay is displayed only while [isDialogueOpen] is
    true, so the gate covers it too. *)
Theorem picking_gate
  (v : Variant) (controls : option bool) (w : Window) (p0 : Page)
  (evs : list Event) (r : Reaction) :
  loadPage v controls w = Some p0 ->
  run elderVisits evs p0 = Some r ->
  (openOverlays (mgr (after r)) <= 1)%nat /\
  (shown (mgr (after r)) Cabin = true -> isDialogueOpen (mgr (after r)) = true) /\
  (forall (q : Page) (event : Pointer) (intersects : list UserData),
     isDialogueOpen (mgr q) = true \/
     (exists c, c ∈ experienceOverlays /\ shown (mgr q) c = true) ->
     onCanvasClick elderVisits event intersects q = Normal tt q /\
     deliver elderVisits (CanvasClick event intersects) q
       = Some {| reported := []; after := q |}).
Proof.
  intros Hload Hrun.
  destruct (run_exclusive evs p0 r (loadPage_exclusive v controls w p0 Hload) Hrun)
    as [Hone Hflag].
  split; [exact Hone|]. split; [exact Hflag|].
  intros q event intersects Hopen.
  assert (Hgate : onCanvasClick elderVisits event intersects q = Normal tt q).
  { unfold onCanvasClick. exec.
    destruct (isDialogueOpen (mgr q)); [reflexivity|].
    destruct Hopen as [Hopen|(c & Hc & Hshown)]; [discriminate|].
    replace (existsb (shown (mgr q)) experienceOverlays) with true; [reflexivity|].
    symmetry. apply existsb_exists. exists c. split; [|exact Hshown].
    apply list_elem_of_In, Hc. }
  split; [exact Hgate|].
  unfold deliver. cbn [listeners dispatch]. now rewrite Hgate.
Qed.

End Picking.

Section Session.

Variable elderVisits : list ElderVisit.

(** *** The completed set *)

#[local] Instance sameCompleted_refl : Reflexive sameCompleted.
Proof. intros p. split; auto. Qed.

#[local] Instance sameCompleted_trans : Transitive sameCompleted.
Proof. intros p q r [H1 H2] [H3 H4]. split; [congruence | auto]. Qed.

#[local] Instance sameSession_refl : Reflexive sameSession.
Proof. intros p. repeat split. Qed.

#[local] Instance sameSession_trans : Transitive sameSession.
Proof. intros p q r (H1 & H2 & H3) (H4 & H5 & H6). repeat split; congruence. Qed.

Ltac explore_maps :=
  cbn [exploreBtnOf kindName];
  try change ("herb" ++ "-explore-btn") with "herb-explore-btn";
  try change ("logpile" ++ "-explore-btn") with "logpile-explore-btn";
  try change ("garden" ++ "-explore-btn") with "garden-explore-btn";
  try change ("cart" ++ "-explore-btn") with "cart-explore-btn";
  try change ("fishing" ++ "-explore-btn") with "fishing-explore-btn";
  try change ("memorial" ++ "-explore-btn") with "memorial-explore-btn";
  maps.

(** A single update that leaves the completed set alone and binds explore
    buttons to explore actions only. *)
Ltac sameCompleted_leaf :=
  idtac;
  repeat match goal with k : StationKind |- _ => destruct k end;
  unfold sameCompleted, tidy, set_win; rewrite ?createOptions; exec;
  (split; [reflexivity|]);
  let Ht := fresh "Ht" in let c := fresh "c" in let h := fresh "h" in
  let Hc := fresh "Hc" in
  intros Ht; try exact Ht;
  intros c h Hc; destruct c as [| |[]]; try congruence; explore_maps;
  first [ intros [= <-]; eauto | exact (Ht _ h Hc) ].

Ltac sameSession_leaf :=
  idtac; unfold sameSession, set_win; rewrite ?createOptions; exec; repeat split.

Ltac nothing_known := idtac; fail.

Lemma sameSession_advanceDialogue : respects sameSession advanceDialogue.
Proof. respects_auto nothing_known sameSession_leaf. Qed.

Lemma sameCompleted_onCanvasClick (event : Pointer) (intersects : list UserData) :
  respects sameCompleted (onCanvasClick elderVisits event intersects).
Proof. respects_auto nothing_known sameCompleted_leaf. Qed.

Lemma sameCompleted_close (c : Category) : respects sameCompleted (close c).
Proof. destruct c; respects_auto nothing_known sameCompleted_leaf. Qed.

Lemma sameCompleted_clickOption (btn : nat) : respects sameCompleted (clickOption btn).
Proof. respects_auto nothing_known sameCompleted_leaf. Qed.

Lemma sameCompleted_onEscape : respects sameCompleted onEscape.
Proof. respects_auto nothing_known sameCompleted_leaf. Qed.

Lemma sameCompleted_fireTimer : respects sameCompleted fireTimer.
Proof. respects_auto nothing_known sameCompleted_leaf. Qed.

Lemma sameCompleted_runHandler (h : Handler) :
  h ≠ HComplete -> respects sameCompleted (runHandler h).
Proof.
  intros Hh. destruct h; [| |congruence|]; respects_auto nothing_known sameCompleted_leaf.
Qed.

(** Acknowledging the success screen: the visit on screen joins the set. *)
Lemma completeVisit_completed (p : Page) :
  match completeVisit p with
  | Normal _ p' | Throw _ p' =>
      onclick (mgr p') = onclick (mgr p) /\
      (completedVisits (mgr p') = completedVisits (mgr p) \/
       exists visit, currentVisit (mgr p) = Some visit /\
                     completedVisits (mgr p')
                     = {[ElderVisits.id visit]} ∪ completedVisits (mgr p))
  | Unmodelled => True
  end.
Proof.
  unfold completeVisit. exec.
  destruct (currentVisit (mgr p)) as [visit|] eqn:Hvisit; exec; [|auto].
  destruct (currentCabinNumber (mgr p)) as [n|]; [|exact I].
  unfold markVisited. exec.
  destruct (progressApi (win p)) as [v|]; exec.
  - unfold inWindow. exec.
    destruct (markStationVisited v "cabin" n (win p)) as [[] w'|e w'|]; exec;
      [unfold closeDialogue; exec| |exact I]; split; eauto.
  - unfold closeDialogue. exec. split; eauto.
Qed.

Lemma single_listener (R : Page -> Page -> Prop) (l : M Page unit) (p : Page) (r : Reaction) :
  respects R l -> dispatch [l] [] p = Some r -> R p (after r).
Proof.
  intros Hl. specialize (Hl p). cbn [dispatch].
  destruct (l p) as [[] p'|e p'|]; [| |discriminate]; intros [= <-]; exact Hl.
Qed.

Lemma clickProperty_completed (elem : string) (p : Page) :
  match clickProperty elem p with
  | Normal _ p' | Throw _ p' =>
      (tidy (mgr p) -> tidy (mgr p')) /\
      (completedVisits (mgr p') = completedVisits (mgr p) \/
       onclick (mgr p) !! elem = Some HComplete /\
       exists visit, currentVisit (mgr p) = Some visit /\
                     completedVisits (mgr p')
                     = {[ElderVisits.id visit]} ∪ completedVisits (mgr p))
  | Unmodelled => True
  end.
Proof.
  unfold clickProperty. exec.
  destruct (onclick (mgr p) !! elem) as [h|] eqn:Hh; [|cbn; auto].
  assert (Hother : h ≠ HComplete ->
            match runHandler h p with
            | Normal _ p' | Throw _ p' =>
                (tidy (mgr p) -> tidy (mgr p')) /\
                (completedVisits (mgr p') = completedVisits (mgr p) \/
                 Some h = Some HComplete /\
                 exists visit, currentVisit (mgr p) = Some visit /\
                               completedVisits (mgr p')
                               = {[ElderVisits.id visit]} ∪ completedVisits (mgr p))
            | Unmodelled => True
            end).
  { intros Hne. pose proof (sameCompleted_runHandler h Hne p) as Hrun.
    destruct (runHandler h p); [| |exact I]; destruct Hrun; auto. }
  destruct h; try (apply Hother; discriminate). clear Hother.
  cbn [runHandler]. pose proof (completeVisit_completed p) as Hdone.
  destruct (completeVisit p); [| |exact I]; destruct Hdone as [Hon Hcv];
    (split; [unfold tidy; now rewrite Hon|]);
    (destruct Hcv as [Heq|Hadd]; [left; exact Heq | right; auto]).
Qed.

Lemma deliver_completed (ev : Event) (p : Page) (r : Reaction) :
  deliver elderVisits ev p = Some r ->
  tidy (mgr p) ->
  tidy (mgr (after r)) /\
  (completedVisits (mgr (after r)) = completedVisits (mgr p) \/
   ev = ContinueClick /\
   onclick (mgr p) !! "continue-btn" = Some HComplete /\
   exists visit, currentVisit (mgr p) = Some visit /\
                 completedVisits (mgr (after r))
                 = {[ElderVisits.id visit]} ∪ completedVisits (mgr p)).
Proof.
  intros Hev Htidy.
  assert (Hsame : sameCompleted p (after r) ->
            tidy (mgr (after r)) /\
            (completedVisits (mgr (after r)) = completedVisits (mgr p) \/
             ev = ContinueClick /\
             onclick (mgr p) !! "continue-btn" = Some HComplete /\
             exists visit, currentVisit (mgr p) = Some visit /\
                           completedVisits (mgr (after r))
                           = {[ElderVisits.id visit]} ∪ completedVisits (mgr p)))
    by (intros [H1 H2]; auto).
  assert (Hexplore : forall c, c ≠ Cabin ->
            dispatch [clickProperty (exploreBtnOf c)] [] p = Some r ->
            sameCompleted p (after r)).
  { intros c Hc. cbn [dispatch].
    pose proof (clickProperty_completed (exploreBtnOf c) p) as Hclick.
    assert (Hno : onclick (mgr p) !! exploreBtnOf c ≠ Some HComplete).
    { intros Hh. destruct (Htidy c _ Hc Hh) as (? & ? & ? & ?). discriminate. }
    destruct (clickProperty (exploreBtnOf c) p) as [[] p'|e p'|]; [| |discriminate];
      intros [= <-]; destruct Hclick as [Ht [Hcv|[Hh _]]]; try contradiction;
      split; assumption. }
  unfold deliver in Hev.
  destruct ev as [event intersects| |c|btn|c| |]; cbn [listeners] in Hev.
  - apply Hsame. eapply single_listener; [apply sameCompleted_onCanvasClick | exact Hev].
  - (* Continue: the listener of setupEvents, then the onclick property *)
    clear Hsame Hexplore. cbn [dispatch] in Hev.
    pose proof (sameSession_advanceDialogue p) as Hadv.
    assert (Hstep : exists errors p1,
              sameSession p p1 /\
              match clickProperty "continue-btn" p1 with
              | Normal _ p' => Some {| reported := errors; after := p' |}
              | Throw e p' => Some {| reported := errors ++ [e]; after := p' |}
              | Unmodelled => None
              end = Some r).
    { destruct (advanceDialogue p) as [[] p1|e p1|]; [| |discriminate]; eauto. }
    clear Hev Hadv. destruct Hstep as (errors & p1 & (Hcv & Hon & Hvisit) & Hev).
    assert (Htidy1 : tidy (mgr p1)) by (unfold tidy; rewrite Hon; exact Htidy).
    pose proof (clickProperty_completed "continue-btn" p1) as Hclick.
    rewrite Hon, Hcv, Hvisit in Hclick.
    destruct (clickProperty "continue-btn" p1) as [[] p'|e p'|]; [| |discriminate];
      injection Hev as <-; cbn [after]; destruct Hclick as [Ht Hdone];
      (split; [auto|]); (destruct Hdone as [Heq|Hadd]; [left; exact Heq | right; auto]).
  - apply Hsame. eapply single_listener; [apply sameCompleted_close | exact Hev].
  - apply Hsame. eapply single_listener; [apply sameCompleted_clickOption | exact Hev].
  - apply Hsame. destruct c as [| |k].
    + injection Hev as <-. reflexivity.
    + now apply (Hexplore Fireplace).
    + now apply (Hexplore (Single k)).
  - apply Hsame. eapply single_listener; [apply sameCompleted_onEscape | exact Hev].
  - apply Hsame. eapply single_listener; [apply sameCompleted_fireTimer | exact Hev].
Qed.

Lemma run_cons (ev : Event) (evs : list Event) (p : Page) (r : Reaction) :
  run elderVisits (ev :: evs) p = Some r ->
  exists r0 r1,
    deliver elderVisits ev p = Some r0 /\
    run elderVisits evs (after r0) = Some r1 /\
    after r = after r1.
Proof.
  cbn [run]. destruct (deliver elderVisits ev p) as [r0|] eqn:Hev; [|discriminate].
  destruct (run elderVisits evs (after r0)) as [r1|] eqn:Hrest; [|discriminate].
  intros [= <-]. exists r0, r1. repeat split. exact Hrest.
Qed.

Lemma run_completed (evs : list Event) :
  forall (p : Page) (r : Reaction) (localId : nat),
    run elderVisits evs p = Some r ->
    tidy (mgr p) ->
    localId ∈ completedVisits (mgr (after r)) ->
    localId ∈ completedVisits (mgr p) \/
    exists (evs1 evs2 : list Event) (r1 : Reaction) (visit : ElderVisit),
      evs = (evs1 ++ ContinueClick :: evs2)%list /\
      run elderVisits evs1 p = Some r1 /\
      onclick (mgr (after r1)) !! "continue-btn" = Some HComplete /\
      currentVisit (mgr (after r1)) = Some visit /\
      ElderVisits.id visit = localId.
Proof.
  induction evs as [|ev evs IH]; intros p r localId Hrun Htidy Hin.
  - injection Hrun as <-. left. exact Hin.
  - destruct (run_cons ev evs p r Hrun) as (r0 & r1 & Hev & Hrest & Hafter).
    rewrite Hafter in Hin.
    destruct (deliver_completed ev p r0 Hev Htidy) as [Htidy0 Hstep].
    destruct (IH (after r0) r1 localId Hrest Htidy0 Hin)
      as [Hin0|(evs1 & evs2 & r2 & visit & -> & Hrun1 & Hon & Hvisit & Hid)].
    + destruct Hstep as [Heq|(-> & Hon & visit & Hvisit & Hadd)].
      * left. now rewrite <- Heq.
      * rewrite Hadd in Hin0. apply elem_of_union in Hin0 as [Hnew|Hold]; [|now left].
        apply elem_of_singleton in Hnew. right.
        exists [], evs, {| reported := []; after := p |}, visit. auto.
    + right. exists (ev :: evs1), evs2.
      eexists {| reported := (reported r0 ++ reported r2)%list; after := after r2 |}, visit.
      split; [reflexivity|]. split; [|auto].
      cbn [run]. now rewrite Hev, Hrun1.
Qed.

Lemma startVisit_branch (p p1 : Page) (localId : nat) :
  startVisit elderVisits localId p = Normal tt p1 ->
  phase (mgr p1) = AlreadyVisited ->
  localId ∈ completedVisits (mgr p).
Proof.
  unfold startVisit. exec.
  destruct (elderVisits !! localId) as [visit|]; exec; [|discriminate].
  case_bool_decide as Hin; [intros; exact Hin|]. exec.
  unfold displayCurrentStep. exec.
  destruct (ElderVisits.greeting visit !! 0%nat); exec;
    intros [= <-]; unfold phase; exec; maps; case_bool_decide; discriminate.
Qed.

Lemma newManager_tidy (controls : option bool) : tidy (newManager controls).
Proof. intros c h _. cbn [newManager onclick]. now rewrite lookup_empty. Qed.

(** C10. The completed set belongs to the manager and starts empty whatever
    the durable store holds.  On a freshly loaded page, [startVisit] on a
    visit of the table shows its first greeting line with Continue bound to
    advancing, also when the key of that cabin is already stored.  After any
    run of events from page load, [startVisit] takes the welcome-back branch
    only for an id that a visit acknowledged earlier in that run carried:
    some earlier click on Continue found the button bound to [completeVisit]
    and a current visit with that id. *)
Theorem completed_set_is_session_local
  (v : Variant) (controls : option bool) (w : Window) (p0 : Page)
  (localId : nat) (visit : ElderVisit) :
  loadPage v controls w = Some p0 ->
  elderVisits !! localId = Some visit ->
  completedVisits (mgr p0) = ∅ /\
  (exists p1,
     startVisit elderVisits localId p0 = Normal tt p1 /\
     phase (mgr p1) = Greeting 0 /\
     onclick (mgr p1) !! "continue-btn" = Some HAdvance /\
     visibleStory (mgr p1) = Some (default "" (ElderVisits.greeting visit !! 0%nat))) /\
  (forall evs r p1,
     run elderVisits evs p0 = Some r ->
     startVisit elderVisits localId (after r) = Normal tt p1 ->
     phase (mgr p1) = AlreadyVisited ->
     exists (evs1 evs2 : list Event) (r1 : Reaction) (done : ElderVisit),
       evs = (evs1 ++ ContinueClick :: evs2)%list /\
       run elderVisits evs1 p0 = Some r1 /\
       onclick (mgr (after r1)) !! "continue-btn" = Some HComplete /\
       currentVisit (mgr (after r1)) = Some done /\
       ElderVisits.id done = localId).
Proof.
  intros Hload Hvisit.
  assert (Hmgr : mgr p0 = newManager controls).
  { revert Hload. unfold loadPage. destruct (loadProgress v w); [|discriminate].
    now intros [= <-]. }
  split; [now rewrite Hmgr|]. split.
  - unfold startVisit. exec. rewrite Hvisit. exec.
    rewrite Hmgr. cbn [newManager completedVisits display content onclick].
    rewrite bool_decide_eq_false_2 by apply not_elem_of_empty. exec.
    unfold displayCurrentStep. exec.
    destruct (ElderVisits.greeting visit !! 0%nat) as [line|]; exec;
      (eexists; split; [reflexivity|]);
      unfold phase, visibleStory, shown; exec; cbn [overlayOf]; maps;
      repeat split.
  - intros evs r p1 Hrun Hstart Hphase.
    pose proof (startVisit_branch _ _ _ Hstart Hphase) as Hin.
    destruct (run_completed evs p0 r localId Hrun) as [Hin0|Hdone]; try assumption.
    + rewrite Hmgr. apply newManager_tidy.
    + rewrite Hmgr in Hin0. now apply not_elem_of_empty in Hin0.
Qed.

End Session.

Lemma open_then_close_witness :
  (exists p',
     (open sampleVisits Fireplace 1 ;;; close Fireplace) samplePage = Normal tt p' /\
     controls (mgr p') = (fun _ => true) <$> controls (mgr samplePage) /\
     win p' = win samplePage /\
     shown (mgr p') Fireplace = false /\
     (forall c', c' ≠ Fireplace -> shown (mgr p') c' = shown (mgr samplePage) c') /\
     completedVisits (mgr p') = completedVisits (mgr samplePage) /\
     timers (mgr p') = timers (mgr samplePage) /\
     buttons (mgr p') = buttons (mgr samplePage) /\
     optionsGrid (mgr p') = optionsGrid (mgr samplePage) /\
     mouse (mgr p') = mouse (mgr samplePage) /\
     isDialogueOpen (mgr p') = isDialogueOpen (mgr samplePage) /\
     currentVisit (mgr p') = currentVisit (mgr samplePage)) /\
  (forall c' q, exists q',
     close c' q = Normal tt q' /\
     controls (mgr q') = (fun _ => true) <$> controls (mgr q) /\
     shown (mgr q') c' = false) /\
  (forall q, exists q',
     onEscape q = Normal tt q' /\
     controls (mgr q') = (fun _ => true) <$> controls (mgr q) /\
     openOverlays (mgr q') = 0%nat).
Proof.
  apply (open_then_close sampleVisits samplePage Fireplace 1%nat).
  cbn. eexists. reflexivity.
Defined.

(** C9 fails as stated: opening and closing does not leave all other state
    unchanged.  On the sample page, whose controls are enabled to begin with,
    the fire popup keeps the title and the bound action of the fire that was
    opened, and a cabin visit that is opened and closed leaves its number in
    the manager. *)
Lemma open_then_close_changes_state :
  (open sampleVisits Fireplace 1 ;;; close Fireplace) samplePage = Normal tt fireReopened /\
  content (mgr samplePage) !! "fire-title" = Some "Experience Station" /\
  content (mgr fireReopened) !! "fire-title" = Some "L'esprit de Michif" /\
  onclick (mgr samplePage) !! "fire-explore-btn" = None /\
  onclick (mgr fireReopened) !! "fire-explore-btn"
    = Some (HExplore "fire" 1 "experiences/language-game.html") /\
  fireReopened ≠ samplePage /\
  (open sampleVisits Cabin 0 ;;; close Cabin) samplePage = Normal tt cabinReopened /\
  currentCabinNumber (mgr samplePage) = None /\
  currentCabinNumber (mgr cabinReopened) = Some 1%nat /\
  cabinReopened ≠ samplePage.
Proof.
  assert (E1 : onclick (mgr samplePage) !! "fire-explore-btn" = None)
    by (vm_compute; reflexivity).
  assert (E2 : onclick (mgr fireReopened) !! "fire-explore-btn"
               = Some (HExplore "fire" 1 "experiences/language-game.html"))
    by (vm_compute; reflexivity).
  assert (E3 : currentCabinNumber (mgr samplePage) = None)
    by (vm_compute; reflexivity).
  assert (E4 : currentCabinNumber (mgr cabinReopened) = Some 1%nat)
    by (vm_compute; reflexivity).
  split; [vm_compute; reflexivity|].
  split; [vm_compute; reflexivity|].
  split; [vm_compute; reflexivity|].
  split; [exact E1|]. split; [exact E2|].
  split.
  { intros H.
    pose proof (f_equal (fun q => onclick (mgr q) !! "fire-explore-btn") H) as H'.
    cbv beta in H'. congruence. }
  split; [vm_compute; reflexivity|].
  split; [exact E3|]. split; [exact E4|].
  intros H.
  pose proof (f_equal (fun q => currentCabinNumber (mgr q)) H) as H'.
  cbv beta in H'. congruence.
Qed.

Example samplePage_loaded :
  loadPage Island (Some true) (freshWindow None true) = Some samplePage.
Proof. reflexivity. Qed.

Lemma already_visited_shortcut_witness :
  let p := {| win := win samplePage;
              mgr := set_completedVisits {[0%nat]} (mgr samplePage) |} in
  exists p1,
    startVisit sampleVisits 0 p = Normal tt p1 /\
    phase (mgr p1) = AlreadyVisited /\
    visibleStory (mgr p1) = Some WELCOME_BACK /\
    display (mgr p1) !! "math-section" = Some "none" /\
    content (mgr p1) !! "continue-btn" = Some "Leave →" /\
    onclick (mgr p1) !! "continue-btn" = Some HClose /\
    exists p2,
      deliver sampleVisits ContinueClick p1 = Some {| reported := []; after := p2 |} /\
      phase (mgr p2) = Closed /\
      visibleStory (mgr p2) = None /\
      currentVisit (mgr p2) = None /\
      controls (mgr p2) = (fun _ => true) <$> controls (mgr p) /\
      win p2 = win p /\
      completedVisits (mgr p2) = completedVisits (mgr p).
Proof.
  apply (already_visited_shortcut sampleVisits _ 0%nat sampleVisit).
  - reflexivity.
  - cbn. apply elem_of_singleton. reflexivity.
Defined.

(** C1 on the code: the visitor picks the correct option and closes the
    overlay before the 500 ms are over.  When the timer fires, [showSuccess]
    reads [this.currentVisit.math] on the session that [closeDialogue] has
    set to null, and a TypeError is raised.  Had the wrong option been
    picked, the deferred callback would only have touched the button. *)
Theorem close_during_delay_raises :
  (reported <$> closedDuringDelay) = Some [TypeError] /\
  (currentVisit ∘ mgr ∘ after <$> closedDuringDelay) = Some None /\
  (reported <$> run sampleVisits
     [hit "cabin" 0; ContinueClick; OptionClick 1; Dismiss Cabin; TimerFires] samplePage)
  = Some [].
Proof. repeat split; vm_compute; reflexivity. Qed.

Lemma wrong_answer_retry_witness :
  (forall evs, Forall (isRetry (mgr sampleChallenge)) evs ->
     exists p',
       run sampleVisits evs sampleChallenge = Some {| reported := []; after := p' |} /\
       phase (mgr p') = MathChallenge /\
       win p' = win sampleChallenge /\
       completedVisits (mgr p') = completedVisits (mgr sampleChallenge) /\
       optionsGrid (mgr p') = optionsGrid (mgr sampleChallenge) /\
       (forall btn b, buttons (mgr p') !! btn = Some b -> "wrong" ∈ classList b ->
                      RemoveWrong btn ∈ timers (mgr p')) /\
       (timers (mgr p') = [] -> p' = sampleChallenge)) /\
  (forall btn b, buttons (mgr sampleChallenge) !! btn = Some b -> isCorrect b = false ->
     exists p1 b1,
       deliver sampleVisits (OptionClick btn) sampleChallenge
         = Some {| reported := []; after := p1 |} /\
       buttons (mgr p1) !! btn = Some b1 /\
       "wrong" ∈ classList b1 /\
       timers (mgr p1) = [RemoveWrong btn] /\
       deliver sampleVisits TimerFires p1
         = Some {| reported := []; after := sampleChallenge |}).
Proof.
  apply (wrong_answer_retry sampleVisits sampleChallenge).
  - vm_compute. reflexivity.
  - vm_compute. reflexivity.
  - intros btn b.
    assert (E : buttons (mgr sampleChallenge)
                = map optionBtn (ElderVisits.options (ElderVisits.math sampleVisit)))
      by (vm_compute; reflexivity).
    rewrite E. destruct btn as [|[|btn]]; cbn; intros [= <-]; cbn;
      rewrite list_elem_of_singleton; discriminate.
Defined.

Example wrong_twice_then_wait :
  run sampleVisits [OptionClick 1; OptionClick 1; TimerFires; TimerFires] sampleChallenge
  = Some {| reported := []; after := sampleChallenge |}.
Proof. vm_compute. reflexivity. Qed.

Lemma full_cabin_flow_witness :
  exists p' keys',
    cabinFlow sampleVisits (length (ElderVisits.greeting sampleVisit)) 0
      (length (buttons (mgr samplePage)) + 0) samplePage = Normal tt p' /\
    visitedKeys (win p') = Some keys' /\
    stationKey "cabin" (0 + 1) ∈ keys' /\
    phase (mgr p') = Closed /\
    shown (mgr p') Cabin = false /\
    currentVisit (mgr p') = None /\
    controls (mgr p') = (fun _ => true) <$> controls (mgr samplePage) /\
    ElderVisits.id sampleVisit ∈ completedVisits (mgr p').
Proof.
  apply (full_cabin_flow sampleVisits samplePage Island [] 0%nat 0%nat sampleVisit
           {| ElderVisits.text := "5"; ElderVisits.correct := true |}).
  - reflexivity.
  - discriminate.
  - reflexivity.
  - reflexivity.
  - reflexivity.
  - reflexivity.
  - vm_compute. reflexivity.
Defined.

Example sample_cabin_flow :
  (progressItem ∘ win ∘ returned) (cabinFlow sampleVisits 2 0 0 samplePage)
  = Some ("[" ++ quote "cabin-1" ++ "]").
Proof. vm_compute. reflexivity. Qed.

(** The same visit by clicks: each click on Continue runs the listener of
    [setupEvents] and the [onclick] property, so one click takes the two
    greeting lines; the flow still ends with the cabin recorded. *)
Example sample_cabin_flow_by_clicks :
  (fun r => (reported r, phase (mgr (after r)), progressItem (win (after r)))) <$>
    run sampleVisits
      [hit "cabin" 0; ContinueClick; OptionClick 0; TimerFires; ContinueClick] samplePage
  = Some ([], Closed, Some ("[" ++ quote "cabin-1" ++ "]")).
Proof. vm_compute. reflexivity. Qed.

(** ** Picking on the sample page *)

Lemma picking_gate_witness :
  let r := sampleRun [hit "fireplace" 1; hit "cabin" 0] in
  (openOverlays (mgr (after r)) <= 1)%nat /\
  (shown (mgr (after r)) Cabin = true -> isDialogueOpen (mgr (after r)) = true) /\
  (forall (q : Page) (event : Pointer) (intersects : list UserData),
     isDialogueOpen (mgr q) = true \/
     (exists c, c ∈ experienceOverlays /\ shown (mgr q) c = true) ->
     onCanvasClick sampleVisits event intersects q = Normal tt q /\
     deliver sampleVisits (CanvasClick event intersects) q
       = Some {| reported := []; after := q |}).
Proof.
  apply (picking_gate sampleVisits Island (Some true) (freshWindow None true) samplePage
           [hit "fireplace" 1; hit "cabin" 0]).
  - reflexivity.
  - vm_compute. reflexivity.
Defined.

(** With the fire overlay displayed, the click on the cabin changes nothing. *)
Example second_pick_ignored :
  run sampleVisits [hit "fireplace" 1; hit "cabin" 0] samplePage
  = run sampleVisits [hit "fireplace" 1] samplePage /\
  shown (mgr (after (sampleRun [hit "fireplace" 1; hit "cabin" 0]))) Fireplace = true /\
  phase (mgr (after (sampleRun [hit "fireplace" 1; hit "cabin" 0]))) = Closed.
Proof. split; [|split]; vm_compute; reflexivity. Qed.

(** ** The completed set on a page whose store already holds the cabin *)

Example storedPage_loaded :
  loadPage Island (Some true) storedWindow = Some storedPage /\
  visitedKeys (win storedPage) = Some ["cabin-1"] /\
  stationKey "cabin" (0 + 1) = "cabin-1".
Proof. split; [|split]; vm_compute; reflexivity. Qed.

Lemma completed_set_is_session_local_witness :
  completedVisits (mgr storedPage) = ∅ /\
  (exists p1,
     startVisit sampleVisits 0 storedPage = Normal tt p1 /\
     phase (mgr p1) = Greeting 0 /\
     onclick (mgr p1) !! "continue-btn" = Some HAdvance /\
     visibleStory (mgr p1)
     = Some (default "" (ElderVisits.greeting sampleVisit !! 0%nat))) /\
  (forall evs r p1,
     run sampleVisits evs storedPage = Some r ->
     startVisit sampleVisits 0 (after r) = Normal tt p1 ->
     phase (mgr p1) = AlreadyVisited ->
     exists (evs1 evs2 : list Event) (r1 : Reaction) (done : ElderVisit),
       evs = (evs1 ++ ContinueClick :: evs2)%list /\
       run sampleVisits evs1 storedPage = Some r1 /\
       onclick (mgr (after r1)) !! "continue-btn" = Some HComplete /\
       currentVisit (mgr (after r1)) = Some done /\
       ElderVisits.id done = 0%nat).
Proof.
  apply (completed_set_is_session_local sampleVisits Island (Some true) storedWindow
           storedPage 0%nat sampleVisit).
  - vm_compute. reflexivity.
  - reflexivity.
Defined.

(** A visit completed in this session is greeted with the welcome-back
    line; the same cabin on the freshly loaded page is not, although its key
    is in the store. *)
Example welcome_back_same_session :
  let r := default {| reported := []; after := storedPage |}
             (run sampleVisits
                [hit "cabin" 0; ContinueClick; OptionClick 0; TimerFires; ContinueClick]
                storedPage) in
  phase (mgr (returned (startVisit sampleVisits 0 (after r)))) = AlreadyVisited /\
  phase (mgr (returned (startVisit sampleVisits 0 storedPage))) = Greeting 0.
Proof. split; vm_compute; reflexivity. Qed.

(** * Further properties *)

(** ** More on the progress store *)


Lemma markAll_cons (v : Variant) (c : string) (n : nat) (calls : list (string * nat))
  (w w1 : Window) :
  markStationVisited v c n w = Normal tt w1 ->
  markAll v ((c, n) :: calls) w = markAll v calls w1.
Proof. intros H. cbn [markAll foldr fst snd]. unfold bind. now rewrite H. Qed.

(** X1. The stored set only grows, and only at its end.  On a readable
    store, every sequence of [markVisited] calls returns, and the stored
    array is then the array as it was, followed by the keys of the calls that
    were not stored before, each once: no key is removed, moved or added
    twice, and no other key appears. *)
Theorem visited_set_only_grows (v : Variant) (calls : list (string * nat)) :
  forall (w : Window) (keys : list string),
    visitedKeys w = Some keys ->
    exists w' added,
      markAll v calls w = Normal tt w' /\
      visitedKeys w' = Some (keys ++ added)%list /\
      NoDup added /\
      forall key, key ∈ added <->
                  ((key ∉ keys) /\ key ∈ map (fun call => stationKey call.1 call.2) calls).
Proof.
  induction calls as [|[c n] calls IH]; intros w keys Hkeys.
  - exists w, []. rewrite app_nil_r. split; [reflexivity|]. split; [exact Hkeys|].
    split; [apply NoDup_nil_2|]. intros key. cbn [map]. rewrite !elem_of_nil. tauto.
  - destruct (mark_keys v c n w keys Hkeys) as (w1 & Hcall & Hkeys1).
    rewrite (markAll_cons v c n calls w w1 Hcall). cbn [map fst snd].
    case_bool_decide as Hin.
    + destruct (IH w1 keys Hkeys1) as (w' & added & Hrun & Hkeys' & Hnd & Hadded).
      exists w', added. split; [exact Hrun|]. split; [exact Hkeys'|]. split; [exact Hnd|].
      intros key. rewrite Hadded, elem_of_cons. intuition congruence.
    + destruct (IH w1 _ Hkeys1) as (w' & added & Hrun & Hkeys' & Hnd & Hadded).
      exists w', (stationKey c n :: added). split; [exact Hrun|].
      split; [rewrite Hkeys', <- app_assoc; reflexivity|].
      split.
      * apply NoDup_cons. split; [|exact Hnd].
        rewrite Hadded, elem_of_app, list_elem_of_singleton. tauto.
      * intros key. rewrite !elem_of_cons, Hadded, elem_of_app, list_elem_of_singleton.
        destruct (decide (key = stationKey c n)) as [->|Hne]; tauto.
Qed.

Lemma published_widgets (v : Variant) (keys : list string) (w : Window) :
  progressCount (published v keys w) = (fun _ => Some (length keys)) <$> progressCount w /\
  progressBar (published v keys w)
  = (fun _ => Some (percentageOf (length keys))) <$> progressBar w.
Proof.
  unfold published. destruct v; try (split; reflexivity).
  destruct (_ && _); split; reflexivity.
Qed.


Lemma mark_inStep (v : Variant) (c : string) (n : nat) (w0 w : Window) (keys : list string) :
  inStep w0 keys w ->
  exists w' keys', markStationVisited v c n w = Normal tt w' /\ inStep w0 keys' w'.
Proof.
  intros (Hkeys & Hcount & Hbar).
  destruct (decide (stationKey c n ∈ keys)) as [Hin|Hout].
  - exists w, keys. split; [eapply mark_present; eassumption|]. repeat split; assumption.
  - eexists. eexists. split; [eapply mark_fresh; eassumption|].
    destruct (published_widgets v (keys ++ [stationKey c n])
                (setItem (keysText (keys ++ [stationKey c n])) w)) as [Hc Hb].
    split; [rewrite published_keys; apply visitedKeys_stored; reflexivity|].
    rewrite Hc, Hb. cbn [setItem progressCount progressBar]. rewrite Hcount, Hbar.
    destruct (progressCount w0), (progressBar w0); split; reflexivity.
Qed.

Lemma markAll_inStep (v : Variant) (calls : list (string * nat)) (w0 : Window) :
  forall (w : Window) (keys : list string),
    inStep w0 keys w ->
    exists w' keys', markAll v calls w = Normal tt w' /\ inStep w0 keys' w'.
Proof.
  induction calls as [|[c n] calls IH]; intros w keys Hw.
  - exists w, keys. split; [reflexivity | exact Hw].
  - destruct (mark_inStep v c n w0 w keys Hw) as (w1 & keys1 & Hcall & Hw1).
    rewrite (markAll_cons v c n calls w w1 Hcall). eauto.
Qed.

(** X2. The counter and the bar follow the store.  After the entry script
    has drawn the progress on a readable store and after any sequence of
    [markVisited] calls, the counter widget (when the page has one) shows the
    number of stored keys and the bar (when the page has one) that number
    over [TOTAL_STATIONS] as a percentage, also after calls with keys that
    were stored already, which redraw nothing. *)
Theorem progress_display_follows_store
  (v : Variant) (w : Window) (keys0 : list string) (calls : list (string * nat)) :
  visitedKeys w = Some keys0 ->
  exists w1 w2 keys2,
    loadProgress v w = Some w1 /\
    markAll v calls w1 = Normal tt w2 /\
    visitedKeys w2 = Some keys2 /\
    progressCount w2 = (fun _ => Some (length keys2)) <$> progressCount w /\
    progressBar w2 = (fun _ => Some (percentageOf (length keys2))) <$> progressBar w.
Proof.
  intros Hkeys.
  assert (Hload : loadProgress v w = Some (install (Some v) (published v keys0 w))).
  { unfold loadProgress. now rewrite (updateProgressUI_keys v w keys0 Hkeys). }
  assert (Hstep : inStep w keys0 (install (Some v) (published v keys0 w))).
  { destruct (published_widgets v keys0 w) as [Hc Hb]. split; [|split].
    - rewrite <- Hkeys, <- (published_keys v keys0 w). now apply visitedKeys_frame.
    - exact Hc.
    - exact Hb. }
  destruct (markAll_inStep v calls w _ keys0 Hstep) as (w2 & keys2 & Hrun & Hk & Hc & Hb).
  eauto 10.
Qed.

(** X3. A stored value that is JSON but not an array is not read as an
    empty set.  When the item parses to [null], a boolean, a number or an
    object, [markVisited] throws a TypeError on [visited.includes] and
    writes nothing; with [null], drawing the progress throws on
    [visited.length], so the entry script installs no API. *)
Theorem non_array_store_breaks_marking
  (v : Variant) (c : string) (n : nat) (w : Window) (value : json) :
  getVisitedStations w = Normal value w ->
  match value with JArray _ | JString _ => False | _ => True end ->
  markStationVisited v c n w = Throw TypeError w /\
  (value = JNull ->
   updateProgressUI v w = Throw TypeError w /\ loadProgress v w = Some w).
Proof.
  intros Hread Hshape. split.
  - unfold markStationVisited, bind at 1. rewrite Hread.
    destruct value; try contradiction; reflexivity.
  - intros ->. assert (H : updateProgressUI v w = Throw TypeError w).
    { unfold updateProgressUI, bind at 1. rewrite Hread. reflexivity. }
    split; [exact H|]. unfold loadProgress. now rewrite H.
Qed.

(** ** What a run of events may change *)



Lemma dispatch_respects (R : Page -> Page -> Prop) `{!Reflexive R} `{!Transitive R}
  (ls : list (M Page unit)) :
  Forall (respects R) ls ->
  forall errors p r, dispatch ls errors p = Some r -> R p (after r).
Proof.
  induction 1 as [|l ls Hl _ IH]; intros errors p r Hrun; cbn [dispatch] in Hrun.
  - injection Hrun as <-. reflexivity.
  - specialize (Hl p). destruct (l p) as [[] p'|e p'|]; [| |discriminate];
      (etransitivity; [exact Hl|]); eapply IH; eassumption.
Qed.

Section Frames.

Variable elderVisits : list ElderVisit.

Lemma run_respects (R : Page -> Page -> Prop) `{!Reflexive R} `{!Transitive R}
  (allowed : Event -> Prop) :
  (forall ev, allowed ev -> Forall (respects R) (listeners elderVisits ev)) ->
  forall evs p r,
    Forall allowed evs -> run elderVisits evs p = Some r -> R p (after r).
Proof.
  intros Hls evs. induction evs as [|ev evs IH]; intros p r Hevs Hrun; cbn [run] in Hrun.
  - injection Hrun as <-. reflexivity.
  - apply Forall_cons in Hevs as [Hev Hevs].
    destruct (deliver elderVisits ev p) as [r0|] eqn:Hdel; [|discriminate].
    destruct (run elderVisits evs (after r0)) as [r1|] eqn:Hrest; [|discriminate].
    injection Hrun as <-. cbn [after].
    etransitivity; [|eapply IH; eassumption].
    eapply dispatch_respects; [apply _ | apply _ | apply Hls, Hev | exact Hdel].
Qed.

#[local] Instance awayFrom_refl : Reflexive awayFrom.
Proof. intros w. now left. Qed.

#[local] Instance awayFrom_trans : Transitive awayFrom.
Proof.
  intros w1 w2 w3 [->|[u ->]] [->|[u' ->]]; [now left | right; eauto | right; eauto |].
  right. exists u'. reflexivity.
Qed.

Lemma awayFrom_api (w w' : Window) : awayFrom w w' -> progressApi w' = progressApi w.
Proof. intros [->|[u ->]]; reflexivity. Qed.

#[local] Instance storeKept_refl : Reflexive storeKept.
Proof. intros p _. reflexivity. Qed.

#[local] Instance storeKept_trans : Transitive storeKept.
Proof.
  intros p q r Hpq Hqr Hapi. specialize (Hpq Hapi).
  etransitivity; [exact Hpq|]. apply Hqr. now rewrite (awayFrom_api _ _ Hpq).
Qed.

#[local] Instance windowKept_refl : Reflexive windowKept.
Proof. intros p. reflexivity. Qed.

#[local] Instance windowKept_trans : Transitive windowKept.
Proof. intros p q r H1 H2. unfold windowKept in *. congruence. Qed.

#[local] Instance sameWindow_refl : Reflexive sameWindow.
Proof. intros p. split; reflexivity. Qed.

#[local] Instance sameWindow_trans : Transitive sameWindow.
Proof. intros p q r [H1 H2] [H3 H4]. split; congruence. Qed.

Ltac storeKept_leaf :=
  idtac; unfold storeKept, set_win; rewrite ?createOptions; exec; intros _; now left.

Lemma storeKept_markVisited (stationType : string) (stationId : nat) :
  respects storeKept (markVisited stationType stationId).
Proof.
  intros p. unfold markVisited. exec.
  destruct (progressApi (win p)) as [v|] eqn:Hapi; exec; [|reflexivity].
  unfold inWindow. destruct (markStationVisited v stationType stationId (win p));
    try exact I; intros Hnone; congruence.
Qed.

Lemma storeKept_navigate (url : string) :
  respects storeKept (inWindow (modify (navigate url))).
Proof. intros p _. right. exists url. reflexivity. Qed.

Lemma storeKept_explore (stationType : string) (stationId : nat) (url : string) :
  respects storeKept (runHandler (HExplore stationType stationId url)).
Proof.
  cbn [runHandler]. apply respects_bind; [apply _ | apply storeKept_markVisited|].
  intros _. apply storeKept_navigate.
Qed.

Lemma storeKept_runHandler (h : Handler) : respects storeKept (runHandler h).
Proof.
  destruct h; [| | |apply storeKept_explore];
    respects_auto ltac:(idtac; lazymatch goal with
                        | |- respects storeKept (markVisited _ _) =>
                            apply storeKept_markVisited
                        end) storeKept_leaf.
Qed.

Ltac storeKept_known :=
  idtac;
  lazymatch goal with
  | |- respects storeKept (runHandler _) => apply storeKept_runHandler
  end.

Lemma storeKept_listeners (ev : Event) :
  Forall (respects storeKept) (listeners elderVisits ev).
Proof.
  destruct ev as [event intersects| |c|btn|c| |]; cbn [listeners];
    try destruct c;
    repeat (apply Forall_cons_2; [|try apply Forall_nil_2]);
    try apply Forall_nil_2;
    respects_auto storeKept_known storeKept_leaf.
Qed.

Ltac sameWindow_leaf :=
  idtac; unfold sameWindow, set_win; rewrite ?createOptions; exec; split; reflexivity.

Ltac windowKept_leaf :=
  idtac; unfold windowKept, set_win; reflexivity.

(** X4. Without the progress API nothing is recorded.  On a page where
    [window.metisPrairieProgress] is not installed (the entry script threw
    before installing it), every run of events leaves the API missing and
    the stored item, the bar, the counter and the notices as they were; a
    visit can still be completed and an explore button still navigates. *)
Theorem no_api_no_progress (evs : list Event) (p : Page) (r : Reaction) :
  progressApi (win p) = None ->
  run elderVisits evs p = Some r ->
  progressApi (win (after r)) = None /\
  progressItem (win (after r)) = progressItem (win p) /\
  progressBar (win (after r)) = progressBar (win p) /\
  progressCount (win (after r)) = progressCount (win p) /\
  notices (win (after r)) = notices (win p).
Proof.
  intros Hapi Hrun.
  assert (Hkept : storeKept p (after r)).
  { eapply (run_respects storeKept (fun _ => True)); [|apply Forall_true; auto|exact Hrun].
    intros ev _. apply storeKept_listeners. }
  destruct (Hkept Hapi) as [->|[url ->]]; repeat split; assumption.
Qed.

(** X5. Only the acknowledgement of a success screen and the explore
    buttons touch the window.  A click on the canvas, on an option, on a
    close button or a backdrop, the Escape key and a timer leave the store,
    the progress widgets and the address as they were; so does a click on
    Continue unless the button is bound to [completeVisit], and a click on
    an explore button that has not been bound yet. *)
Theorem window_untouched_by_other_events (ev : Event) (p : Page) (r : Reaction) :
  deliver elderVisits ev p = Some r ->
  match ev with
  | ContinueClick =>
      match onclick (mgr p) !! "continue-btn" with
      | Some HComplete | Some (HExplore _ _ _) => False
      | _ => True
      end
  | ExploreClick c => onclick (mgr p) !! exploreBtnOf c = None
  | _ => True
  end ->
  win (after r) = win p.
Proof.
  intros Hev Hquiet.
  assert (Hadvance : respects sameWindow advanceDialogue)
    by respects_auto nothing_known sameWindow_leaf.
  assert (Hclose : respects windowKept closeDialogue)
    by respects_auto nothing_known windowKept_leaf.
  assert (Hone : forall l, respects windowKept l ->
            dispatch [l] [] p = Some r -> win (after r) = win p).
  { intros l Hl Hrun. eapply (single_listener windowKept); eassumption. }
  unfold deliver in Hev.
  destruct ev as [event intersects| |c|btn|c| |]; cbn [listeners] in Hev.
  - refine (Hone _ _ Hev). respects_auto nothing_known windowKept_leaf.
  - cbn [dispatch] in Hev. pose proof (Hadvance p) as Hfirst.
    assert (Hstep : exists errors p1,
              sameWindow p p1 /\
              match clickProperty "continue-btn" p1 with
              | Normal _ p' => Some {| reported := errors; after := p' |}
              | Throw e p' => Some {| reported := errors ++ [e]; after := p' |}
              | Unmodelled => None
              end = Some r).
    { destruct (advanceDialogue p) as [[] p1|e p1|]; [| |discriminate]; eauto. }
    clear Hev Hfirst. destruct Hstep as (errors & p1 & [Hwin Hon] & Hev).
    rewrite <- Hon in Hquiet. rewrite <- Hwin. revert Hev.
    unfold clickProperty. exec.
    destruct (onclick (mgr p1) !! "continue-btn") as [[]|]; try contradiction;
      cbn [runHandler].
    + specialize (Hadvance p1).
      destruct (advanceDialogue p1); [| |discriminate]; intros [= <-]; apply Hadvance.
    + specialize (Hclose p1).
      destruct (closeDialogue p1); [| |discriminate]; intros [= <-]; apply Hclose.
    + now intros [= <-].
  - refine (Hone _ _ Hev). destruct c; respects_auto nothing_known windowKept_leaf.
  - refine (Hone _ _ Hev). respects_auto nothing_known windowKept_leaf.
  - assert (Hnone : forall c', onclick (mgr p) !! exploreBtnOf c' = None ->
              dispatch [clickProperty (exploreBtnOf c')] [] p = Some r ->
              win (after r) = win p).
    { intros c' Hc'. cbn [dispatch]. unfold clickProperty. exec. rewrite Hc'.
      now intros [= <-]. }
    destruct c; [now injection Hev as <- | now apply (Hnone Fireplace) |
                 now apply (Hnone (Single k))].
  - refine (Hone _ _ Hev). respects_auto nothing_known windowKept_leaf.
  - refine (Hone _ _ Hev). respects_auto nothing_known windowKept_leaf.
Qed.

End Frames.

(** ** More on the interaction manager *)

Section Stations.

Variable elderVisits : list ElderVisit.

Lemma visitedKeys_navigate (url : string) (w : Window) :
  visitedKeys (navigate url w) = visitedKeys w.
Proof. now apply visitedKeys_frame. Qed.

(** X6. The explore button records its station and leaves the page.  For
    a fire or a single station of the tables, on a page with the progress
    API over a readable store: opening the popup and clicking its explore
    button raises no error, adds the key of the station (fires as [fire-i]
    from zero, the others under their type) to the stored set unless it is
    there, and sets [window.location.href] to the address of the
    experience. *)
Theorem explore_records_and_leaves
  (p : Page) (c : Category) (stationId : nat) (url : string)
  (v : Variant) (keys : list string) :
  c ≠ Cabin ->
  urlOf c stationId = Some url ->
  progressApi (win p) = Some v ->
  visitedKeys (win p) = Some keys ->
  exists p1 p2,
    open elderVisits c stationId p = Normal tt p1 /\
    deliver elderVisits (ExploreClick c) p1 = Some {| reported := []; after := p2 |} /\
    href (win p2) = Some url /\
    visitedKeys (win p2) = Some (if bool_decide (markOf c stationId ∈ keys)
                                 then keys else (keys ++ [markOf c stationId])%list) /\
    mgr p2 = mgr p1.
Proof.
  intros Hc Hurl Hapi Hkeys.
  assert (Hmark : forall stationType,
            exists w', markStationVisited v stationType stationId (win p) = Normal tt w' /\
                       visitedKeys w' = Some (if bool_decide (stationKey stationType stationId ∈ keys)
                                              then keys
                                              else (keys ++ [stationKey stationType stationId])%list))
    by (intros; now apply mark_keys).
  destruct c as [| |k]; [congruence| |]; cbn [urlOf markOf open] in *.
  - destruct (fireplaceExperiences !! stationId) as [fire|] eqn:Hfire; [|discriminate].
    injection Hurl as <-. destruct (Hmark "fire") as (w' & Hcall & Hkeys').
    unfold openFireplacePopup. exec. rewrite Hfire. exec.
    eexists. eexists. split; [reflexivity|].
    unfold deliver, listeners, dispatch, clickProperty. exec. cbn [exploreBtnOf]. maps.
    cbn [runHandler]. unfold markVisited. exec. rewrite Hapi.
    unfold inWindow. exec. rewrite Hcall. exec.
    split; [reflexivity|]. exec. split; [reflexivity|].
    split; [|reflexivity]. now rewrite visitedKeys_navigate.
  - destruct (experiencesOf k !! stationId) as [item|] eqn:Hitem; [|discriminate].
    injection Hurl as <-. destruct (Hmark (kindName k)) as (w' & Hcall & Hkeys').
    unfold openPopup. exec. rewrite Hitem. exec.
    eexists. eexists. split; [reflexivity|].
    unfold deliver, listeners, dispatch, clickProperty. exec. cbn [exploreBtnOf].
    rewrite lookup_insert_eq.
    cbn [runHandler]. unfold markVisited. exec. rewrite Hapi.
    unfold inWindow. exec. rewrite Hcall. exec.
    split; [destruct k; reflexivity|]. exec. split; [reflexivity|].
    split; [|reflexivity]. now rewrite visitedKeys_navigate.
Qed.


#[local] Instance flagKept_refl : Reflexive flagKept.
Proof. intros p. reflexivity. Qed.

#[local] Instance flagKept_trans : Transitive flagKept.
Proof. intros p q r H1 H2. unfold flagKept in *. congruence. Qed.

Lemma escape_resets_flag (q : Page) :
  exists q',
    onEscape q = Normal tt q' /\
    controls (mgr q') = (fun _ => true) <$> controls (mgr q) /\
    isDialogueOpen (mgr q') = false.
Proof.
  destruct (onEscape_spec q) as (q' & Hrun & Hctl & _).
  exists q'. split; [exact Hrun|]. split; [exact Hctl|].
  assert (Htail : respects flagKept
            (closeFireplacePopup ;;; closeHerbPopup ;;; closeLogPilePopup ;;;
             closeGardenPopup ;;; closeCartPopup ;;; closeFishingPopup ;;;
             closeMemorialPopup))
    by respects_auto nothing_known ltac:(idtac; unfold flagKept; reflexivity).
  unfold onEscape in Hrun. unfold bind at 1 in Hrun.
  destruct (closeDialogue q) as [[] q1|e q1|] eqn:Hclose; [|discriminate..].
  assert (Hflag : isDialogueOpen (mgr q1) = false).
  { revert Hclose. unfold closeDialogue. exec. now intros [= <-]. }
  specialize (Htail q1). rewrite Hrun in Htail. unfold flagKept in Htail. congruence.
Qed.

(** X7. Opening a station that the table does not hold.  The open method
    disables the controls before it reads the missing entry, so it throws a
    TypeError with the controls disabled, no overlay displayed and no widget
    changed; [startVisit] has also raised [isDialogueOpen], so every later
    click on the canvas is ignored.  The Escape key puts the flag down and
    enables the controls again. *)
Theorem open_outside_the_table (p : Page) (c : Category) (stationId : nat) :
  match c with
  | Cabin => elderVisits !! stationId = None
  | Fireplace => fireplaceExperiences !! stationId = None
  | Single k => experiencesOf k !! stationId = None
  end ->
  exists p',
    open elderVisits c stationId p = Throw TypeError p' /\
    controls (mgr p') = (fun _ => false) <$> controls (mgr p) /\
    display (mgr p') = display (mgr p) /\
    content (mgr p') = content (mgr p) /\
    onclick (mgr p') = onclick (mgr p) /\
    win p' = win p /\
    isDialogueOpen (mgr p') = (if c is Cabin then true else isDialogueOpen (mgr p)) /\
    (c = Cabin ->
     forall event intersects,
       onCanvasClick elderVisits event intersects p' = Normal tt p') /\
    exists p'',
      onEscape p' = Normal tt p'' /\
      controls (mgr p'') = (fun _ => true) <$> controls (mgr p) /\
      isDialogueOpen (mgr p'') = false.
Proof.
  intros Hnone.
  assert (Hescape : forall p' : Page,
            controls (mgr p') = (fun _ => false) <$> controls (mgr p) ->
            exists p'', onEscape p' = Normal tt p'' /\
                        controls (mgr p'') = (fun _ => true) <$> controls (mgr p) /\
                        isDialogueOpen (mgr p'') = false).
  { intros p' Hctl. destruct (escape_resets_flag p') as (p'' & Hrun & Hctl' & Hflag).
    exists p''. split; [exact Hrun|]. split; [|exact Hflag].
    rewrite Hctl', Hctl. apply controls_restored. }
  destruct c as [| |k]; cbn [open].
  - unfold startVisit. exec. rewrite Hnone. exec.
    eexists. split; [reflexivity|]. exec. do 6 (split; [reflexivity|]).
    split; [|apply Hescape; reflexivity].
    intros _ event intersects. unfold onCanvasClick. exec. reflexivity.
  - unfold openFireplacePopup. exec. rewrite Hnone. exec.
    eexists. split; [reflexivity|]. exec. repeat (split; [reflexivity|]).
    split; [discriminate | apply Hescape; reflexivity].
  - unfold openPopup. exec. rewrite Hnone. exec.
    eexists. split; [reflexivity|]. exec. repeat (split; [reflexivity|]).
    split; [discriminate | apply Hescape; reflexivity].
Qed.

(** *** Zones *)

Lemma zonesOf_spec {A} (kind : string) (table : list A) (userData : UserData) :
  userData ∈ zonesOf kind table <->
  type userData = kind /\ (index userData < length table)%nat.
Proof.
  unfold zonesOf. rewrite elem_of_lookup_imap. split.
  - intros (i & a & -> & Hi). split; [reflexivity|]. cbn. now apply lookup_lt_Some in Hi.
  - intros [<- Hlt]. destruct (lookup_lt_is_Some_2 table (index userData) Hlt) as [a Ha].
    exists (index userData), a. split; [now destruct userData | exact Ha].
Qed.

Lemma zone_station (cabinPositions : list World.Position) (userData : UserData) :
  userData ∈ setupInteractables cabinPositions ->
  exists c,
    categoryOf (type userData) = Some c /\
    match c with
    | Cabin => (index userData < length cabinPositions)%nat
    | Fireplace => (index userData < length fireplaceExperiences)%nat
    | Single k => (index userData < length (experiencesOf k))%nat
    end.
Proof.
  unfold setupInteractables. rewrite !elem_of_app, !zonesOf_spec.
  intros [[Ht Hi]|[[Ht Hi]|[[Ht Hi]|[[Ht Hi]|[[Ht Hi]|[[Ht Hi]|[[Ht Hi]|[Ht Hi]]]]]]]];
    rewrite Ht; eexists; (split; [reflexivity|exact Hi]).
Qed.

Lemma canvas_dispatch (event : Pointer) (userData : UserData) (rest : list UserData)
  (p : Page) :
  isDialogueOpen (mgr p) = false ->
  existsb (shown (mgr p)) experienceOverlays = false ->
  onCanvasClick elderVisits event (userData :: rest) p
  = match categoryOf (type userData) with
    | Some c => open elderVisits c (index userData)
                  {| win := win p; mgr := set_mouse (Some event) (mgr p) |}
    | None => Normal tt {| win := win p; mgr := set_mouse (Some event) (mgr p) |}
    end.
Proof.
  intros Hflag Hnone. unfold onCanvasClick, categoryOf. exec. rewrite Hflag, Hnone. exec.
  repeat match goal with
         | |- context [if String.eqb ?a ?b then _ else _] => destruct (String.eqb a b)
         end; reflexivity.
Qed.

(** X8. Every zone opens its own station.  When the table of visits has an
    entry for every cabin position, a click that hits a zone built by
    [setupInteractables], on a page with no overlay displayed, raises no
    error, samples the pointer and shows the overlay of that zone's station
    and no other, with the controls disabled and the window untouched. *)
Theorem every_zone_opens_its_station
  (cabinPositions : list World.Position) (event : Pointer)
  (userData : UserData) (rest : list UserData) (p : Page) :
  (length cabinPositions <= length elderVisits)%nat ->
  userData ∈ setupInteractables cabinPositions ->
  isDialogueOpen (mgr p) = false ->
  (forall c, shown (mgr p) c = false) ->
  exists c p',
    categoryOf (type userData) = Some c /\
    onCanvasClick elderVisits event (userData :: rest) p = Normal tt p' /\
    shown (mgr p') c = true /\
    (forall c', c' ≠ c -> shown (mgr p') c' = false) /\
    isDialogueOpen (mgr p') = (if c is Cabin then true else false) /\
    mouse (mgr p') = Some event /\
    controls (mgr p') = (fun _ => false) <$> controls (mgr p) /\
    win p' = win p.
Proof.
  intros Hcabins Hzone Hflag Hhidden.
  destruct (zone_station cabinPositions userData Hzone) as (c & Hc & Hindex).
  assert (Hvalid : validStation elderVisits c (index userData)).
  { destruct c; cbn [validStation]; apply lookup_lt_is_Some_2; [lia | exact Hindex..]. }
  set (p1 := {| win := win p; mgr := set_mouse (Some event) (mgr p) |}).
  destruct (open_spec elderVisits c (index userData) p1 Hvalid)
    as (p' & Hopen & Hctl & Hshown & Hothers & Hwin & _ & _ & _ & _ & Hmouse).
  pose proof (open_effect elderVisits c (index userData) p1) as Heffect.
  rewrite Hopen in Heffect. destruct Heffect as [_ Hdialogue].
  exists c, p'. split; [exact Hc|]. split.
  - rewrite canvas_dispatch, Hc; [exact Hopen | exact Hflag |].
    apply not_true_is_false. intros Hex. apply existsb_exists in Hex as (c' & _ & Hc').
    now rewrite Hhidden in Hc'.
  - split; [exact Hshown|]. split; [intros c' Hc'; rewrite (Hothers c' Hc'); apply Hhidden|].
    split; [rewrite Hdialogue; destruct c; [reflexivity | exact Hflag..]|].
    split; [exact Hmouse|]. split; [exact Hctl | exact Hwin].
Qed.

(** *** The option grid *)

Lemma grid_buttons {A B} (f : A -> B) (old : list B) (items : list A) :
  mapM (fun i => (old ++ map f items)%list !! i) (seq (length old) (length items))
  = Some (map f items).
Proof.
  apply mapM_Some, Forall2_same_length_lookup_2.
  - now rewrite length_seq, length_map.
  - intros i n b Hn Hb. apply lookup_seq in Hn as [-> _].
    rewrite lookup_app_r by lia. now replace (length old + i - length old)%nat with i by lia.
Qed.

(** X11. The option grid holds the options of the visit on screen and
    nothing else.  Whatever buttons earlier challenges have left behind,
    [showMathQuestion] empties the grid and fills it with one new button per
    option of the current visit, in order and unmarked; the old buttons are
    not in the grid any more. *)
Theorem math_question_shows_current_options (p : Page) (visit : ElderVisit) :
  currentVisit (mgr p) = Some visit ->
  let options := ElderVisits.options (ElderVisits.math visit) in
  exists p',
    showMathQuestion p = Normal tt p' /\
    mapM (fun i => buttons (mgr p') !! i) (optionsGrid (mgr p')) = Some (map optionBtn options) /\
    (forall i b, buttons (mgr p) !! i = Some b -> buttons (mgr p') !! i = Some b) /\
    Forall (fun i => buttons (mgr p) !! i = None) (optionsGrid (mgr p')) /\
    content (mgr p') !! "math-question"
    = Some (ElderVisits.question (ElderVisits.math visit)) /\
    display (mgr p') !! "math-section" = Some "block" /\
    display (mgr p') !! "continue-btn" = Some "none" /\
    timers (mgr p') = timers (mgr p) /\
    win p' = win p.
Proof.
  intros Hvisit options. unfold showMathQuestion. exec. rewrite Hvisit. exec.
  rewrite createOptions. exec.
  eexists. split; [reflexivity|]. exec. cbn [app]. split; [apply grid_buttons|].
  split; [intros i b Hb; now apply lookup_app_l_Some|].
  split; [|maps; repeat split].
  apply Forall_forall. intros i Hi. apply elem_of_seq in Hi.
  apply lookup_ge_None_2. lia.
Qed.

(** X10. One click on Continue advances the greeting by two steps.  The
    button carries the listener added in [setupEvents] and the [onclick]
    property set by [startVisit], and both call [advanceDialogue]: a click
    in the greeting moves [dialogueStep] by two, so the line in between is
    overwritten at once, and the challenge is shown as soon as one of the
    two steps reaches the end of the greeting. *)
Theorem continue_click_advances_twice (p : Page) (visit : ElderVisit) :
  currentVisit (mgr p) = Some visit ->
  onclick (mgr p) !! "continue-btn" = Some HAdvance ->
  let step := dialogueStep (mgr p) in
  let lines := ElderVisits.greeting visit in
  exists p',
    deliver elderVisits ContinueClick p = Some {| reported := []; after := p' |} /\
    dialogueStep (mgr p') = (step + 2)%nat /\
    win p' = win p /\
    ((step + 2 < length lines)%nat ->
     content (mgr p') !! "story-text" = lines !! (step + 2)%nat /\
     display (mgr p') = display (mgr p) /\
     optionsGrid (mgr p') = optionsGrid (mgr p)) /\
    ((step + 1 = length lines \/ step + 2 = length lines)%nat ->
     content (mgr p') !! "story-text" = Some "" /\
     display (mgr p') !! "math-section" = Some "block" /\
     display (mgr p') !! "continue-btn" = Some "none" /\
     mapM (fun i => buttons (mgr p') !! i) (optionsGrid (mgr p'))
     = Some (map optionBtn (ElderVisits.options (ElderVisits.math visit)))) /\
    ((length lines <= step)%nat ->
     mgr p' = set_dialogueStep (step + 2) (mgr p)).
Proof.
  intros Hvisit Hon step lines.
  unfold deliver, listeners, dispatch, clickProperty, advanceDialogue. exec.
  rewrite Hvisit. exec.
  fold lines. fold step.
  assert (E : forall m : Manager, (S (dialogueStep (mgr p)) + 1)%nat = (step + 2)%nat)
    by (intros; subst step; lia).
  destruct (Nat.ltb_spec (S step) (length lines)) as [H1|H1].
  - (* the next line is shown, then the listener of the property advances again *)
    unfold displayCurrentStep. exec. rewrite Hvisit. exec. fold lines.
    destruct (lookup_lt_is_Some_2 lines (S step) H1) as [line1 Hline1].
    rewrite Hline1. exec. maps. rewrite Hon. cbn [runHandler].
    unfold advanceDialogue. exec. rewrite Hvisit. exec. fold lines.
    destruct (Nat.ltb_spec (S (S step)) (length lines)) as [H2|H2].
    + unfold displayCurrentStep. exec. rewrite Hvisit. exec. fold lines.
      destruct (lookup_lt_is_Some_2 lines (S (S step)) H2) as [line2 Hline2].
      rewrite Hline2. exec.
      eexists. split; [reflexivity|]. exec.
      split; [lia|]. split; [reflexivity|].
      split; [|split; intros; lia].
      intros _. maps. replace (step + 2)%nat with (S (S step)) by lia.
      rewrite Hline2. repeat split.
    + replace (S (S step) =? length lines)%nat with true
        by (symmetry; apply Nat.eqb_eq; lia).
      unfold showMathQuestion. exec. rewrite Hvisit. exec. rewrite createOptions. exec.
      eexists. split; [reflexivity|]. exec.
      split; [lia|]. split; [reflexivity|].
      split; [intros; lia|]. split; [|intros; lia].
      intros _. maps. repeat (split; [reflexivity|]). apply grid_buttons.
  - destruct (Nat.eqb_spec (S step) (length lines)) as [H2|H2].
    + unfold showMathQuestion. exec. rewrite Hvisit. exec. rewrite createOptions. exec.
      maps. rewrite Hon. cbn [runHandler].
      unfold advanceDialogue. exec. rewrite Hvisit. exec. fold lines.
      replace (S (S step) <? length lines)%nat with false
        by (symmetry; apply Nat.ltb_ge; lia).
      replace (S (S step) =? length lines)%nat with false
        by (symmetry; apply Nat.eqb_neq; lia).
      eexists. split; [reflexivity|]. exec.
      split; [lia|]. split; [reflexivity|].
      split; [intros; lia|]. split; [|intros; lia].
      intros _. maps. repeat (split; [reflexivity|]). apply grid_buttons.
    + exec. rewrite Hon. cbn [runHandler].
      unfold advanceDialogue. exec. rewrite Hvisit. exec. fold lines.
      replace (S (S step) <? length lines)%nat with false
        by (symmetry; apply Nat.ltb_ge; lia).
      replace (S (S step) =? length lines)%nat with false
        by (symmetry; apply Nat.eqb_neq; lia).
      eexists. split; [reflexivity|]. exec.
      split; [lia|]. split; [reflexivity|].
      split; [intros; lia|]. split; [intros; lia|].
      intros _. replace (step + 2)%nat with (S (S step)) by lia. reflexivity.
Qed.

End Stations.

Section Pending.

Variable elderVisits : list ElderVisit.


#[local] Instance sessionKept_refl : Reflexive sessionKept.
Proof. intros p. repeat split. Qed.

#[local] Instance sessionKept_trans : Transitive sessionKept.
Proof.
  intros p q r (H1 & H2 & H3 & H4 & H5 & H6 & H7) (K1 & K2 & K3 & K4 & K5 & K6 & K7).
  repeat split; congruence.
Qed.

Lemma sessionKept_advanceDialogue : respects sessionKept advanceDialogue.
Proof.
  respects_auto nothing_known
    ltac:(idtac; unfold sessionKept, set_win; rewrite ?createOptions; exec; repeat split).
Qed.

Lemma advance_returns (p : Page) (visit : ElderVisit) :
  currentVisit (mgr p) = Some visit ->
  exists p1, advanceDialogue p = Normal tt p1 /\ sessionKept p p1.
Proof.
  intros Hvisit. pose proof (sessionKept_advanceDialogue p) as Hkept.
  assert (Hnormal : exists p1, advanceDialogue p = Normal tt p1).
  { unfold advanceDialogue. exec. rewrite Hvisit. exec.
    destruct (_ <? _)%nat; [|destruct (_ =? _)%nat].
    - unfold displayCurrentStep. exec. rewrite Hvisit. exec.
      destruct (_ !! _); exec; eauto.
    - unfold showMathQuestion. exec. rewrite Hvisit. exec. eauto.
    - eauto. }
  destruct Hnormal as [p1 Hp1]. rewrite Hp1 in Hkept. eauto.
Qed.

(** Acknowledging a success screen: the listener of [setupEvents] advances
    first, then [completeVisit] records the cabin and closes. *)
Lemma acknowledge_success
  (p : Page) (visit : ElderVisit) (localId : nat) (v : Variant) (keys : list string) :
  currentVisit (mgr p) = Some visit ->
  currentCabinNumber (mgr p) = Some (localId + 1)%nat ->
  onclick (mgr p) !! "continue-btn" = Some HComplete ->
  progressApi (win p) = Some v ->
  visitedKeys (win p) = Some keys ->
  exists p',
    deliver elderVisits ContinueClick p = Some {| reported := []; after := p' |} /\
    phase (mgr p') = Closed /\
    shown (mgr p') Cabin = false /\
    visitedKeys (win p')
    = Some (if bool_decide (stationKey "cabin" (localId + 1) ∈ keys)
            then keys else (keys ++ [stationKey "cabin" (localId + 1)])%list) /\
    completedVisits (mgr p') = {[ElderVisits.id visit]} ∪ completedVisits (mgr p) /\
    controls (mgr p') = (fun _ => true) <$> controls (mgr p).
Proof.
  intros Hvisit Hnumber Hon Hapi Hkeys.
  destruct (advance_returns p visit Hvisit)
    as (p1 & Hadvance & Hw & Hon1 & Hv & Hn & Hc & Hctl & _).
  destruct (mark_keys v "cabin" (localId + 1) (win p) keys Hkeys) as (w' & Hmark & Hkeys').
  unfold deliver, listeners, dispatch. rewrite Hadvance.
  unfold clickProperty. exec. rewrite Hon1, Hon. cbn [runHandler].
  unfold completeVisit. exec. rewrite Hv, Hvisit. exec. rewrite Hn, Hnumber.
  unfold markVisited. exec. rewrite Hw, Hapi.
  unfold inWindow. exec. rewrite ?Hw, Hmark.
  unfold closeDialogue. exec.
  eexists. split; [reflexivity|]. exec.
  unfold phase, shown. exec. cbn [overlayOf]. maps.
  split; [reflexivity|]. split; [reflexivity|]. split; [exact Hkeys'|].
  split; [now rewrite Hc|]. now rewrite Hctl.
Qed.

(** X13. A success callback that is still pending applies to whichever
    visit is on screen when it fires.  If [showSuccess] is pending when
    [startVisit] opens a visit, then the timer puts that visit on its success
    screen at greeting step 0, with no option button created for it, and the
    click on Continue records the cabin and adds the visit to the completed
    set: the challenge is skipped. *)
Theorem pending_success_skips_challenge
  (p : Page) (localId : nat) (visit : ElderVisit) (rest : list Deferred)
  (v : Variant) (keys : list string) :
  elderVisits !! localId = Some visit ->
  timers (mgr p) = ShowSuccess :: rest ->
  progressApi (win p) = Some v ->
  visitedKeys (win p) = Some keys ->
  exists p1 p2 p3 keys',
    startVisit elderVisits localId p = Normal tt p1 /\
    deliver elderVisits TimerFires p1 = Some {| reported := []; after := p2 |} /\
    phase (mgr p2) = Success /\
    visibleStory (mgr p2) = Some (ElderVisits.success (ElderVisits.math visit)) /\
    dialogueStep (mgr p2) = 0%nat /\
    buttons (mgr p2) = buttons (mgr p) /\
    deliver elderVisits ContinueClick p2 = Some {| reported := []; after := p3 |} /\
    phase (mgr p3) = Closed /\
    visitedKeys (win p3) = Some keys' /\
    stationKey "cabin" (localId + 1) ∈ keys' /\
    ElderVisits.id visit ∈ completedVisits (mgr p3).
Proof.
  intros Hvisit Htimers Hapi Hkeys.
  destruct (start_visiting elderVisits p localId visit Hvisit)
    as (p1 & Hstart & Hw & Hv & Hn & Hs & Ht & _ & _ & Hb).
  assert (Hshown : shown (mgr p1) Cabin = true /\ isDialogueOpen (mgr p1) = true).
  { destruct (open_spec elderVisits Cabin localId p) as (q & Hopen & _ & Hq & _);
      [cbn; eauto|].
    pose proof (open_effect elderVisits Cabin localId p) as Heffect.
    cbn [open] in Hopen, Heffect. rewrite Hstart in Hopen, Heffect.
    injection Hopen as <-. split; [exact Hq | apply Heffect]. }
  destruct Hshown as [Hshown Hflag].
  assert (Hfire : exists p2,
            deliver elderVisits TimerFires p1 = Some {| reported := []; after := p2 |} /\
            win p2 = win p1 /\
            currentVisit (mgr p2) = Some visit /\
            currentCabinNumber (mgr p2) = Some (localId + 1)%nat /\
            onclick (mgr p2) !! "continue-btn" = Some HComplete /\
            isDialogueOpen (mgr p2) = true /\
            visibleStory (mgr p2) = Some (ElderVisits.success (ElderVisits.math visit)) /\
            dialogueStep (mgr p2) = 0%nat /\
            buttons (mgr p2) = buttons (mgr p1)).
  { unfold deliver, listeners, dispatch, fireTimer. exec. rewrite Ht, Htimers.
    unfold showSuccess. exec. rewrite Hv. exec.
    eexists. split; [reflexivity|]. exec. maps.
    repeat (split; [first [reflexivity | assumption]|]).
    split; [|split; [assumption | reflexivity]].
    unfold visibleStory, shown in *. exec. cbn [overlayOf] in *. maps.
    rewrite Hshown. now maps. }
  destruct Hfire as (p2 & Hfire & Hw2 & Hv2 & Hn2 & Hon2 & Hflag2 & Hstory & Hs2 & Hb2).
  destruct (acknowledge_success p2 visit localId v keys Hv2 Hn2 Hon2)
    as (p3 & Hack & Hphase & _ & Hkeys3 & Hdone & _);
    [rewrite Hw2, Hw; assumption..|].
  exists p1, p2, p3. eexists.
  split; [exact Hstart|]. split; [exact Hfire|].
  split; [unfold phase; now rewrite Hflag2, Hon2|].
  split; [exact Hstory|]. split; [exact Hs2|].
  split; [rewrite Hb2, Hb; apply app_nil_r|].
  split; [exact Hack|]. split; [exact Hphase|]. split; [exact Hkeys3|].
  split; [apply mark_member|]. rewrite Hdone. apply elem_of_union_l, elem_of_singleton.
  reflexivity.
Qed.

Lemma startVisit_phase (q : Page) (j : nat) (other : ElderVisit) :
  elderVisits !! j = Some other ->
  exists q',
    startVisit elderVisits j q = Normal tt q' /\
    (phase (mgr q') = AlreadyVisited <-> j ∈ completedVisits (mgr q)).
Proof.
  intros Hother. unfold startVisit. exec. rewrite Hother. exec.
  case_bool_decide as Hdone; exec.
  - eexists. split; [reflexivity|]. unfold phase. exec. maps. tauto.
  - unfold displayCurrentStep. exec.
    destruct (ElderVisits.greeting other !! 0%nat); exec;
      (eexists; split; [reflexivity|]); unfold phase; exec; maps;
      case_bool_decide; (split; [discriminate | contradiction]).
Qed.

(** X15. The welcome-back branch follows the [id] field of the visits that
    were acknowledged, not their position in the table: once the success
    screen of [visit] has been acknowledged, [startVisit(j)] takes the
    welcome-back branch exactly when [j] is the [id] of [visit] or was in
    the completed set before. *)
Theorem welcome_back_follows_the_id
  (p : Page) (visit other : ElderVisit) (localId j : nat)
  (v : Variant) (keys : list string) :
  currentVisit (mgr p) = Some visit ->
  currentCabinNumber (mgr p) = Some (localId + 1)%nat ->
  onclick (mgr p) !! "continue-btn" = Some HComplete ->
  progressApi (win p) = Some v ->
  visitedKeys (win p) = Some keys ->
  elderVisits !! j = Some other ->
  exists p1 p2,
    deliver elderVisits ContinueClick p = Some {| reported := []; after := p1 |} /\
    startVisit elderVisits j p1 = Normal tt p2 /\
    (phase (mgr p2) = AlreadyVisited <->
     j = ElderVisits.id visit \/ j ∈ completedVisits (mgr p)).
Proof.
  intros Hvisit Hnumber Hon Hapi Hkeys Hother.
  destruct (acknowledge_success p visit localId v keys Hvisit Hnumber Hon Hapi Hkeys)
    as (p1 & Hack & _ & _ & _ & Hdone & _).
  destruct (startVisit_phase p1 j other Hother) as (p2 & Hstart & Hphase).
  exists p1, p2. split; [exact Hack|]. split; [exact Hstart|].
  rewrite Hphase, Hdone, elem_of_union, elem_of_singleton. reflexivity.
Qed.

End Pending.

(** ** The completion notice and the stations of a world *)

Lemma zones_length (cabinPositions : list World.Position) :
  length (setupInteractables cabinPositions) = (length cabinPositions + 12)%nat.
Proof.
  unfold setupInteractables, zonesOf. rewrite !length_app, !length_imap. cbn. lia.
Qed.

Lemma zoneKey_station (zones : list UserData) (userData : UserData) (c : Category) :
  userData ∈ zones ->
  categoryOf (type userData) = Some c ->
  markOf c (index userData) ∈ map zoneKey zones.
Proof.
  intros Hin Hc. apply list_elem_of_fmap. exists userData. split; [|exact Hin].
  unfold zoneKey. now rewrite Hc.
Qed.

Section Reach.

Variable elderVisits : list ElderVisit.
Variable allowed : list string.
Hypothesis short : (length allowed < TOTAL_STATIONS)%nat.

#[local] Instance zoned_refl : Reflexive (zoned allowed).
Proof. intros p. split; [reflexivity|]. split; auto. Qed.

#[local] Instance zoned_trans : Transitive (zoned allowed).
Proof.
  intros p q r (Hw1 & Hh1 & Hn1) (Hw2 & Hh2 & Hn2).
  split; [congruence|]. split.
  - intros elem h Hh. destruct (Hh2 elem h Hh) as [Hq|Hgood]; auto.
  - intros n Hn. destruct (Hn2 n Hn) as [Hq|Hgood]; auto.
Qed.

Lemma zoned_within (p p' : Page) :
  zoned allowed p p' -> withinWorld allowed p -> withinWorld allowed p'.
Proof.
  intros (Hw & Hh & Hn) (Hstore & Hhandlers & Hnumber).
  split; [now rewrite Hw|]. split.
  - intros elem h Hbound. destruct (Hh elem h Hbound); eauto.
  - intros n Hfile. destruct (Hn n Hfile); eauto.
Qed.

(** A single update of the manager. *)
Ltac zoned_leaf :=
  idtac;
  unfold zoned, set_win; rewrite ?createOptions; exec;
  (split; [reflexivity|]);
  (split;
   [ let elem := fresh "elem" in let h := fresh "h" in let H := fresh "H" in
     intros elem h;
     first [ intros H; left; exact H
           | rewrite lookup_insert_Some; intros [[_ <-]|[_ H]];
             [ right; cbn [goodHandler]; first [exact I | assumption]
             | left; exact H ] ]
   | let n := fresh "n" in let H := fresh "H" in
     intros n;
     first [ intros H; left; exact H
           | intros [= <-]; right; assumption ] ]).

Lemma zoned_open (c : Category) (stationId : nat) :
  markOf c stationId ∈ allowed ->
  respects (zoned allowed) (open elderVisits c stationId).
Proof.
  intros Hkey. destruct c as [| |k]; cbn [open markOf] in *;
    respects_auto nothing_known zoned_leaf.
Qed.

Lemma zoned_onCanvasClick (zones : list UserData) (event : Pointer)
  (intersects : list UserData) :
  (forall key, key ∈ map zoneKey zones -> key ∈ allowed) ->
  Forall (fun userData => userData ∈ zones) intersects ->
  respects (zoned allowed) (onCanvasClick elderVisits event intersects).
Proof.
  intros Hzones Hhit p.
  destruct (isDialogueOpen (mgr p)) eqn:Hflag;
    [unfold onCanvasClick; exec; rewrite Hflag; reflexivity|].
  destruct (existsb (shown (mgr p)) experienceOverlays) eqn:Hnone;
    [unfold onCanvasClick; exec; rewrite Hflag, Hnone; reflexivity|].
  destruct intersects as [|userData rest].
  { unfold onCanvasClick. exec. rewrite Hflag, Hnone. exec.
    split; [reflexivity|]. split; auto. }
  rewrite canvas_dispatch by assumption.
  apply Forall_cons in Hhit as [Hzone _].
  destruct (categoryOf (type userData)) as [c|] eqn:Hc.
  - pose proof (zoned_open c (index userData)
                  (Hzones _ (zoneKey_station zones userData c Hzone Hc))
                  {| win := win p; mgr := set_mouse (Some event) (mgr p) |}) as Hopen.
    destruct (open elderVisits c (index userData) _); [| |exact I];
      (etransitivity; [|exact Hopen]); (split; [reflexivity|]); split; auto.
  - split; [reflexivity|]. split; auto.
Qed.

Lemma store_marked (v : Variant) (c : string) (n : nat) (w : Window) :
  storeWithin allowed w ->
  stationKey c n ∈ allowed ->
  exists w', markStationVisited v c n w = Normal tt w' /\ storeWithin allowed w'.
Proof.
  intros (keys & Hkeys & Hnd & Hsub & Hnotices & Hflag) Hkey.
  destruct (decide (stationKey c n ∈ keys)) as [Hin|Hout].
  - exists w. split; [eapply mark_present; eassumption|]. exists keys. auto.
  - eexists. split; [eapply mark_fresh; eassumption|].
    set (keys' := (keys ++ [stationKey c n])%list).
    assert (Hnd' : NoDup keys').
    { apply NoDup_app. repeat split; [exact Hnd| |apply NoDup_singleton].
      intros key Hk Hk'. apply list_elem_of_singleton in Hk'. congruence. }
    assert (Hsub' : forall key, key ∈ keys' -> key ∈ allowed).
    { intros key Hk. apply elem_of_app in Hk as [Hk|Hk]; [auto|].
      apply list_elem_of_singleton in Hk. congruence. }
    assert (Hshort : (TOTAL_STATIONS <=? length keys')%nat = false).
    { apply Nat.leb_gt. eapply Nat.le_lt_trans; [|exact short].
      apply submseteq_length, NoDup_submseteq; assumption. }
    exists keys'. split; [rewrite published_keys; apply visitedKeys_stored; reflexivity|].
    split; [exact Hnd'|]. split; [exact Hsub'|].
    unfold published. fold keys'. rewrite Hshort. cbn [andb].
    destruct v; cbn; auto.
Qed.

Lemma store_markAll (v : Variant) (calls : list (string * nat)) :
  forall w : Window,
    Forall (fun call => stationKey call.1 call.2 ∈ allowed) calls ->
    storeWithin allowed w ->
    exists w', markAll v calls w = Normal tt w' /\ storeWithin allowed w'.
Proof.
  induction calls as [|[c n] calls IH]; intros w Hcalls Hw.
  - exists w. split; [reflexivity | exact Hw].
  - apply Forall_cons in Hcalls as [Hcall Hcalls].
    destruct (store_marked v c n w Hw Hcall) as (w1 & Hmark & Hw1).
    rewrite (markAll_cons v c n calls w w1 Hmark). now apply IH.
Qed.

Lemma within_markVisited (stationType : string) (stationId : nat) (p : Page) :
  withinWorld allowed p ->
  stationKey stationType stationId ∈ allowed ->
  exists w',
    markVisited stationType stationId p = Normal tt (set_win w' p) /\
    storeWithin allowed w'.
Proof.
  intros (Hstore & _) Hkey. unfold markVisited. exec.
  destruct (progressApi (win p)) as [v|].
  - destruct (store_marked v stationType stationId (win p) Hstore Hkey) as (w' & Hcall & Hw').
    exists w'. unfold inWindow. rewrite Hcall. auto.
  - exists (win p). destruct p. auto.
Qed.

Lemma storeWithin_navigate (url : string) (w : Window) :
  storeWithin allowed w -> storeWithin allowed (navigate url w).
Proof.
  intros (keys & Hkeys & Hrest). exists keys. split; [|exact Hrest].
  rewrite <- Hkeys. now apply visitedKeys_frame.
Qed.


Lemma zoned_keeps (l : M Page unit) :
  respects (zoned allowed) l -> keeps (withinWorld allowed) l.
Proof.
  intros Hl p Hp. specialize (Hl p).
  destruct (l p); [| |exact I]; eapply zoned_within; eassumption.
Qed.

Lemma zoned_advanceDialogue : respects (zoned allowed) advanceDialogue.
Proof. respects_auto nothing_known zoned_leaf. Qed.

Lemma zoned_close (c : Category) : respects (zoned allowed) (close c).
Proof. destruct c; respects_auto nothing_known zoned_leaf. Qed.

Lemma within_clickProperty (elem : string) :
  keeps (withinWorld allowed) (clickProperty elem).
Proof.
  intros p Hp. pose proof Hp as (Hstore & Hhandlers & Hnumber).
  unfold clickProperty. exec.
  destruct (onclick (mgr p) !! elem) as [h|] eqn:Hbound; [|exact Hp].
  pose proof (Hhandlers elem h Hbound) as Hgood.
  destruct h as [| | |stationType stationId url]; cbn [runHandler goodHandler] in *.
  - now apply (zoned_keeps _ zoned_advanceDialogue).
  - now apply (zoned_keeps _ (zoned_close Cabin)).
  - unfold completeVisit. exec.
    destruct (currentVisit (mgr p)) as [visit|]; exec; [|exact Hp].
    destruct (currentCabinNumber (mgr p)) as [n|] eqn:Hfile; [|exact I].
    rewrite <- Hfile in Hnumber.
    set (p1 := {| win := win p; mgr := _ |}).
    assert (Hp1 : withinWorld allowed p1)
      by (split; [exact Hstore|split; [exact Hhandlers | exact Hnumber]]).
    destruct (within_markVisited "cabin" n p1 Hp1 (Hnumber n Hfile)) as (w' & Hcall & Hw').
    rewrite Hcall.
    apply (zoned_keeps _ (zoned_close Cabin)).
    split; [exact Hw'|]. split; [exact Hhandlers | exact Hnumber].
  - destruct (within_markVisited stationType stationId p Hp Hgood) as (w' & Hcall & Hw').
    unfold bind. rewrite Hcall. unfold inWindow. exec.
    split; [now apply storeWithin_navigate|]. split; [exact Hhandlers | exact Hnumber].
Qed.

Lemma within_listeners (zones : list UserData) (ev : Event) :
  (forall key, key ∈ map zoneKey zones -> key ∈ allowed) ->
  fromZones zones ev ->
  Forall (keeps (withinWorld allowed)) (listeners elderVisits ev).
Proof.
  intros Hzones Hev.
  destruct ev as [event intersects| |c|btn|c| |]; cbn [listeners];
    try destruct c;
    repeat (apply Forall_cons_2; [|try apply Forall_nil_2]);
    try apply Forall_nil_2;
    try apply within_clickProperty;
    apply zoned_keeps.
  - now apply (zoned_onCanvasClick zones).
  - apply zoned_advanceDialogue.
  - apply (zoned_close Cabin).
  - apply (zoned_close Fireplace).
  - apply (zoned_close (Single k)).
  - respects_auto nothing_known zoned_leaf.
  - respects_auto nothing_known zoned_leaf.
  - respects_auto nothing_known zoned_leaf.
Qed.

Lemma within_run (zones : list UserData) (evs : list Event) :
  (forall key, key ∈ map zoneKey zones -> key ∈ allowed) ->
  forall p r,
    Forall (fromZones zones) evs ->
    withinWorld allowed p ->
    run elderVisits evs p = Some r ->
    withinWorld allowed (after r).
Proof.
  intros Hzones. induction evs as [|ev evs IH]; intros p r Hevs Hp Hrun; cbn [run] in Hrun.
  - injection Hrun as <-. exact Hp.
  - apply Forall_cons in Hevs as [Hev Hevs].
    destruct (deliver elderVisits ev p) as [r0|] eqn:Hdel; [|discriminate].
    destruct (run elderVisits evs (after r0)) as [r1|] eqn:Hrest; [|discriminate].
    injection Hrun as <-. cbn [after].
    eapply IH; [exact Hevs| |exact Hrest].
    eapply (dispatch_invariant (withinWorld allowed)); [|exact Hp|exact Hdel].
    now apply (within_listeners zones).
Qed.

End Reach.

(** X9. With the zones a world builds, the completion notice is out of
    reach.  A world with at most five cabin positions has at most seventeen
    zones, and a click on the canvas can only hit a zone.  So in a session
    that starts on a store holding keys of zones only (an empty store, for
    one), whatever the visitor does, the store holds keys of zones, each
    once, hence fewer than [TOTAL_STATIONS], and no completion notice is
    shown. *)
Theorem completion_out_of_reach
  (elderVisits : list ElderVisit) (cabinPositions : list World.Position)
  (v : Variant) (controls : option bool) (item : option string) (widgets : bool)
  (keys0 : list string) (evs : list Event) (p0 : Page) (r : Reaction) :
  let zones := setupInteractables cabinPositions in
  (length cabinPositions <= 5)%nat ->
  visitedKeys (freshWindow item widgets) = Some keys0 ->
  NoDup keys0 ->
  (forall key, key ∈ keys0 -> key ∈ map zoneKey zones) ->
  loadPage v controls (freshWindow item widgets) = Some p0 ->
  Forall (fromZones zones) evs ->
  run elderVisits evs p0 = Some r ->
  notices (win (after r)) = 0%nat /\
  completionShown (win (after r)) = false /\
  exists keys,
    visitedKeys (win (after r)) = Some keys /\
    NoDup keys /\
    (forall key, key ∈ keys -> key ∈ map zoneKey zones) /\
    (length keys <= length cabinPositions + 12 < TOTAL_STATIONS)%nat.
Proof.
  intros zones Hcabins Hkeys Hnd Hsub Hload Hevs Hrun.
  assert (Hlen : length (map zoneKey zones) = (length cabinPositions + 12)%nat)
    by (rewrite length_map; apply zones_length).
  assert (Hshort : (length (map zoneKey zones) < TOTAL_STATIONS)%nat)
    by (rewrite Hlen; unfold TOTAL_STATIONS; lia).
  assert (Hp0 : withinWorld (map zoneKey zones) p0).
  { revert Hload. unfold loadPage, loadProgress.
    rewrite (updateProgressUI_keys v _ keys0 Hkeys). intros [= <-]. split; [|split].
    - exists keys0. cbn [win]. split.
      { rewrite <- Hkeys, <- (published_keys v keys0 (freshWindow item widgets)).
        now apply visitedKeys_frame. }
      split; [exact Hnd|]. split; [exact Hsub|].
      assert (Hfew : (TOTAL_STATIONS <=? length keys0)%nat = false).
      { apply Nat.leb_gt. eapply Nat.le_lt_trans; [|exact Hshort].
        apply submseteq_length, NoDup_submseteq; assumption. }
      unfold published. rewrite Hfew. destruct v; cbn; auto.
    - intros elem h. cbn [mgr newManager onclick]. now rewrite lookup_empty.
    - intros n. cbn [mgr newManager currentCabinNumber]. discriminate. }
  destruct (within_run elderVisits (map zoneKey zones) Hshort zones evs
              (fun key H => H) p0 r Hevs Hp0 Hrun)
    as ((keys & Hkeys' & Hnd' & Hsub' & Hnotices & Hflag) & _).
  split; [exact Hnotices|]. split; [exact Hflag|].
  exists keys. split; [exact Hkeys'|]. split; [exact Hnd'|]. split; [exact Hsub'|].
  split; [|unfold TOTAL_STATIONS; lia].
  rewrite <- Hlen. apply submseteq_length, NoDup_submseteq; assumption.
Qed.

(** ** One key per zone *)

Lemma to_uint_nonnil (n : nat) : Nat.to_uint n <> Decimal.Nil.
Proof.
  rewrite <- (DecimalNat.Unsigned.of_to n) at 1. rewrite DecimalNat.Unsigned.to_of.
  unfold Decimal.unorm. destruct (Decimal.nzhead (Nat.to_uint n)); discriminate.
Qed.

Lemma string_of_nat_inj (n m : nat) : string_of_nat n = string_of_nat m -> n = m.
Proof.
  unfold string_of_nat. intros H.
  apply (f_equal NilZero.uint_of_string) in H.
  rewrite !NilZero.usu in H by apply to_uint_nonnil.
  injection H as H. now apply DecimalNat.Unsigned.to_uint_inj.
Qed.

Lemma append_inj (a b c : string) : a ++ b = a ++ c -> b = c.
Proof.
  induction a as [|x a IH]; [now rewrite !append_empty|].
  rewrite !append_cons. intros [= H]. auto.
Qed.

Lemma stationKey_inj (stationType : string) (n m : nat) :
  stationKey stationType n = stationKey stationType m -> n = m.
Proof.
  unfold stationKey. intros H. apply append_inj, append_inj in H.
  now apply string_of_nat_inj.
Qed.

Lemma zoneKeys_of (kind : string) {A} (table : list A) :
  map zoneKey (zonesOf kind table)
  = (fun i => zoneKey {| type := kind; index := i |}) <$> seq 0 (length table).
Proof.
  unfold zonesOf. rewrite <- imap_seq_0. unfold fmap, list_fmap. rewrite fmap_imap.
  reflexivity.
Qed.

Lemma NoDup_zone_keys (kind : string) (c : Category) {A} (table : list A) :
  categoryOf kind = Some c ->
  NoDup (map zoneKey (zonesOf kind table)).
Proof.
  intros Hc. rewrite zoneKeys_of. apply NoDup_fmap_2_strong; [|apply NoDup_seq].
  intros i j _ _. unfold zoneKey. cbn [type index]. rewrite Hc.
  destruct c; cbn [markOf]; intros H; apply stationKey_inj in H; lia.
Qed.

Lemma zone_key_prefix (kind : string) (c : Category) {A} (table : list A) (key : string) :
  categoryOf kind = Some c ->
  key ∈ map zoneKey (zonesOf kind table) ->
  exists i, key = markOf c i.
Proof.
  intros Hc. rewrite zoneKeys_of, list_elem_of_fmap. intros (i & -> & _).
  exists i. unfold zoneKey. cbn [type index]. now rewrite Hc.
Qed.

(** Keys of stations of different categories differ in their first
    letters. *)
Lemma markOf_category (c c' : Category) (i j : nat) : markOf c i = markOf c' j -> c = c'.
Proof.
  destruct c as [| |[]], c' as [| |[]]; try reflexivity;
    unfold markOf, stationKey, kindName; rewrite !append_cons; discriminate.
Qed.

Ltac zone_key H i Hi :=
  lazymatch type of H with
  | _ ∈ map zoneKey (zonesOf ?kind ?table) =>
      let c := eval vm_compute in (categoryOf kind) in
      lazymatch c with
      | Some ?c' => destruct (zone_key_prefix kind c' table _ eq_refl H) as [i Hi]
      end
  end.

Lemma NoDup_zones (cabinPositions : list World.Position) :
  NoDup (map zoneKey (setupInteractables cabinPositions)).
Proof.
  unfold setupInteractables. rewrite !map_app.
  repeat match goal with
         | |- NoDup (map zoneKey (zonesOf ?kind _) ++ _) =>
             apply NoDup_app; split;
             [apply (NoDup_zone_keys kind _ _ eq_refl)|split]
         | |- NoDup (map zoneKey (zonesOf ?kind _)) =>
             apply (NoDup_zone_keys kind _ _ eq_refl)
         end;
    intros key Hkey; zone_key Hkey i Hi; subst key;
    rewrite ?elem_of_app; intros Hother;
    repeat match goal with
           | H : _ \/ _ |- _ => destruct H as [H|H]
           end;
    zone_key Hother j Hj;
    apply markOf_category in Hj; discriminate.
Qed.

Lemma zone_marks (cabinPositions : list World.Position) :
  map (fun call => stationKey call.1 call.2) (map zoneMark (setupInteractables cabinPositions))
  = map zoneKey (setupInteractables cabinPositions).
Proof.
  rewrite map_map. apply Forall_fmap_ext, Forall_forall. intros userData Hzone.
  destruct (zone_station cabinPositions userData Hzone) as (c & Hc & _).
  unfold zoneMark, zoneKey. rewrite Hc. destruct c; reflexivity.
Qed.

Lemma markAll_fresh (v : Variant) (calls : list (string * nat)) :
  forall (w : Window) (keys : list string),
    visitedKeys w = Some keys ->
    NoDup (keys ++ map (fun call => stationKey call.1 call.2) calls) ->
    exists w',
      markAll v calls w = Normal tt w' /\
      visitedKeys w' = Some (keys ++ map (fun call => stationKey call.1 call.2) calls)%list.
Proof.
  induction calls as [|[c n] calls IH]; intros w keys Hkeys Hnd.
  - exists w. cbn [map]. rewrite app_nil_r. split; [reflexivity | exact Hkeys].
  - cbn [map fst snd] in *.
    assert (Hfresh : stationKey c n ∉ keys).
    { apply NoDup_app in Hnd as (_ & Hdisjoint & _). intros Hin.
      apply (Hdisjoint _ Hin). constructor. }
    destruct (mark_keys v c n w keys Hkeys) as (w1 & Hmark & Hkeys1).
    rewrite bool_decide_eq_false_2 in Hkeys1 by exact Hfresh.
    rewrite (markAll_cons v c n calls w w1 Hmark).
    destruct (IH w1 _ Hkeys1) as (w' & Hrun & Hkeys').
    { now rewrite <- app_assoc. }
    exists w'. split; [exact Hrun|]. now rewrite Hkeys', <- app_assoc.
Qed.

(** X14. Every zone of a world records a key of its own, so a complete
    tour counts every zone: after [markVisited] has been called for each
    zone of a world with at most five cabins, on a page loaded over an empty
    store, the store holds exactly the keys of the zones in the order of
    the tour, the counter (when the page has one) shows the number of
    cabins plus twelve — 17 in the three worlds — and no completion notice
    has been shown. *)
Theorem a_full_tour_counts_every_zone
  (v : Variant) (cabinPositions : list World.Position) (widgets : bool) :
  let zones := setupInteractables cabinPositions in
  (length cabinPositions <= 5)%nat ->
  NoDup (map zoneKey zones) /\
  exists w1 w2,
    loadProgress v (freshWindow None widgets) = Some w1 /\
    markAll v (map zoneMark zones) w1 = Normal tt w2 /\
    visitedKeys w2 = Some (map zoneKey zones) /\
    visitedCount w2 = (length cabinPositions + 12)%nat /\
    progressCount w2
    = (if widgets then Some (Some (length cabinPositions + 12)%nat) else None) /\
    notices w2 = 0%nat.
Proof.
  intros zones Hcabins.
  pose proof (NoDup_zones cabinPositions) as Hnd. fold zones in Hnd.
  split; [exact Hnd|].
  set (w := freshWindow None widgets).
  assert (Hkeys : visitedKeys w = Some []) by reflexivity.
  assert (Hload : loadProgress v w = Some (install (Some v) (published v [] w))).
  { unfold loadProgress. now rewrite (updateProgressUI_keys v w [] Hkeys). }
  set (w1 := install (Some v) (published v [] w)) in *.
  assert (Hkeys1 : visitedKeys w1 = Some []).
  { unfold w1. rewrite <- Hkeys, <- (published_keys v [] w). now apply visitedKeys_frame. }
  assert (Hlen : length (map zoneKey zones) = (length cabinPositions + 12)%nat)
    by (rewrite length_map; apply zones_length).
  destruct (markAll_fresh v (map zoneMark zones) w1 [] Hkeys1) as (w2 & Hrun & Hkeys2).
  { cbn [app]. unfold zones. now rewrite zone_marks. }
  cbn [app] in Hkeys2. unfold zones in Hkeys2. rewrite zone_marks in Hkeys2. fold zones in Hkeys2.
  exists w1, w2. split; [exact Hload|]. split; [exact Hrun|]. split; [exact Hkeys2|].
  split; [unfold visitedCount; now rewrite Hkeys2|].
  split.
  - assert (Hstep : inStep w [] w1).
    { destruct (published_widgets v [] w) as [Hc Hb]. split; [exact Hkeys1|]. split; assumption. }
    destruct (markAll_inStep v (map zoneMark zones) w w1 [] Hstep)
      as (w2' & keys' & Hrun' & Hk & Hc & _).
    rewrite Hrun in Hrun'. injection Hrun' as <-.
    rewrite Hkeys2 in Hk. injection Hk as <-.
    rewrite Hc, Hlen. destruct widgets; reflexivity.
  - assert (Hshort : (length (map zoneKey zones) < TOTAL_STATIONS)%nat)
      by (rewrite Hlen; unfold TOTAL_STATIONS; lia).
    assert (Hw1 : storeWithin (map zoneKey zones) w1).
    { exists []. split; [exact Hkeys1|]. split; [apply NoDup_nil_2|].
      split; [intros key Hkey; now apply elem_of_nil in Hkey|].
      destruct v; split; reflexivity. }
    destruct (store_markAll (map zoneKey zones) Hshort v (map zoneMark zones) w1)
      as (w2' & Hrun' & (keys' & _ & _ & _ & Hnotices & _)); [|exact Hw1|].
    + apply Forall_forall. intros call Hcall.
      unfold zones. rewrite <- zone_marks. apply list_elem_of_fmap. eauto.
    + rewrite Hrun in Hrun'. injection Hrun' as <-. exact Hnotices.
Qed.

(** ** The welcome modal *)

Lemma tokens_add_member (c : string) (classes : list string) : c ∈ tokens_add c classes.
Proof.
  unfold tokens_add. case_bool_decide as Hin; [exact Hin|].
  apply elem_of_app. right. constructor.
Qed.

(** X12. The welcome modal is shown until Begin has been clicked once.  On
    a page that has the modal and the Begin button: at load the modal loses
    its class [hidden] and the camera controls are disabled exactly when the
    item [metisPrairieVisited] is missing or empty; a click on Begin then
    hides the modal, stores the item and enables the controls; and on every
    later load that finds this item nothing is shown and the controls are
    left alone. *)
Theorem welcome_shown_until_begun (s : Welcome) (classes : list string) :
  welcomeModal s = Some classes ->
  beginBtn s = true ->
  exists s1 s2 classes2,
    welcomeOnLoad s = Normal tt s1 /\
    (if truthy (visitedItem s) then s1 = s
     else welcomeModal s1 = Some (tokens_remove "hidden" classes) /\
          ("hidden" ∉ tokens_remove "hidden" classes) /\
          worldControls s1 = false /\
          visitedItem s1 = visitedItem s) /\
    beginClick s1 = Normal tt s2 /\
    welcomeModal s2 = Some classes2 /\
    "hidden" ∈ classes2 /\
    worldControls s2 = true /\
    visitedItem s2 = Some "true" /\
    forall s', visitedItem s' = visitedItem s2 -> welcomeOnLoad s' = Normal tt s'.
Proof.
  destruct s as [item modal btn enabled]. cbn [welcomeModal beginBtn visitedItem].
  intros -> ->.
  assert (Hlater : forall s', visitedItem s' = Some "true" -> welcomeOnLoad s' = Normal tt s').
  { intros s' Hitem. unfold welcomeOnLoad, bind, get. now rewrite Hitem. }
  unfold welcomeOnLoad, beginClick, bind, get, modify, ret.
  cbn [visitedItem welcomeModal]. rewrite bool_decide_eq_true_2 by eauto.
  destruct (truthy item); cbn [negb andb].
  - eexists. eexists. eexists. split; [reflexivity|]. split; [reflexivity|].
    cbn. split; [reflexivity|]. split; [reflexivity|].
    split; [apply tokens_add_member|]. auto.
  - eexists. eexists. eexists. split; [reflexivity|]. cbn.
    split.
    { split; [reflexivity|]. split; [|auto]. unfold tokens_remove.
      rewrite list_elem_of_filter. tauto. }
    split; [reflexivity|]. split; [reflexivity|].
    split; [apply tokens_add_member|]. auto.
Qed.

(** ** When a listener throws *)

Section Errors.

Variable elderVisits : list ElderVisit.

Lemma advance_outcome (p : Page) :
  match advanceDialogue p with
  | Normal _ p' => sessionKept p p'
  | Throw e p' => e = TypeError /\ currentVisit (mgr p) = None /\ sessionKept p p'
  | Unmodelled => False
  end.
Proof.
  pose proof (sessionKept_advanceDialogue p) as Hkept.
  destruct (currentVisit (mgr p)) as [visit|] eqn:Hvisit.
  - destruct (advance_returns p visit Hvisit) as (p1 & -> & Hp1). exact Hp1.
  - revert Hkept. unfold advanceDialogue. exec. rewrite Hvisit. exec. auto.
Qed.

Lemma markVisited_readable (stationType : string) (stationId : nat) (p : Page) :
  progressApi (win p) = None \/ is_Some (visitedKeys (win p)) ->
  exists w', markVisited stationType stationId p = Normal tt (set_win w' p).
Proof.
  intros Hstore. unfold markVisited. exec.
  destruct (progressApi (win p)) as [v|] eqn:Hapi.
  - destruct Hstore as [|[keys Hkeys]]; [discriminate|].
    destruct (mark_keys v stationType stationId (win p) keys Hkeys) as (w' & Hcall & _).
    exists w'. unfold inWindow. now rewrite Hcall.
  - exists (win p). now destruct p.
Qed.

Lemma handler_outcome (h : Handler) (p : Page) :
  progressApi (win p) = None \/ is_Some (visitedKeys (win p)) ->
  match runHandler h p with
  | Normal _ _ | Unmodelled => True
  | Throw e _ =>
      e = TypeError /\ currentVisit (mgr p) = None /\ (h = HAdvance \/ h = HComplete)
  end.
Proof.
  intros Hstore. destruct h as [| | |stationType stationId url]; cbn [runHandler].
  - pose proof (advance_outcome p) as Hadvance.
    destruct (advanceDialogue p); [exact I| |exact I]. intuition.
  - unfold closeDialogue. exec. exact I.
  - unfold completeVisit. exec.
    destruct (currentVisit (mgr p)) as [visit|]; exec; [|auto].
    destruct (currentCabinNumber (mgr p)) as [n|]; [|exact I].
    set (p1 := {| win := win p; mgr := _ |}).
    destruct (markVisited_readable "cabin" n p1 Hstore) as (w' & ->).
    unfold closeDialogue. exec. exact I.
  - unfold bind. destruct (markVisited_readable stationType stationId p Hstore) as (w' & ->).
    unfold inWindow. exec. exact I.
Qed.

Lemma click_outcome (elem : string) (p : Page) :
  progressApi (win p) = None \/ is_Some (visitedKeys (win p)) ->
  match clickProperty elem p with
  | Normal _ _ | Unmodelled => True
  | Throw e _ =>
      e = TypeError /\ currentVisit (mgr p) = None /\
      (onclick (mgr p) !! elem = Some HAdvance \/ onclick (mgr p) !! elem = Some HComplete)
  end.
Proof.
  intros Hstore. unfold clickProperty. exec.
  destruct (onclick (mgr p) !! elem) as [h|]; [|exact I].
  pose proof (handler_outcome h p Hstore) as Hh.
  destruct (runHandler h p); [exact I| |exact I].
  destruct Hh as (-> & Hvisit & [->| ->]); auto.
Qed.

(** X16. A listener throws only without a visit on screen.  When the table
    has a visit for every cabin position, the explore buttons are bound to
    explore actions only and the store is readable (or the API missing), an
    event whose canvas hits are zones makes a listener throw only if no visit
    is current and the event is a click on Continue or a timer firing, and
    what is thrown is a TypeError. *)
Theorem errors_only_without_a_visit
  (cabinPositions : list World.Position) (ev : Event) (p : Page) (r : Reaction) :
  (length cabinPositions <= length elderVisits)%nat ->
  fromZones (setupInteractables cabinPositions) ev ->
  tidy (mgr p) ->
  progressApi (win p) = None \/ is_Some (visitedKeys (win p)) ->
  deliver elderVisits ev p = Some r ->
  reported r = [] \/
  (currentVisit (mgr p) = None /\
   (ev = ContinueClick \/ ev = TimerFires) /\
   Forall (fun e => e = TypeError) (reported r)).
Proof.
  intros Hcabins Hzones Htidy Hstore Hev. unfold deliver in Hev.
  assert (Hquiet : forall l p',
            l p = Normal tt p' -> dispatch [l] [] p = Some r -> reported r = []).
  { intros l p' Hl. cbn [dispatch]. rewrite Hl. now intros [= <-]. }
  destruct ev as [event intersects| |c|btn|c| |]; cbn [listeners] in Hev.
  - (* a click on the canvas: every zone has its station *)
    left. destruct (isDialogueOpen (mgr p)) eqn:Hflag.
    { eapply Hquiet; [|exact Hev]. unfold onCanvasClick. exec. now rewrite Hflag. }
    destruct (existsb (shown (mgr p)) experienceOverlays) eqn:Hnone.
    { eapply Hquiet; [|exact Hev]. unfold onCanvasClick. exec. now rewrite Hflag, Hnone. }
    destruct intersects as [|userData rest].
    { eapply Hquiet; [|exact Hev]. unfold onCanvasClick. exec. now rewrite Hflag, Hnone. }
    apply Forall_cons in Hzones as [Hzone _].
    destruct (zone_station cabinPositions userData Hzone) as (c & Hc & Hindex).
    assert (Hvalid : validStation elderVisits c (index userData)).
    { destruct c; cbn [validStation]; apply lookup_lt_is_Some_2; [lia | exact Hindex..]. }
    destruct (open_spec elderVisits c (index userData)
                {| win := win p; mgr := set_mouse (Some event) (mgr p) |} Hvalid)
      as (p' & Hopen & _).
    eapply Hquiet; [|exact Hev].
    rewrite canvas_dispatch, Hc by assumption. exact Hopen.
  - (* Continue: the listener of setupEvents, then the onclick property *)
    cbn [dispatch] in Hev. pose proof (advance_outcome p) as Hadvance.
    destruct (advanceDialogue p) as [[] p1|e p1|]; [| |contradiction].
    + destruct Hadvance as (Hw & _ & Hv & _).
      pose proof (click_outcome "continue-btn" p1) as Hclick.
      rewrite Hw, Hv in Hclick. specialize (Hclick Hstore).
      destruct (clickProperty "continue-btn" p1); [| |discriminate];
        injection Hev as <-; cbn [reported]; [now left|].
      right. destruct Hclick as (-> & Hnone & _). split; [exact Hnone|].
      split; [now left|]. repeat constructor.
    + destruct Hadvance as (-> & Hnone & Hw & _).
      pose proof (click_outcome "continue-btn" p1) as Hclick.
      rewrite Hw in Hclick. specialize (Hclick Hstore).
      right. split; [exact Hnone|]. split; [now left|].
      destruct (clickProperty "continue-btn" p1); [| |discriminate];
        injection Hev as <-; cbn [reported app]; [repeat constructor|].
      destruct Hclick as (-> & _). repeat constructor.
  - left. destruct (close_spec c p) as (p' & Hclose & _). eapply Hquiet; eassumption.
  - left. assert (Hclick : exists p', clickOption btn p = Normal tt p').
    { unfold clickOption. exec. destruct (buttons (mgr p) !! btn) as [b|]; [|eauto].
      unfold handleAnswer. destruct (isCorrect b); exec; eauto. }
    destruct Hclick as [p' Hclick]. eapply Hquiet; eassumption.
  - left. destruct c as [| |k]; [now injection Hev as <-| |];
      cbn [dispatch] in Hev;
      match type of Hev with
      | context [clickProperty (exploreBtnOf ?c) p] =>
          pose proof (click_outcome (exploreBtnOf c) p Hstore) as Hclick;
          destruct (clickProperty (exploreBtnOf c) p); [| |discriminate];
          injection Hev as <-; [reflexivity|];
          destruct Hclick as (_ & _ & [Hh|Hh]);
          destruct (Htidy c _ ltac:(discriminate) Hh) as (? & ? & ? & ?); discriminate
      end.
  - left. destruct (onEscape_spec p) as (p' & Hescape & _). eapply Hquiet; eassumption.
  - cbn [dispatch] in Hev. revert Hev. unfold fireTimer. exec.
    destruct (timers (mgr p)) as [|[|btn] rest]; exec.
    + intros [= <-]. now left.
    + unfold showSuccess. exec.
      destruct (currentVisit (mgr p)) as [visit|]; exec; intros [= <-]; [now left|].
      right. split; [reflexivity|]. split; [now right|]. repeat constructor.
    + intros [= <-]. now left.
Qed.

End Errors.

(** ** A visit without greeting lines *)

Section Greeting.

Variable elderVisits : list ElderVisit.

Lemma advance_past_the_end (q : Page) (visit : ElderVisit) :
  currentVisit (mgr q) = Some visit ->
  (length (ElderVisits.greeting visit) < S (dialogueStep (mgr q)))%nat ->
  advanceDialogue q
  = Normal tt {| win := win q; mgr := set_dialogueStep (S (dialogueStep (mgr q))) (mgr q) |}.
Proof.
  intros Hvisit Hpast. unfold advanceDialogue. exec. rewrite Hvisit. exec.
  replace (_ <? _)%nat with false by (symmetry; apply Nat.ltb_ge; lia).
  replace (_ =? _)%nat with false by (symmetry; apply Nat.eqb_neq; lia).
  reflexivity.
Qed.

Lemma advances_past_the_end (visit : ElderVisit) (n : nat) :
  forall q : Page,
    currentVisit (mgr q) = Some visit ->
    (length (ElderVisits.greeting visit) <= dialogueStep (mgr q))%nat ->
    times n advanceDialogue q
    = Normal tt {| win := win q; mgr := set_dialogueStep (dialogueStep (mgr q) + n) (mgr q) |}.
Proof.
  induction n as [|n IH]; intros q Hvisit Hpast; cbn [times].
  - unfold ret. destruct q as [w m]. cbn [win mgr]. rewrite Nat.add_0_r.
    destruct m; reflexivity.
  - unfold bind. rewrite (advance_past_the_end q visit Hvisit) by lia.
    rewrite IH; [|exact Hvisit|cbn; lia].
    rewrite Nat.add_succ_r. reflexivity.
Qed.

(** X17. A visit without greeting lines is a dead end.  [startVisit] shows
    no line for it (the story field keeps the text it had), and however
    often [advanceDialogue] runs afterwards, the step never equals the
    number of lines, so the math challenge is never shown: the dialogue
    stays in the greeting with the Continue button bound to advancing, no
    option is created and nothing is recorded. *)
Theorem empty_greeting_is_a_dead_end
  (p : Page) (localId : nat) (visit : ElderVisit) (n : nat) :
  elderVisits !! localId = Some visit ->
  ElderVisits.greeting visit = [] ->
  localId ∉ completedVisits (mgr p) ->
  exists p',
    (startVisit elderVisits localId ;;; times n advanceDialogue) p = Normal tt p' /\
    phase (mgr p') = Greeting n /\
    content (mgr p') !! "story-text" = content (mgr p) !! "story-text" /\
    display (mgr p') !! "math-section" = Some "none" /\
    display (mgr p') !! "continue-btn" = Some "block" /\
    onclick (mgr p') !! "continue-btn" = Some HAdvance /\
    optionsGrid (mgr p') = optionsGrid (mgr p) /\
    buttons (mgr p') = buttons (mgr p) /\
    completedVisits (mgr p') = completedVisits (mgr p) /\
    win p' = win p.
Proof.
  intros Hvisit Hempty Hnew.
  assert (Hstart : exists p1,
            startVisit elderVisits localId p = Normal tt p1 /\
            currentVisit (mgr p1) = Some visit /\
            dialogueStep (mgr p1) = 0%nat /\
            isDialogueOpen (mgr p1) = true /\
            content (mgr p1) !! "story-text" = content (mgr p) !! "story-text" /\
            display (mgr p1) !! "math-section" = Some "none" /\
            display (mgr p1) !! "continue-btn" = Some "block" /\
            onclick (mgr p1) !! "continue-btn" = Some HAdvance /\
            optionsGrid (mgr p1) = optionsGrid (mgr p) /\
            buttons (mgr p1) = buttons (mgr p) /\
            completedVisits (mgr p1) = completedVisits (mgr p) /\
            win p1 = win p).
  { unfold startVisit. exec. rewrite Hvisit. exec.
    rewrite bool_decide_eq_false_2 by exact Hnew. exec.
    unfold displayCurrentStep. exec. rewrite Hempty. cbn [lookup list_lookup]. exec.
    eexists. split; [reflexivity|]. exec. maps. repeat split. }
  destruct Hstart as (p1 & Hstart & Hv & Hs & Hflag & Hstory & Hmath & Hbtn & Hon & Hg & Hb & Hc & Hw).
  exists {| win := win p1; mgr := set_dialogueStep (dialogueStep (mgr p1) + n) (mgr p1) |}.
  split.
  { unfold bind. rewrite Hstart. apply (advances_past_the_end visit); [exact Hv|].
    rewrite Hempty. cbn. lia. }
  exec. split.
  { unfold phase. exec. rewrite Hflag, Hon, Hmath, Hs. cbn [negb].
    rewrite bool_decide_eq_false_2 by discriminate. reflexivity. }
  repeat split; assumption.
Qed.

(** X18. A visit that was left midway is not resumed.  Whatever the page
    was showing, [startVisit] on a visit that is not in the completed set
    starts its narrative over: step 0, the first greeting line in the story
    field, the speaker's name and place, the math section hidden, the
    Continue button shown with its label and bound to advancing, the
    controls disabled.  The window and the pending timers are not
    touched. *)
Theorem startVisit_starts_over
  (p : Page) (localId : nat) (visit : ElderVisit) (line : string) :
  elderVisits !! localId = Some visit ->
  ElderVisits.greeting visit !! 0%nat = Some line ->
  localId ∉ completedVisits (mgr p) ->
  exists p',
    startVisit elderVisits localId p = Normal tt p' /\
    phase (mgr p') = Greeting 0 /\
    visibleStory (mgr p') = Some line /\
    content (mgr p') !! "speaker-name" = Some (ElderVisits.name visit) /\
    content (mgr p') !! "speaker-location" = Some (ElderVisits.location visit) /\
    content (mgr p') !! "continue-btn" = Some "Continue →" /\
    display (mgr p') !! "continue-btn" = Some "block" /\
    display (mgr p') !! "math-section" = Some "none" /\
    currentVisit (mgr p') = Some visit /\
    currentCabinNumber (mgr p') = Some (localId + 1)%nat /\
    controls (mgr p') = (fun _ => false) <$> controls (mgr p) /\
    timers (mgr p') = timers (mgr p) /\
    win p' = win p.
Proof.
  intros Hvisit Hline Hnew. unfold startVisit. exec. rewrite Hvisit. exec.
  rewrite bool_decide_eq_false_2 by exact Hnew. exec.
  unfold displayCurrentStep. exec. rewrite Hline. exec.
  eexists. split; [reflexivity|].
  unfold phase, visibleStory, shown. exec. cbn [overlayOf]. maps.
  rewrite bool_decide_eq_false_2 by discriminate.
  rewrite bool_decide_eq_true_2 by reflexivity.
  repeat split.
Qed.

End Greeting.

(** ** The further properties on the sample pages *)

Lemma visited_set_only_grows_witness :
  exists w' added,
    markAll Island [("fire", 2); ("cabin", 1); ("fire", 2)]%nat storedWindow = Normal tt w' /\
    visitedKeys w' = Some (["cabin-1"] ++ added)%list /\
    NoDup added /\
    forall key, key ∈ added <->
                ((key ∉ ["cabin-1"]) /\
                 key ∈ map (fun call => stationKey call.1 call.2)
                         [("fire", 2); ("cabin", 1); ("fire", 2)]%nat).
Proof.
  apply (visited_set_only_grows Island [("fire", 2); ("cabin", 1); ("fire", 2)]%nat
           storedWindow ["cabin-1"]).
  vm_compute. reflexivity.
Defined.

Lemma progress_display_follows_store_witness :
  exists w1 w2 keys2,
    loadProgress Island storedWindow = Some w1 /\
    markAll Island [("fire", 2); ("cabin", 1)]%nat w1 = Normal tt w2 /\
    visitedKeys w2 = Some keys2 /\
    progressCount w2 = (fun _ => Some (length keys2)) <$> progressCount storedWindow /\
    progressBar w2
    = (fun _ => Some (percentageOf (length keys2))) <$> progressBar storedWindow.
Proof.
  apply (progress_display_follows_store Island storedWindow ["cabin-1"]).
  vm_compute. reflexivity.
Defined.

Lemma non_array_store_breaks_marking_witness :
  let w := freshWindow (Some "null") true in
  markStationVisited Island "fire" 2 w = Throw TypeError w /\
  (JNull = JNull ->
   updateProgressUI Island w = Throw TypeError w /\ loadProgress Island w = Some w).
Proof.
  apply (non_array_store_breaks_marking Island "fire" 2 (freshWindow (Some "null") true) JNull).
  - vm_compute. reflexivity.
  - exact I.
Defined.

Lemma no_api_no_progress_witness :
  let r := runOn corruptPage tourEvents in
  progressApi (win (after r)) = None /\
  progressItem (win (after r)) = progressItem (win corruptPage) /\
  progressBar (win (after r)) = progressBar (win corruptPage) /\
  progressCount (win (after r)) = progressCount (win corruptPage) /\
  notices (win (after r)) = notices (win corruptPage).
Proof.
  apply (no_api_no_progress sampleVisits tourEvents corruptPage).
  - reflexivity.
  - vm_compute. reflexivity.
Defined.

Lemma window_untouched_by_other_events_witness :
  win (after (runOn greetingPage [ContinueClick])) = win greetingPage.
Proof.
  apply (window_untouched_by_other_events sampleVisits ContinueClick greetingPage).
  - vm_compute. reflexivity.
  - vm_compute. exact I.
Defined.

Lemma explore_records_and_leaves_witness :
  exists p1 p2,
    open sampleVisits Fireplace 1 samplePage = Normal tt p1 /\
    deliver sampleVisits (ExploreClick Fireplace) p1 = Some {| reported := []; after := p2 |} /\
    href (win p2) = Some "experiences/language-game.html" /\
    visitedKeys (win p2) = Some (if bool_decide (markOf Fireplace 1 ∈ [])
                                 then [] else ([] ++ [markOf Fireplace 1])%list) /\
    mgr p2 = mgr p1.
Proof.
  apply (explore_records_and_leaves sampleVisits samplePage Fireplace 1
           "experiences/language-game.html" Island []).
  - discriminate.
  - reflexivity.
  - reflexivity.
  - reflexivity.
Defined.

Lemma open_outside_the_table_witness :
  exists p',
    open sampleVisits Fireplace 6 samplePage = Throw TypeError p' /\
    controls (mgr p') = (fun _ => false) <$> controls (mgr samplePage) /\
    display (mgr p') = display (mgr samplePage) /\
    content (mgr p') = content (mgr samplePage) /\
    onclick (mgr p') = onclick (mgr samplePage) /\
    win p' = win samplePage /\
    isDialogueOpen (mgr p') = isDialogueOpen (mgr samplePage) /\
    (Fireplace = Cabin ->
     forall event intersects,
       onCanvasClick sampleVisits event intersects p' = Normal tt p') /\
    exists p'',
      onEscape p' = Normal tt p'' /\
      controls (mgr p'') = (fun _ => true) <$> controls (mgr samplePage) /\
      isDialogueOpen (mgr p'') = false.
Proof.
  apply (open_outside_the_table sampleVisits samplePage Fireplace 6). reflexivity.
Defined.

Lemma every_zone_opens_its_station_witness :
  exists c p',
    categoryOf (type gardenZone) = Some c /\
    onCanvasClick fiveVisits samplePointer [gardenZone] samplePage = Normal tt p' /\
    shown (mgr p') c = true /\
    (forall c', c' ≠ c -> shown (mgr p') c' = false) /\
    isDialogueOpen (mgr p') = (if c is Cabin then true else false) /\
    mouse (mgr p') = Some samplePointer /\
    controls (mgr p') = (fun _ => false) <$> controls (mgr samplePage) /\
    win p' = win samplePage.
Proof.
  apply (every_zone_opens_its_station fiveVisits World.islandCabins).
  - cbn. lia.
  - apply list_elem_of_In. vm_compute. do 13 right. left. reflexivity.
  - reflexivity.
  - intros c. destruct c as [| |[]]; reflexivity.
Defined.

Lemma completion_out_of_reach_witness :
  let r := sampleRun tourEvents in
  notices (win (after r)) = 0%nat /\
  completionShown (win (after r)) = false /\
  exists keys,
    visitedKeys (win (after r)) = Some keys /\
    NoDup keys /\
    (forall key, key ∈ keys -> key ∈ map zoneKey (setupInteractables World.islandCabins)) /\
    (length keys <= length World.islandCabins + 12 < TOTAL_STATIONS)%nat.
Proof.
  apply (completion_out_of_reach sampleVisits World.islandCabins Island (Some true)
           None true [] tourEvents samplePage).
  - cbn. lia.
  - reflexivity.
  - apply NoDup_nil_2.
  - intros key Hkey. now apply elem_of_nil in Hkey.
  - reflexivity.
  - unfold tourEvents, hit.
    apply Forall_cons_2;
      [cbn [fromZones]; apply Forall_cons_2; [|apply Forall_nil_2];
       apply list_elem_of_In; vm_compute; left; reflexivity|].
    do 4 (apply Forall_cons_2; [exact I|]).
    apply Forall_cons_2;
      [cbn [fromZones]; apply Forall_cons_2; [|apply Forall_nil_2];
       apply list_elem_of_In; vm_compute; do 6 right; left; reflexivity|].
    apply Forall_cons_2; [exact I | apply Forall_nil_2].
  - vm_compute. reflexivity.
Defined.

Lemma continue_click_advances_twice_witness :
  exists p',
    deliver sampleVisits ContinueClick greetingPage
    = Some {| reported := []; after := p' |} /\
    dialogueStep (mgr p') = (dialogueStep (mgr greetingPage) + 2)%nat /\
    win p' = win greetingPage /\
    ((dialogueStep (mgr greetingPage) + 2 < length (ElderVisits.greeting sampleVisit))%nat ->
     content (mgr p') !! "story-text"
     = ElderVisits.greeting sampleVisit !! (dialogueStep (mgr greetingPage) + 2)%nat /\
     display (mgr p') = display (mgr greetingPage) /\
     optionsGrid (mgr p') = optionsGrid (mgr greetingPage)) /\
    ((dialogueStep (mgr greetingPage) + 1 = length (ElderVisits.greeting sampleVisit) \/
      dialogueStep (mgr greetingPage) + 2 = length (ElderVisits.greeting sampleVisit))%nat ->
     content (mgr p') !! "story-text" = Some "" /\
     display (mgr p') !! "math-section" = Some "block" /\
     display (mgr p') !! "continue-btn" = Some "none" /\
     mapM (fun i => buttons (mgr p') !! i) (optionsGrid (mgr p'))
     = Some (map optionBtn (ElderVisits.options (ElderVisits.math sampleVisit)))) /\
    ((length (ElderVisits.greeting sampleVisit) <= dialogueStep (mgr greetingPage))%nat ->
     mgr p' = set_dialogueStep (dialogueStep (mgr greetingPage) + 2) (mgr greetingPage)).
Proof.
  apply (continue_click_advances_twice sampleVisits greetingPage sampleVisit).
  - vm_compute. reflexivity.
  - vm_compute. reflexivity.
Defined.

Lemma math_question_shows_current_options_witness :
  exists p',
    showMathQuestion greetingPage = Normal tt p' /\
    mapM (fun i => buttons (mgr p') !! i) (optionsGrid (mgr p'))
    = Some (map optionBtn (ElderVisits.options (ElderVisits.math sampleVisit))) /\
    (forall i b, buttons (mgr greetingPage) !! i = Some b -> buttons (mgr p') !! i = Some b) /\
    Forall (fun i => buttons (mgr greetingPage) !! i = None) (optionsGrid (mgr p')) /\
    content (mgr p') !! "math-question"
    = Some (ElderVisits.question (ElderVisits.math sampleVisit)) /\
    display (mgr p') !! "math-section" = Some "block" /\
    display (mgr p') !! "continue-btn" = Some "none" /\
    timers (mgr p') = timers (mgr greetingPage) /\
    win p' = win greetingPage.
Proof.
  apply (math_question_shows_current_options greetingPage sampleVisit).
  vm_compute. reflexivity.
Defined.

Lemma welcome_shown_until_begun_witness :
  exists s1 s2 classes2,
    welcomeOnLoad firstVisit = Normal tt s1 /\
    (if truthy (visitedItem firstVisit) then s1 = firstVisit
     else welcomeModal s1 = Some (tokens_remove "hidden" ["modal"; "hidden"]) /\
          ("hidden" ∉ tokens_remove "hidden" ["modal"; "hidden"]) /\
          worldControls s1 = false /\
          visitedItem s1 = visitedItem firstVisit) /\
    beginClick s1 = Normal tt s2 /\
    welcomeModal s2 = Some classes2 /\
    "hidden" ∈ classes2 /\
    worldControls s2 = true /\
    visitedItem s2 = Some "true" /\
    forall s', visitedItem s' = visitedItem s2 -> welcomeOnLoad s' = Normal tt s'.
Proof.
  apply (welcome_shown_until_begun firstVisit ["modal"; "hidden"]); reflexivity.
Defined.

Lemma pending_success_skips_challenge_witness :
  exists p1 p2 p3 keys',
    startVisit sampleVisits 0 delayPage = Normal tt p1 /\
    deliver sampleVisits TimerFires p1 = Some {| reported := []; after := p2 |} /\
    phase (mgr p2) = Success /\
    visibleStory (mgr p2) = Some (ElderVisits.success (ElderVisits.math sampleVisit)) /\
    dialogueStep (mgr p2) = 0%nat /\
    buttons (mgr p2) = buttons (mgr delayPage) /\
    deliver sampleVisits ContinueClick p2 = Some {| reported := []; after := p3 |} /\
    phase (mgr p3) = Closed /\
    visitedKeys (win p3) = Some keys' /\
    stationKey "cabin" (0 + 1) ∈ keys' /\
    ElderVisits.id sampleVisit ∈ completedVisits (mgr p3).
Proof.
  apply (pending_success_skips_challenge sampleVisits delayPage 0 sampleVisit [] Island []).
  - reflexivity.
  - vm_compute. reflexivity.
  - vm_compute. reflexivity.
  - vm_compute. reflexivity.
Defined.

Lemma a_full_tour_counts_every_zone_witness :
  NoDup (map zoneKey (setupInteractables World.islandCabins)) /\
  exists w1 w2,
    loadProgress Island (freshWindow None true) = Some w1 /\
    markAll Island (map zoneMark (setupInteractables World.islandCabins)) w1 = Normal tt w2 /\
    visitedKeys w2 = Some (map zoneKey (setupInteractables World.islandCabins)) /\
    visitedCount w2 = (length World.islandCabins + 12)%nat /\
    progressCount w2 = Some (Some (length World.islandCabins + 12)%nat) /\
    notices w2 = 0%nat.
Proof.
  apply (a_full_tour_counts_every_zone Island World.islandCabins true).
  cbn. lia.
Defined.

Lemma welcome_back_follows_the_id_witness :
  exists p1 p2,
    deliver sampleVisits ContinueClick successPage
    = Some {| reported := []; after := p1 |} /\
    startVisit sampleVisits 0 p1 = Normal tt p2 /\
    (phase (mgr p2) = AlreadyVisited <->
     0%nat = ElderVisits.id sampleVisit \/ 0%nat ∈ completedVisits (mgr successPage)).
Proof.
  apply (welcome_back_follows_the_id sampleVisits successPage sampleVisit sampleVisit
           0 0 Island []).
  - vm_compute. reflexivity.
  - vm_compute. reflexivity.
  - vm_compute. reflexivity.
  - vm_compute. reflexivity.
  - vm_compute. reflexivity.
  - reflexivity.
Defined.

(** The worlds build seventeen zones each; a click on the garden zone opens
    the garden popup. *)
Example zones_of_the_worlds :
  length (setupInteractables World.islandCabins) = 17%nat /\
  length (setupInteractables World.crystalCabins) = 17%nat /\
  length (setupInteractables World.dioramaCabins) = 17%nat /\
  map zoneKey (setupInteractables World.islandCabins)
  = ["cabin-1"; "cabin-2"; "cabin-3"; "cabin-4"; "cabin-5";
     "fire-0"; "fire-1"; "fire-2"; "fire-3"; "fire-4"; "fire-5";
     "herb-0"; "logpile-0"; "garden-0"; "cart-0"; "fishing-0"; "memorial-0"].
Proof. repeat split. Qed.

(** The Begin button without the modal: the listener throws before the
    item is stored. *)
Example begin_without_modal :
  let s := {| visitedItem := None; welcomeModal := None;
              beginBtn := true; worldControls := true |} in
  welcomeOnLoad s = Normal tt s /\ beginClick s = Throw TypeError s.
Proof. split; reflexivity. Qed.

Lemma errors_only_without_a_visit_witness :
  let r := runOn delayPage [TimerFires] in
  reported r = [] \/
  (currentVisit (mgr delayPage) = None /\
   (TimerFires = ContinueClick \/ TimerFires = TimerFires) /\
   Forall (fun e => e = TypeError) (reported r)).
Proof.
  apply (errors_only_without_a_visit fiveVisits World.islandCabins TimerFires delayPage).
  - cbn. lia.
  - exact I.
  - intros c h Hc. destruct c as [| |[]]; [congruence|vm_compute; discriminate..].
  - right. eexists. vm_compute. reflexivity.
  - vm_compute. reflexivity.
Defined.

Example success_after_close_is_the_error :
  reported (runOn delayPage [TimerFires]) = [TypeError].
Proof. vm_compute. reflexivity. Qed.

Lemma empty_greeting_is_a_dead_end_witness :
  exists p',
    (startVisit [silentVisit] 0 ;;; times 3 advanceDialogue) samplePage = Normal tt p' /\
    phase (mgr p') = Greeting 3 /\
    content (mgr p') !! "story-text" = content (mgr samplePage) !! "story-text" /\
    display (mgr p') !! "math-section" = Some "none" /\
    display (mgr p') !! "continue-btn" = Some "block" /\
    onclick (mgr p') !! "continue-btn" = Some HAdvance /\
    optionsGrid (mgr p') = optionsGrid (mgr samplePage) /\
    buttons (mgr p') = buttons (mgr samplePage) /\
    completedVisits (mgr p') = completedVisits (mgr samplePage) /\
    win p' = win samplePage.
Proof.
  apply (empty_greeting_is_a_dead_end [silentVisit] samplePage 0 silentVisit 3).
  - reflexivity.
  - reflexivity.
  - apply not_elem_of_empty.
Defined.

Lemma startVisit_starts_over_witness :
  exists p',
    startVisit sampleVisits 0 successPage = Normal tt p' /\
    phase (mgr p') = Greeting 0 /\
    visibleStory (mgr p') = Some "Taanshi!" /\
    content (mgr p') !! "speaker-name" = Some (ElderVisits.name sampleVisit) /\
    content (mgr p') !! "speaker-location" = Some (ElderVisits.location sampleVisit) /\
    content (mgr p') !! "continue-btn" = Some "Continue →" /\
    display (mgr p') !! "continue-btn" = Some "block" /\
    display (mgr p') !! "math-section" = Some "none" /\
    currentVisit (mgr p') = Some sampleVisit /\
    currentCabinNumber (mgr p') = Some (0 + 1)%nat /\
    controls (mgr p') = (fun _ => false) <$> controls (mgr successPage) /\
    timers (mgr p') = timers (mgr successPage) /\
    win p' = win successPage.
Proof.
  apply (startVisit_starts_over sampleVisits successPage 0 sampleVisit "Taanshi!").
  - reflexivity.
  - reflexivity.
  - assert (E : completedVisits (mgr successPage) = ∅) by (vm_compute; reflexivity).
    rewrite E. apply not_elem_of_empty.
Defined.
